(** * Document_OCR: the text cleaner, the field extractor and the
      audit-logged document store, embedded from [src/Pytesseract.py] and
      [src/document_manager.py]. *)

From Stdlib Require Import ZArith NArith Ascii String Lia.
From stdpp Require Import base option list gmap pretty.

Local Open Scope N_scope.

(** ** Python strings

    A Python [str] is a sequence of Unicode code points.  A code point is
    an [N]; nothing below relies on the bound [0x110000]. *)

Module PyStr.

Abbreviation str := (list N).

(** The code points of an ASCII literal. *)
Definition py (s : string) : str := N_of_ascii <$> list_ascii_of_string s.

Definition LF : N := 10.
Definition SPACE : N := 32.

Definition between (lo hi c : N) : bool := (lo <=? c) && (c <=? hi).

(** [str.isspace] for one code point.  CPython's [_PyUnicode_IsWhitespace]
    is this closed list; [str.strip()] and [str.split()] without an
    argument use it. *)
Definition isspace (c : N) : bool :=
  between 9 13 c || between 28 32 c || (c =? 133) || (c =? 160)
  || (c =? 5760) || between 8192 8202 c || (c =? 8232) || (c =? 8233)
  || (c =? 8239) || (c =? 8287) || (c =? 12288).

Definition is_ascii (c : N) : bool := c <? 128.
Definition ascii_isupper (c : N) : bool := between 65 90 c.
Definition ascii_islower (c : N) : bool := between 97 122 c.
Definition ascii_isdigit (c : N) : bool := between 48 57 c.

(** [s.split(sep)] for a one-character separator: never returns the empty
    list, [''.split('\n') = ['']]. *)
Fixpoint split_on (sep : N) (s : str) : list str :=
  match s with
  | [] => [[]]
  | c :: s' =>
      if c =? sep then [] :: split_on sep s'
      else match split_on sep s' with
           | l :: ls => (c :: l) :: ls
           | [] => [[c]]
           end
  end.

(** [sep.join(parts)]. *)
Fixpoint join (sep : str) (parts : list str) : str :=
  match parts with
  | [] => []
  | x :: xs => match xs with
               | [] => x
               | _ :: _ => x ++ sep ++ join sep xs
               end
  end.

Fixpoint lstrip (s : str) : str :=
  match s with
  | [] => []
  | c :: s' => if isspace c then lstrip s' else s
  end.

Definition rstrip (s : str) : str := reverse (lstrip (reverse s)).

(** [s.strip()]. *)
Definition strip (s : str) : str := rstrip (lstrip s).

(** [s.split()]: the maximal runs of non-whitespace code points. *)
Fixpoint split_ws (s : str) : list str :=
  match s with
  | [] => []
  | c :: s' =>
      if isspace c then split_ws s'
      else match s' with
           | [] => [[c]]
           | d :: _ =>
               if isspace d then [c] :: split_ws s'
               else match split_ws s' with
                    | w :: ws => (c :: w) :: ws
                    | [] => [[c]]
                    end
           end
  end.

(** [s.replace(wrong, correct)] when both are one character long. *)
Definition replace_char (wrong correct : N) (s : str) : str :=
  (fun c => if c =? wrong then correct else c) <$> s.

Fixpoint starts_with (sub s : str) : bool :=
  match sub, s with
  | [], _ => true
  | _ :: _, [] => false
  | a :: sub', b :: s' => (a =? b) && starts_with sub' s'
  end.

(** [sub in s]. *)
Fixpoint contains (sub s : str) : bool :=
  starts_with sub s ||
  match s with
  | [] => false
  | _ :: s' => contains sub s'
  end.

(** Lexicographic order on code points: how SQLite's default BINARY
    collation orders TEXT (UTF-8 keeps the order of code points). *)
Fixpoint str_ltb (a b : str) : bool :=
  match a, b with
  | _, [] => false
  | [], _ :: _ => true
  | x :: a', y :: b' => (x <? y) || ((x =? y) && str_ltb a' b')
  end.

(** A word: a non-empty run without whitespace. *)
Definition is_word (w : str) : Prop :=
  w ≠ [] ∧ Forall (fun c => isspace c = false) w.

End PyStr.

Import PyStr.

(** An exception: its class and what [str(e)] gives. *)
Definition exception : Type := string * string.

(** A Python call either returns or raises. *)
Inductive outcome (A : Type) : Type :=
| Returns (a : A)
| Raises (exc : exception).
Arguments Returns {A} a.
Arguments Raises {A} exc.

(** [try: body  except Exception as e: handler]. *)
Definition try_except {A} (body : outcome A) (handler : exception -> A) : A :=
  match body with
  | Returns a => a
  | Raises e => handler e
  end.

(** ** The text cleaner of [src/Pytesseract.py] *)

Module OCRApp.

Section Cleaner.

(** [str.isalnum] above ASCII is a table of the Unicode database. *)
Variable uni_isalnum : N -> bool.

Definition isalnum (c : N) : bool :=
  if is_ascii c
  then ascii_isupper c || ascii_islower c || ascii_isdigit c
  else uni_isalnum c.

(** The dict of [fix_common_errors], in insertion order. *)
Definition common_fixes : list (N * N) :=
  [ (124, 73)     (* '|' -> 'I' *)
  ; (91, 73)      (* '[' -> 'I' *)
  ; (93, 73)      (* ']' -> 'I' *)
  ; (123, 40)     (* '{' -> '(' *)
  ; (125, 41) ].  (* '}' -> ')' *)

Definition fix_common_errors (text : str) : str :=
  foldl (fun text fx => replace_char fx.1 fx.2 text) text common_fixes.

(** [len(line) > 2 and any(c.isalnum() for c in line)]. *)
Definition is_valid (line : str) : bool :=
  (2 <? N.of_nat (length line)) && existsb isalnum line.

(** One turn of the loop of [post_process_text]. *)
Definition process_line (cleaned_lines : list str) (line : str) : list str :=
  let line := strip line in
  if bool_decide (line = []) then cleaned_lines            (* continue *)
  else
    let line := join [SPACE] (split_ws line) in
    let line := fix_common_errors line in
    if is_valid line then cleaned_lines ++ [line] else cleaned_lines.

(** The body of the [try]. *)
Definition post_process_body (text : str) : outcome str :=
  let lines := split_on LF text in
  let cleaned_lines := foldl process_line [] lines in
  let cleaned_text := join [LF] cleaned_lines in
  Returns cleaned_text.

Definition post_process_text (text : str) : str :=
  try_except (post_process_body text) (fun _ => text).

(** What [fix_common_errors] does to one code point. *)
Definition fix_char (c : N) : N :=
  foldl (fun c fx => if c =? fx.1 then fx.2 else c) c common_fixes.

(** What one line contributes to [cleaned_lines]. *)
Definition clean_line (line : str) : option str :=
  let line := strip line in
  if bool_decide (line = []) then None
  else
    let line := fix_common_errors (join [SPACE] (split_ws line)) in
    if is_valid line then Some line else None.

End Cleaner.

End OCRApp.

(** ** The part of Python's [re] that [parse_document_info] uses

    Literals, alternation, sequencing, one capturing group, and greedy
    repetition of a one-character class.  A backtracking matcher tries the
    alternatives of a pattern in a fixed order; [run] lists them in that
    order, so the match [re] reports is the head of the list. *)

Module Re.

Inductive regex : Type :=
| Lit (s : str)                          (* literal text *)
| Cls (cls : N -> bool)                  (* [...] or \d, once *)
| Rep (cls : N -> bool) (lo : nat) (hi : option nat)
                                         (* greedy cls{lo,hi}; * is {0,}, + is {1,} *)
| Alt (r1 r2 : regex)                    (* r1|r2 *)
| Seq (r1 r2 : regex)
| Group (r : regex).                     (* ( ... ), group 1 *)

(** The remainders greedy [cls{lo,hi}] can leave, longest run first. *)
Fixpoint rep_rests (cls : N -> bool) (lo : nat) (hi : option nat) (s : str)
  : list str :=
  let stop := match lo with O => [s] | S _ => [] end in
  match s with
  | [] => stop
  | c :: s' =>
      if cls c && negb (bool_decide (hi = Some O))
      then rep_rests cls (pred lo) (pred <$> hi) s' ++ stop
      else stop
  end.

(** All the ways [r] matches a prefix of [s], in the order a backtracking
    matcher finds them: group 1 (when it took part) and the remainder. *)
Fixpoint run (r : regex) (s : str) : list (option str * str) :=
  match r with
  | Lit l => if starts_with l s then [(None, drop (length l) s)] else []
  | Cls cls =>
      match s with
      | c :: s' => if cls c then [(None, s')] else []
      | [] => []
      end
  | Rep cls lo hi => (fun rest => (None, rest)) <$> rep_rests cls lo hi s
  | Alt r1 r2 => run r1 s ++ run r2 s
  | Seq r1 r2 =>
      '(g1, rest) ← run r1 s;
      '(g2, rest') ← run r2 rest;
      [(match g2 with Some _ => g2 | None => g1 end, rest')]
  | Group r1 =>
      '(_, rest) ← run r1 s;
      [(Some (take (length s - length rest) s), rest)]
  end.

(** [re.search(r, s)]: the first match at the leftmost position that has
    one; [None] when no position has. *)
Fixpoint search (r : regex) (s : str) : option (option str * str) :=
  match run r s with
  | m :: _ => Some m
  | [] => match s with
          | [] => None
          | _ :: s' => search r s'
          end
  end.

(** [m.group(1)] of [re.search(r, s)]. *)
Definition search_group1 (r : regex) (s : str) : option str :=
  m ← search r s; m.1.

End Re.

(** ** [DocumentManager] of [src/document_manager.py] *)

Module DocumentManager.

Import Re.

(** *** The field extractor *)

(** The dict that [parse_document_info] returns; [metadata] stays [{}]. *)
Record Info : Type := mkInfo {
  doc_type : str;
  doc_number : str;
  full_name : str;
  date_of_birth : str;
  expiry_date : str;
  issue_date : str;
  metadata : list (str * str)
}.

Section Extractor.

(** The tables of the Unicode database above ASCII: the full upper-,
    lower- and title-case mappings, whether a code point is cased, and
    whether it is a decimal digit (what [\d] matches in a [str] pattern). *)
Variable uni_upper : N -> str.
Variable uni_lower : N -> str.
Variable uni_title : N -> str.
Variable uni_iscased : N -> bool.
Variable uni_isdecimal : N -> bool.

Definition upper_char (c : N) : str :=
  if is_ascii c then [if ascii_islower c then c - 32 else c] else uni_upper c.

Definition lower_char (c : N) : str :=
  if is_ascii c then [if ascii_isupper c then c + 32 else c] else uni_lower c.

Definition title_char (c : N) : str :=
  if is_ascii c then [if ascii_islower c then c - 32 else c] else uni_title c.

Definition iscased (c : N) : bool :=
  if is_ascii c then ascii_isupper c || ascii_islower c else uni_iscased c.

(** [s.upper()]. *)
Definition upper (s : str) : str := s ≫= upper_char.

(** [s.title()]: a code point after a cased one is lower-cased, any other
    is title-cased. *)
Fixpoint title_from (previous_is_cased : bool) (s : str) : str :=
  match s with
  | [] => []
  | c :: s' =>
      (if previous_is_cased then lower_char c else title_char c)
      ++ title_from (iscased c) s'
  end.

Definition title (s : str) : str := title_from false s.

(** [\d]. *)
Definition digit (c : N) : bool :=
  if is_ascii c then ascii_isdigit c else uni_isdecimal c.

(** [[.:# ]]. *)
Definition label_sep (c : N) : bool :=
  (c =? 46) || (c =? 58) || (c =? 35) || (c =? 32).

(** [[A-Z0-9-]]. *)
Definition number_char (c : N) : bool :=
  ascii_isupper c || ascii_isdigit c || (c =? 45).

(** [[A-Z ]]. *)
Definition name_char (c : N) : bool := ascii_isupper c || (c =? 32).

(** [[-/]]. *)
Definition date_sep (c : N) : bool := (c =? 45) || (c =? 47).

(** [\d{1,2}[-/]\d{1,2}[-/]\d{2,4}]. *)
Definition date_shape : regex :=
  Seq (Rep digit 1 (Some 2%nat))
 (Seq (Cls date_sep)
 (Seq (Rep digit 1 (Some 2%nat))
 (Seq (Cls date_sep)
      (Rep digit 2 (Some 4%nat))))).

(** [(?:ID|DL|NO|NUMBER)[.:# ]*([A-Z0-9-]{6,})]. *)
Definition number_re : regex :=
  Seq (Alt (Lit (py "ID")) (Alt (Lit (py "DL"))
        (Alt (Lit (py "NO")) (Lit (py "NUMBER")))))
 (Seq (Rep label_sep 0 None)
      (Group (Rep number_char 6 None))).

(** [(?:NAME)[.:# ]*([A-Z ]+)]. *)
Definition name_re : regex :=
  Seq (Lit (py "NAME"))
 (Seq (Rep label_sep 0 None)
      (Group (Rep name_char 1 None))).

(** [(?:DOB|BIRTH)[.:# ]*(date)]. *)
Definition dob_re : regex :=
  Seq (Alt (Lit (py "DOB")) (Lit (py "BIRTH")))
 (Seq (Rep label_sep 0 None) (Group date_shape)).

(** [(?:EXP|EXPIRES)[.:# ]*(date)]. *)
Definition exp_re : regex :=
  Seq (Alt (Lit (py "EXP")) (Lit (py "EXPIRES")))
 (Seq (Rep label_sep 0 None) (Group date_shape)).

(** [(?:ISS|ISSUED)[.:# ]*(date)]. *)
Definition iss_re : regex :=
  Seq (Alt (Lit (py "ISS")) (Lit (py "ISSUED")))
 (Seq (Rep label_sep 0 None) (Group date_shape)).

Definition doc_types : list str :=
  [py "PASSPORT"; py "DRIVER LICENSE"; py "ID CARD"].

(** [if m: info[k] = f(m.group(1))], over the initial ['']. *)
Definition field_of (f : str -> str) (m : option str) : str :=
  match m with
  | Some g => f g
  | None => []
  end.

Definition parse_document_info (text : str) : Info :=
  let text_upper := upper text in
  {| doc_type :=
       (* for doc_type in doc_types: if doc_type in text_upper: ...; break *)
       field_of id (find (fun doc_type => contains doc_type text_upper) doc_types);
     doc_number := field_of id (search_group1 number_re text_upper);
     full_name := field_of title (search_group1 name_re text_upper);
     date_of_birth := field_of id (search_group1 dob_re text_upper);
     expiry_date := field_of id (search_group1 exp_re text_upper);
     issue_date := field_of id (search_group1 iss_re text_upper);
     metadata := [] |}.

End Extractor.

(** *** The SQLite database

    The model covers a database that [init_database] created: the file
    is removed at start-up and the two tables are created as written
    there.  Python integers and SQLite INTEGERs are [Z]; TEXT and
    TIMESTAMP values are the strings the code binds. *)

(** A row of [documents], without its key [id]. *)
Record DocumentRow : Type := mkDocumentRow {
  raw_text : str;
  date_added : str;
  last_modified : str;
  verification_status : str
}.

(** A row of [audit_log]. *)
Record AuditEntry : Type := mkAuditEntry {
  audit_id : Z;
  document_id : Z;
  action : str;
  timestamp : str;
  user : str;
  details : str
}.

(** [documents] by its INTEGER PRIMARY KEY; [audit_log] in insertion
    order; [audit_seq] is AUTOINCREMENT's largest id used so far. *)
Record DB : Type := mkDB {
  documents : gmap Z DocumentRow;
  audit_log : list AuditEntry;
  audit_seq : Z
}.

Definition empty_db : DB :=
  {| documents := ∅; audit_log := []; audit_seq := 0 |}.

Inductive sqlval : Type :=
| VInt (n : Z)
| VText (s : str).

(** The columns of [documents] in the CREATE TABLE of [init_database];
    any other name is "no such column". *)
Definition documents_column (name : string)
  : option (Z -> DocumentRow -> sqlval) :=
  if String.eqb name "id" then Some (fun k _ => VInt k)
  else if String.eqb name "raw_text" then Some (fun _ r => VText (raw_text r))
  else if String.eqb name "date_added" then Some (fun _ r => VText (date_added r))
  else if String.eqb name "last_modified"
       then Some (fun _ r => VText (last_modified r))
  else if String.eqb name "verification_status"
       then Some (fun _ r => VText (verification_status r))
  else None.

(** Preparing a statement resolves every column it names. *)
Fixpoint resolve (names : list string)
  : outcome (list (Z -> DocumentRow -> sqlval)) :=
  match names with
  | [] => Returns []
  | name :: names' =>
      match documents_column name with
      | None => Raises ("OperationalError", "no such column: " +:+ name)
      | Some col =>
          match resolve names' with
          | Returns cols => Returns (col :: cols)
          | Raises e => Raises e
          end
      end
  end.

(** Stable insertion sort: ORDER BY. *)
Fixpoint insert_by {A} (before : A -> A -> bool) (x : A) (l : list A) : list A :=
  match l with
  | [] => [x]
  | y :: l' => if before y x then y :: insert_by before x l' else x :: l
  end.

Definition sort_by {A} (before : A -> A -> bool) (l : list A) : list A :=
  foldr (insert_by before) [] (reverse l).

(** [SELECT COALESCE(MAX(id), 0) FROM documents]. *)
Definition max_id (docs : gmap Z DocumentRow) : option Z :=
  foldr (fun k acc => Some (match acc with
                            | Some m => Z.max k m
                            | None => k
                            end))
        None (map_to_list docs).*1.

Definition select_max_id (db : DB) : outcome (Z * DB) :=
  Returns (default 0%Z (max_id (documents db)), db).

(** [INSERT INTO documents (id, raw_text, ...) VALUES (?, ?, ?, ?, ?)].
    Ids are unbounded here and every text can be stored; [sqlite3]
    raises [OverflowError] for an id above 2^63 - 1 and
    [UnicodeEncodeError] for a text with a lone surrogate.  Such an
    INSERT is a failing call: a [true] in [faults]. *)
Definition insert_document (k : Z) (row : DocumentRow) (db : DB)
  : outcome (unit * DB) :=
  match documents db !! k with
  | Some _ =>
      Raises ("IntegrityError", "UNIQUE constraint failed: documents.id")
  | None =>
      Returns (tt, {| documents := <[k := row]> (documents db);
                      audit_log := audit_log db;
                      audit_seq := audit_seq db |})
  end.

(** [UPDATE documents SET raw_text = ?, last_modified = ? WHERE id = ?]. *)
Definition update_document (new_text now : str) (k : Z) (db : DB)
  : outcome (unit * DB) :=
  Returns (tt, {| documents :=
                    alter (fun r => {| raw_text := new_text;
                                       date_added := date_added r;
                                       last_modified := now;
                                       verification_status :=
                                         verification_status r |})
                          k (documents db);
                  audit_log := audit_log db;
                  audit_seq := audit_seq db |}).

(** [DELETE FROM documents WHERE id = ?].  Foreign keys are not enforced
    (no [PRAGMA foreign_keys]), so audit rows do not hinder it. *)
Definition delete_document (k : Z) (db : DB) : outcome (unit * DB) :=
  Returns (tt, {| documents := delete k (documents db);
                  audit_log := audit_log db;
                  audit_seq := audit_seq db |}).

(** [INSERT INTO audit_log (document_id, action, timestamp, user,
    details) VALUES (?, ?, ?, ?, ?)]. *)
Definition insert_audit (doc_id : Z) (act ts usr det : str) (db : DB)
  : outcome (unit * DB) :=
  let k := (audit_seq db + 1)%Z in
  Returns (tt, {| documents := documents db;
                  audit_log := audit_log db ++
                    [{| audit_id := k; document_id := doc_id; action := act;
                        timestamp := ts; user := usr; details := det |}];
                  audit_seq := k |}).

(** [SELECT raw_text FROM documents WHERE id = ?], [fetchone()]. *)
Definition select_raw_text (k : Z) (db : DB) : outcome (option str * DB) :=
  Returns (raw_text <$> documents db !! k, db).

(** [SELECT id, raw_text, date_added, last_modified, verification_status
    FROM documents WHERE id = ?], [fetchone()]. *)
Definition select_document (k : Z) (db : DB)
  : outcome (option (Z * DocumentRow) * DB) :=
  Returns ((fun r => (k, r)) <$> documents db !! k, db).

(** [SELECT id, date_added, last_modified, verification_status FROM
    documents ORDER BY id ASC]. *)
Definition documents_rows (db : DB) : list (Z * str * str * str) :=
  (fun kr : Z * DocumentRow =>
     (kr.1, date_added kr.2, last_modified kr.2, verification_status kr.2))
  <$> sort_by (fun a b => (a.1 <=? b.1)%Z) (map_to_list (documents db)).

Definition select_documents (db : DB)
  : outcome (list (Z * str * str * str) * DB) :=
  Returns (documents_rows db, db).

(** [SELECT timestamp, document_id, action, user, details FROM audit_log
    ORDER BY timestamp DESC]. *)
Definition audit_rows (db : DB) : list (str * Z * str * str * str) :=
  (fun e => (timestamp e, document_id e, action e, user e, details e))
  <$> sort_by (fun a b => negb (str_ltb (timestamp a) (timestamp b)))
              (audit_log db).

Definition select_audit_log (db : DB)
  : outcome (list (str * Z * str * str * str) * DB) :=
  Returns (audit_rows db, db).

(** SQLite's LIKE: [%] is any run, [_] any one code point, ASCII letters
    match without regard to case. *)
Definition like_fold (c : N) : N := if ascii_islower c then c - 32 else c.

Fixpoint like (pattern : str) : str -> bool :=
  match pattern with
  | [] => fun s => bool_decide (s = [])
  | p :: pattern' =>
      if p =? 37 then
        fix any_run (s : str) : bool :=
          like pattern' s ||
          match s with
          | [] => false
          | _ :: s' => any_run s'
          end
      else fun s =>
        match s with
        | [] => false
        | c :: s' =>
            ((p =? 95) || (like_fold p =? like_fold c)) && like pattern' s'
        end
  end.

(** The text of a value, as LIKE sees it. *)
Definition sql_text (v : sqlval) : str :=
  match v with
  | VText s => s
  | VInt n => py (pretty n)
  end.

Definition sql_like (pattern : str) (v : sqlval) : bool :=
  like pattern (sql_text v).

(** The order of ORDER BY: integers come before text. *)
Definition sql_ltb (a b : sqlval) : bool :=
  match a, b with
  | VInt x, VInt y => (x <? y)%Z
  | VInt _, VText _ => true
  | VText _, VInt _ => false
  | VText x, VText y => str_ltb x y
  end.

(** [SELECT id, doc_type, doc_number, full_name FROM documents WHERE
    doc_number LIKE ? OR full_name LIKE ? ORDER BY date_added DESC]. *)
Definition select_search (p1 p2 : str) (db : DB)
  : outcome (list (list sqlval) * DB) :=
  match resolve ["id"; "doc_type"; "doc_number"; "full_name"],
        resolve ["doc_number"; "full_name"],
        resolve ["date_added"] with
  | Returns cols, Returns [c_number; c_name], Returns [c_added] =>
      let hit (kr : Z * DocumentRow) :=
        sql_like p1 (c_number kr.1 kr.2) || sql_like p2 (c_name kr.1 kr.2) in
      let later (a b : Z * DocumentRow) :=
        negb (sql_ltb (c_added a.1 a.2) (c_added b.1 b.2)) in
      Returns ((fun kr : Z * DocumentRow => (fun col => col kr.1 kr.2) <$> cols)
               <$> sort_by later (filter (fun kr => hit kr = true)
                                         (map_to_list (documents db))),
               db)
  | Raises e, _, _ => Raises e
  | _, Raises e, _ => Raises e
  | _, _, Raises e => Raises e
  | _, _, _ => Raises ("OperationalError", "")
  end.

(** *** The application object

    [self] and what surrounds it: the connection (the database as the
    cursor sees it, and as the last commit left it on disk), the three
    tree views, the message boxes shown and the lines printed so far, the
    number of clock readings taken, and, for each coming call into
    [sqlite3], whether it raises. *)

Inductive box : Type := ShowInfo | ShowWarning | ShowError.

Record State : Type := mkState {
  live : DB;
  durable : DB;
  documents_tree : list (Z * str * str * str);
  audit_tree : list (str * Z * str * str * str);
  search_tree : list (list sqlval * string);
  dialogs : list (box * string * string);
  printed : list string;
  ticks : nat;
  faults : list bool
}.

Definition set_live (db : DB) (st : State) : State :=
  mkState db (durable st) (documents_tree st) (audit_tree st) (search_tree st)
          (dialogs st) (printed st) (ticks st) (faults st).
Definition set_durable (db : DB) (st : State) : State :=
  mkState (live st) db (documents_tree st) (audit_tree st) (search_tree st)
          (dialogs st) (printed st) (ticks st) (faults st).
Definition set_documents_tree (t : list (Z * str * str * str)) (st : State) : State :=
  mkState (live st) (durable st) t (audit_tree st) (search_tree st)
          (dialogs st) (printed st) (ticks st) (faults st).
Definition set_audit_tree (t : list (str * Z * str * str * str)) (st : State) : State :=
  mkState (live st) (durable st) (documents_tree st) t (search_tree st)
          (dialogs st) (printed st) (ticks st) (faults st).
Definition set_search_tree (t : list (list sqlval * string)) (st : State) : State :=
  mkState (live st) (durable st) (documents_tree st) (audit_tree st) t
          (dialogs st) (printed st) (ticks st) (faults st).
Definition set_dialogs (d : list (box * string * string)) (st : State) : State :=
  mkState (live st) (durable st) (documents_tree st) (audit_tree st)
          (search_tree st) d (printed st) (ticks st) (faults st).
Definition set_printed (p : list string) (st : State) : State :=
  mkState (live st) (durable st) (documents_tree st) (audit_tree st)
          (search_tree st) (dialogs st) p (ticks st) (faults st).
Definition set_ticks (n : nat) (st : State) : State :=
  mkState (live st) (durable st) (documents_tree st) (audit_tree st)
          (search_tree st) (dialogs st) (printed st) n (faults st).
Definition set_faults (f : list bool) (st : State) : State :=
  mkState (live st) (durable st) (documents_tree st) (audit_tree st)
          (search_tree st) (dialogs st) (printed st) (ticks st) f.

(** A method: it changes the state and returns or raises. *)
Definition M (A : Type) : Type := State -> outcome A * State.

Definition ret {A} (a : A) : M A := fun st => (Returns a, st).

Definition bind {A B} (m : M A) (k : A -> M B) : M B :=
  fun st =>
    match m st with
    | (Returns a, st') => k a st'
    | (Raises e, st') => (Raises e, st')
    end.

Declare Scope method_scope.
Delimit Scope method_scope with method.
Bind Scope method_scope with M.
Notation "x <- m ;; k" := (bind m (fun x => k))
  (at level 100, m at next level, right associativity) : method_scope.
Notation "m ;;; k" := (bind m (fun _ => k))
  (at level 100, right associativity) : method_scope.
Local Open Scope method_scope.

(** [try: body  except Exception as e: handler(str(e))]. *)
Definition try_m {A} (body : M A) (handler : exception -> M A) : M A :=
  fun st =>
    match body st with
    | (Returns a, st') => (Returns a, st')
    | (Raises e, st') => handler e st'
    end.

(** [for x in xs: body(x)]. *)
Fixpoint for_each {A} (xs : list A) (body : A -> M unit) : M unit :=
  match xs with
  | [] => ret tt
  | x :: xs' => body x ;;; for_each xs' body
  end.

(** A call into [sqlite3] consumes one entry of [faults]; on [true] it
    raises [sqlite3.OperationalError] and the database is as before: the
    open transaction stays, as it does when the file is locked.  SQLite
    rolls the open transaction back when a call fails on a full disk or
    an I/O error; that is outside the model.  What is proved below of
    failing calls is stated of what a rollback leaves alone (committed
    data, return values, boxes and trees) or of states in which nothing
    waits for a commit. *)
Definition sqlite3_call {A} (call : State -> outcome A * State) : M A :=
  fun st =>
    match faults st with
    | true :: rest =>
        (Raises ("OperationalError", "disk I/O error"), set_faults rest st)
    | _ => call (set_faults (tail (faults st)) st)
    end.

(** [self.cursor.execute(stmt, args)], with the rows fetched. *)
Definition execute {A} (stmt : DB -> outcome (A * DB)) : M A :=
  sqlite3_call (fun st =>
    match stmt (live st) with
    | Returns (a, db) => (Returns a, set_live db st)
    | Raises e => (Raises e, st)
    end).

(** [self.conn.commit()].  It is a call like any other here; [sqlite3]
    sends nothing when no transaction is open, so a scenario below lets
    a commit fail only where a change waits for it. *)
Definition commit : M unit :=
  sqlite3_call (fun st => (Returns tt, set_durable (live st) st)).

Definition messagebox (kind : box) (title message : string) : M unit :=
  fun st => (Returns tt, set_dialogs (dialogs st ++ [(kind, title, message)]) st).

Definition print (line : string) : M unit :=
  fun st => (Returns tt, set_printed (printed st ++ [line]) st).

(** [init_database] on a file that was removed: both tables empty,
    committed. *)
Definition init_database : State :=
  mkState empty_db empty_db [] [] [] [] [] 0 [].

(** The operations of the store, as the window offers them. *)

Inductive op : Type :=
| Create (raw : str)
| Update (doc_id : Z) (new_text : str)
| Delete (doc_id : Z).

Section Store.

(** What the successive calls of [datetime.now().isoformat()] return. *)
Variable clock : nat -> str.

Definition datetime_now : M str :=
  fun st => (Returns (clock (ticks st)), set_ticks (S (ticks st)) st).

Definition load_audit_log : M unit :=
  (fun st => (Returns tt, set_audit_tree [] st)) ;;;
  rows <- execute select_audit_log ;;
  fun st => (Returns tt, set_audit_tree (audit_tree st ++ rows) st).

Definition load_documents : M unit :=
  (fun st => (Returns tt, set_documents_tree [] st)) ;;;
  try_m
    (rows <- execute select_documents ;;
     fun st => (Returns tt, set_documents_tree (documents_tree st ++ rows) st))
    (fun e => messagebox ShowError "Error" ("Failed to load documents: " +:+ e.2)).

Definition log_action (doc_id : Z) (act det : str) : M unit :=
  try_m
    (now <- datetime_now ;;
     execute (insert_audit doc_id act now (py "SYSTEM") det) ;;;
     commit ;;;
     load_audit_log)
    (fun e => print ("Failed to log action: " +:+ e.2)).

Definition save_document (raw : str) : M bool :=
  try_m
    (m <- execute select_max_id ;;
     let next_id := (m + 1)%Z in
     now <- datetime_now ;;
     execute (insert_document next_id
                {| raw_text := raw; date_added := now; last_modified := now;
                   verification_status := py "PENDING" |}) ;;;
     let doc_id := next_id in
     commit ;;;
     log_action doc_id (py "ADD")
       (py ("Document " +:+ pretty doc_id +:+ " added to system")) ;;;
     messagebox ShowInfo "Success"
       ("Document saved successfully as ID: " +:+ pretty doc_id) ;;;
     load_documents ;;;
     ret true)
    (fun e =>
       messagebox ShowError "Error" ("Failed to add document: " +:+ e.2) ;;;
       ret false).

(** [selection]: the ids in the selected rows of the documents tree;
    [confirmed]: the answer to "Are you sure ...?". *)
Definition delete_selected_document (selection : list Z) (confirmed : bool)
  : M unit :=
  if bool_decide (selection = []) then
    messagebox ShowWarning "Warning" "Please select a document to delete"
  else if negb confirmed then ret tt
  else
    try_m
      (for_each selection (fun doc_id =>
         execute (delete_document doc_id) ;;;
         log_action doc_id (py "DELETE")
           (py ("Document " +:+ pretty doc_id +:+ " deleted from system"))) ;;;
       commit ;;;
       load_documents ;;;
       messagebox ShowInfo "Success" "Document(s) deleted successfully")
      (fun e =>
         messagebox ShowError "Error" ("Failed to delete document: " +:+ e.2)).

(** The edit dialog that [edit_selected_document] opens: the id it is
    for and the text in its text area. *)
Record EditDialog : Type := mkEditDialog {
  dialog_doc_id : Z;
  text_area : str
}.

Definition edit_selected_document (selection : list Z) : M (option EditDialog) :=
  match selection with
  | [] =>
      messagebox ShowWarning "Warning" "Please select a document to edit" ;;;
      ret None
  | doc_id :: _ =>
      doc <- execute (select_raw_text doc_id) ;;
      match doc with
      | None => messagebox ShowError "Error" "Document not found" ;;; ret None
      | Some raw => ret (Some {| dialog_doc_id := doc_id; text_area := raw |})
      end
  end.

(** [text_area.get("1.0", tk.END)]: Tk appends a newline to the text. *)
Definition text_area_get (dialog : EditDialog) : str := text_area dialog ++ [LF].

(** The Save button of the dialog. *)
Definition save_changes (dialog : EditDialog) : M unit :=
  let doc_id := dialog_doc_id dialog in
  try_m
    (let new_text := strip (text_area_get dialog) in
     now <- datetime_now ;;
     execute (update_document new_text now doc_id) ;;;
     log_action doc_id (py "EDIT")
       (py ("Document " +:+ pretty doc_id +:+ " edited")) ;;;
     commit ;;;
     load_documents ;;;
     messagebox ShowInfo "Success" "Document updated successfully")
    (fun e =>
       messagebox ShowError "Error" ("Failed to update document: " +:+ e.2)).

(** What the details dialog shows: the row fetched and the text of the
    raw-text tab. *)
Record DetailsDialog : Type := mkDetailsDialog {
  doc : Z * DocumentRow;
  raw_tab : str
}.

Definition show_document_details (doc_id : Z) : M (option DetailsDialog) :=
  doc <- execute (select_document doc_id) ;;
  match doc with
  | None => ret None
  | Some d =>
      ret (Some {| doc := d;
                   raw_tab := if bool_decide (raw_text d.2 = [])
                              then py "No raw text available"
                              else raw_text d.2 |})
  end.

(** [search_var]: the text of the search entry. *)
Definition on_search_change (search_var : str) : M unit :=
  let search_term := strip search_var in
  (fun st => (Returns tt, set_search_tree [] st)) ;;;
  if bool_decide (search_term = []) then ret tt
  else
    let pattern := py "%" ++ search_term ++ py "%" in
    rows <- execute (select_search pattern pattern) ;;
    for_each rows (fun result =>
      match result !! 2%nat with
      | Some (VText number) =>
          let match_type := if contains search_term number
                            then "Number" else "Name" in
          fun st => (Returns tt,
                     set_search_tree (search_tree st ++ [(result, match_type)]) st)
      | _ =>
          fun st =>
            (Raises ("TypeError", "argument of type 'int' is not iterable"), st)
      end).

(** Update: select the row, open the dialog, replace the text, Save. *)
Definition perform (o : op) : M unit :=
  match o with
  | Create raw => save_document raw ;;; ret tt
  | Update k new_text =>
      dialog <- edit_selected_document [k] ;;
      match dialog with
      | Some d =>
          save_changes
            {| dialog_doc_id := dialog_doc_id d; text_area := new_text |}
      | None => ret tt
      end
  | Delete k => delete_selected_document [k] true
  end.

Fixpoint run_ops (ops : list op) (st : State) : State :=
  match ops with
  | [] => st
  | o :: ops' => run_ops ops' (perform o st).2
  end.

End Store.

(** *** The store's operations and what they report *)

(** The id that [save_document] computes. *)
Definition next_id (db : DB) : Z := (default 0 (max_id (documents db)) + 1)%Z.

(** The row that [save_document] inserts. *)
Definition new_row (raw now : str) : DocumentRow :=
  {| raw_text := raw; date_added := now; last_modified := now;
     verification_status := py "PENDING" |}.

Definition success_saved (k : Z) : box * string * string :=
  (ShowInfo, "Success", "Document saved successfully as ID: " +:+ pretty k).

Definition success_updated : box * string * string :=
  (ShowInfo, "Success", "Document updated successfully").

Definition success_deleted : box * string * string :=
  (ShowInfo, "Success", "Document(s) deleted successfully").

Definition not_found : box * string * string :=
  (ShowError, "Error", "Document not found").

(** The details of the three kinds of audit entry. *)
Definition ADD_details (k : Z) : str :=
  py ("Document " +:+ pretty k +:+ " added to system").
Definition EDIT_details (k : Z) : str :=
  py ("Document " +:+ pretty k +:+ " edited").
Definition DELETE_details (k : Z) : str :=
  py ("Document " +:+ pretty k +:+ " deleted from system").

(** The database with one more audit row. *)
Definition logged (k : Z) (act ts det : str) (db : DB) : DB :=
  {| documents := documents db;
     audit_log := audit_log db ++
       [{| audit_id := (audit_seq db + 1)%Z; document_id := k; action := act;
           timestamp := ts; user := py "SYSTEM"; details := det |}];
     audit_seq := (audit_seq db + 1)%Z |}.

Definition with_documents (docs : gmap Z DocumentRow) (db : DB) : DB :=
  {| documents := docs; audit_log := audit_log db; audit_seq := audit_seq db |}.

(** The database after a create, a delete and an update. *)
Definition saved_db (clock : nat -> str) (raw : str) (st : State) : DB :=
  logged (next_id (live st)) (py "ADD") (clock (S (ticks st)))
         (ADD_details (next_id (live st)))
         (with_documents
            (<[next_id (live st) := new_row raw (clock (ticks st))]>
               (documents (live st)))
            (live st)).

Definition deleted_db (clock : nat -> str) (k : Z) (st : State) : DB :=
  logged k (py "DELETE") (clock (ticks st)) (DELETE_details k)
         (with_documents (delete k (documents (live st))) (live st)).

(** The row after the UPDATE of [save_changes]. *)
Definition edited_row (new_text now : str) (r : DocumentRow) : DocumentRow :=
  {| raw_text := new_text; date_added := date_added r; last_modified := now;
     verification_status := verification_status r |}.

Definition edited_db (clock : nat -> str) (dialog : EditDialog) (st : State)
  : DB :=
  logged (dialog_doc_id dialog) (py "EDIT") (clock (S (ticks st)))
         (EDIT_details (dialog_doc_id dialog))
         (with_documents
            (alter (edited_row (strip (text_area_get dialog)) (clock (ticks st)))
                   (dialog_doc_id dialog) (documents (live st)))
            (live st)).

(** What the details dialog shows for a row. *)
Definition details_of (k : Z) (row : DocumentRow) : DetailsDialog :=
  {| doc := (k, row);
     raw_tab := if bool_decide (raw_text row = [])
                then py "No raw text available" else raw_text row |}.

(** The "Success" boxes shown: the calls that reported success. *)
Definition is_success (d : box * string * string) : bool :=
  match d with
  | (ShowInfo, title, _) => String.eqb title "Success"
  | _ => false
  end.

Definition successes (st : State) : nat :=
  length (List.filter is_success (dialogs st)).

Definition audit_count (st : State) : nat := length (audit_log (live st)).

(** A clock that advances by one second per reading. *)
Definition sample_clock (n : nat) : str :=
  py "2024-05-01T10:00:0" ++ [(48 + N.of_nat n)%N].

(** The local time around the end of daylight saving: two readings just
    before 03:00, the later ones after the clock was set back to 02:00. *)
Definition fallback_clock (n : nat) : str :=
  match n with
  | O => py "2024-10-27T02:59:58"
  | S O => py "2024-10-27T02:59:59"
  | _ => py "2024-10-27T02:00:07"
  end.

Definition sample_ops : list op :=
  [Create (py "hello"); Update 1 (py "hello world"); Create []; Delete 1;
   Update 1 (py "gone"); Delete 2].

(** The store after one document was saved. *)
Definition one_document (clock : nat → str) (raw : str) : State :=
  (save_document clock raw init_database).2.

(** *** The example of the spec for the extractor *)

(** The text of the spec's example and the same text in lower case. *)
Definition example_text : str :=
  py "NAME: JOHN SMITH" ++ [LF] ++ py "DOB 01-02-1990".

Definition example_text_lower : str :=
  py "name: john smith" ++ [LF] ++ py "dob 01-02-1990".

(** The labels and document types the patterns look for. *)
Definition labels : list str :=
  [py "ID"; py "DL"; py "NO"; py "NUMBER"; py "NAME"; py "DOB"; py "BIRTH";
   py "EXP"; py "EXPIRES"; py "ISS"; py "ISSUED"] ++ doc_types.

Definition empty_info : Info :=
  {| doc_type := []; doc_number := []; full_name := [];
     date_of_birth := []; expiry_date := []; issue_date := [];
     metadata := [] |}.

End DocumentManager.

(** ** The rest of the two windows *)

(** [a] and then [k], for calls that return or raise. *)
Definition and_then {A B} (o : outcome A) (k : A -> outcome B) : outcome B :=
  match o with
  | Returns a => k a
  | Raises e => Raises e
  end.

(** *** What the cleaner leaves *)

Module CleanedText.

(** The five characters [fix_common_errors] replaces. *)
Definition misread : list N := [124; 91; 93; 123; 125].

(** What [fix_common_errors] has at the place of a code point. *)
Definition corrected (c : N) : N :=
  if bool_decide (c ∈ [124; 91; 93]) then 73
  else if c =? 123 then 40
  else if c =? 125 then 41
  else c.

(** A line as the cleaner keeps it: not empty, no whitespace at either
    end, words separated by one space, none of the misread characters. *)
Definition tidy (l : str) : Prop :=
  l ≠ [] ∧ strip l = l ∧ join [SPACE] (split_ws l) = l
  ∧ Forall (fun c => c = SPACE ∨ isspace c = false) l
  ∧ Forall (fun c => c ∉ misread) l.

End CleanedText.

(** *** A file dropped on the window: [handle_drop] of both files *)

Module DropTarget.

(** [s.lstrip(chars)], [s.rstrip(chars)], [s.strip(chars)]. *)
Fixpoint lstrip_chars (chars s : str) : str :=
  match s with
  | [] => []
  | c :: s' => if bool_decide (c ∈ chars) then lstrip_chars chars s' else s
  end.

Definition rstrip_chars (chars s : str) : str :=
  reverse (lstrip_chars chars (reverse s)).

Definition strip_chars (chars s : str) : str :=
  rstrip_chars chars (lstrip_chars chars s).

(** [file_path] of [handle_drop], the path it hands to [process_image]:
    [event.data] stripped of braces, and then of double quotes (code
    point 34), at both ends. *)
Definition file_path (event_data : str) : str :=
  strip_chars [34] (strip_chars [123; 125] event_data).

(** A brace or a double quote. *)
Definition wrapping (c : N) : bool := (c =? 123) || (c =? 125) || (c =? 34).

(** A path that neither begins nor ends with a brace or a double quote. *)
Definition bare (path : str) : Prop :=
  (∃ c, head path = Some c ∧ wrapping c = false)
  ∧ (∃ c, last path = Some c ∧ wrapping c = false).

End DropTarget.

(** *** The window of [src/Pytesseract.py]

    [self]: the text area [result_text], the lines printed and the error
    boxes shown.  OpenCV and Tesseract are outside the program: what
    their calls return or raise is a parameter.  Calls into Tk do not
    raise. *)

Module OCRWindow.

Import OCRApp DropTarget.

Record Window : Type := mkWindow {
  result_text : str;
  printed : list string;
  errors : list (string * string)
}.

Definition W (A : Type) : Type := Window -> outcome A * Window.

Definition ret {A} (a : A) : W A := fun w => (Returns a, w).

Definition raise {A} (e : exception) : W A := fun w => (Raises e, w).

Definition bind {A B} (m : W A) (k : A -> W B) : W B :=
  fun w =>
    match m w with
    | (Returns a, w') => k a w'
    | (Raises e, w') => (Raises e, w')
    end.

Declare Scope window_scope.
Delimit Scope window_scope with window.
Bind Scope window_scope with W.
Notation "x <- m ;; k" := (bind m (fun x => k))
  (at level 100, m at next level, right associativity) : window_scope.
Notation "m ;;; k" := (bind m (fun _ => k))
  (at level 100, right associativity) : window_scope.
Local Open Scope window_scope.

(** [try: body  except Exception as e: handler]. *)
Definition try_w {A} (body : W A) (handler : exception -> W A) : W A :=
  fun w =>
    match body w with
    | (Returns a, w') => (Returns a, w')
    | (Raises e, w') => handler e w'
    end.

(** An outside call: it does not touch the window. *)
Definition call {A} (o : outcome A) : W A := fun w => (o, w).

(** [self.result_text.delete(1.0, tk.END)]. *)
Definition result_text_delete : W unit :=
  fun w => (Returns tt, mkWindow [] (printed w) (errors w)).

(** [self.result_text.insert(tk.END, s)]. *)
Definition result_text_insert (s : str) : W unit :=
  fun w => (Returns tt, mkWindow (result_text w ++ s) (printed w) (errors w)).

Definition print (line : string) : W unit :=
  fun w => (Returns tt, mkWindow (result_text w) (printed w ++ [line]) (errors w)).

(** [messagebox.showerror(title, message)]. *)
Definition showerror (title message : string) : W unit :=
  fun w =>
    (Returns tt,
     mkWindow (result_text w) (printed w) (errors w ++ [(title, message)])).

(** The two texts of the result area. *)
Definition Extracted_Text (text : str) : str :=
  py "Extracted Text:" ++ [LF] ++ text.

Definition No_text : str := py "No text was detected in the image.".

(** [None.strip()]. *)
Definition NoneType_strip : exception :=
  ("AttributeError", "'NoneType' object has no attribute 'strip'").

Section Recognition.

Variable uni_isalnum : N -> bool.

(** An image of OpenCV and a Python float. *)
Variables image float : Type.

(** [a / b] on integers. *)
Variable truediv : N -> N -> float.

(** [cv2.imread]: [None] for a file it cannot read. *)
Variable imread : str -> option image.

(** [image.shape[:2]]: height and width. *)
Variable shape : image -> N * N.

(** [cv2.resize(image, None, fx=scale, fy=scale)]. *)
Variable resize : image -> float -> outcome image.

(** [cv2.cvtColor(_, cv2.COLOR_BGR2GRAY)],
    [cv2.bilateralFilter(_, 9, 75, 75)],
    [cv2.createCLAHE(clipLimit=2.0, tileGridSize=(8,8)).apply(_)] and
    [cv2.adaptiveThreshold(_, 255, ..., 21, 10)]. *)
Variable cvtColor : image -> outcome image.
Variable bilateralFilter : image -> outcome image.
Variable clahe_apply : image -> outcome image.
Variable adaptiveThreshold : image -> outcome image.

(** [pytesseract.image_to_string(_, config=custom_config, lang='eng')]. *)
Variable image_to_string : image -> outcome str.

(** The body of the [try] of [preprocess_image]. *)
Definition preprocess_body (image_path : str) : outcome image :=
  match imread image_path with
  | None => Raises ("Exception", "Failed to load image")
  | Some image =>
      let max_dimension := 1800 in
      let '(height, width) := shape image in
      and_then
        (if max_dimension <? N.max height width
         then let scale := truediv max_dimension (N.max height width) in
              resize image scale
         else Returns image)
        (fun image =>
           and_then (cvtColor image) (fun gray =>
           and_then (bilateralFilter gray) (fun denoised =>
           and_then (clahe_apply denoised) (fun contrast_enhanced =>
           adaptiveThreshold contrast_enhanced))))
  end.

(** [except Exception as e: print(...); raise]. *)
Definition preprocess_image (image_path : str) : W image :=
  try_w (call (preprocess_body image_path))
        (fun e => print ("Error in preprocessing: " +:+ e.2) ;;; raise e).

(** The handler of [extract_text] and of [process_image]. *)
Definition report (e : exception) : W unit :=
  let error_message := "An error occurred: " +:+ e.2 in
  print error_message ;;;
  showerror "Error" error_message ;;;
  result_text_delete ;;;
  result_text_insert (py error_message).

(** [if text.strip(): insert("Extracted Text:\n" + text)  else: ...]. *)
Definition display (text : str) : W unit :=
  if bool_decide (strip text = []) then result_text_insert No_text
  else result_text_insert (Extracted_Text text).

(** [extract_text]: the cleaned text, or Python's [None] when the handler
    ran, which ends without a [return]. *)
Definition extract_text (image_path : str) : W (option str) :=
  try_w
    (result_text_delete ;;;
     result_text_insert (py "Processing image..." ++ [LF]) ;;;
     processed_image <- preprocess_image image_path ;;
     text <- call (image_to_string processed_image) ;;
     let cleaned_text := post_process_text uni_isalnum text in
     result_text_delete ;;;
     display cleaned_text ;;;
     ret (Some cleaned_text))
    (fun e => report e ;;; ret None).

Definition process_image (image_path : str) : W unit :=
  try_w
    (result_text_delete ;;;
     result_text_insert (py "Processing image..." ++ [LF]) ;;;
     extracted_text <- extract_text image_path ;;
     result_text_delete ;;;
     match extracted_text with
     | Some text => display text
     | None => raise NoneType_strip
     end)
    report.

Definition handle_drop (event_data : str) : W unit :=
  process_image (file_path event_data).

(** [file_path]: what the file dialog returned, [''] when it was
    cancelled. *)
Definition browse_files (askopenfilename : str) : W unit :=
  if bool_decide (askopenfilename = []) then ret tt
  else process_image askopenfilename.

(** What OpenCV and Tesseract make of a file. *)
Definition recognise (image_path : str) : outcome str :=
  and_then (preprocess_body image_path) image_to_string.

(** The lines on the console and the boxes after a failed recognition. *)
Definition failure_printed (image_path : str) (e : exception) : list string :=
  match preprocess_body image_path with
  | Raises _ => ["Error in preprocessing: " +:+ e.2]
  | Returns _ => []
  end
  ++ ["An error occurred: " +:+ e.2;
      "An error occurred: " +:+ NoneType_strip.2].

Definition failure_errors (e : exception) : list (string * string) :=
  [("Error", "An error occurred: " +:+ e.2);
   ("Error", "An error occurred: " +:+ NoneType_strip.2)].

End Recognition.

(** A file that cannot be read, and a scanner that reads one line. *)
Definition unreadable : str -> option unit := fun _ => None.
Definition readable : str -> option unit := fun _ => Some tt.
Definition same_size : unit -> N * N := fun _ => (600, 800).
Definition unchanged : unit -> outcome unit := Returns.
Definition reads (text : str) : unit -> outcome str := fun _ => Returns text.

End OCRWindow.

(** *** The scan tab and the tree of [src/document_manager.py] *)

Module ScanTab.

Import DropTarget DocumentManager.

Local Open Scope method_scope.

(** [View] of the context menu. *)
Definition view_selected_document (selection : list Z)
  : M (option DetailsDialog) :=
  match selection with
  | [] =>
      messagebox ShowWarning "Warning" "Please select a document to view" ;;;
      ret None
  | doc_id :: _ => show_document_details doc_id
  end.

(** A double click on the tree: [self.documents_tree.selection()[0]]. *)
Definition on_document_double_click (selection : list Z)
  : M (option DetailsDialog) :=
  match selection with
  | [] => fun st => (Raises ("IndexError", "tuple index out of range"), st)
  | doc_id :: _ => show_document_details doc_id
  end.

(** The scan tab: the application, the text of the result area, and for
    every "Save Document" button packed so far the text its command
    saves. *)
Record Scan : Type := mkScan {
  app : State;
  result_text : str;
  save_buttons : list str
}.

Definition with_result_text (text : str) (s : Scan) : Scan :=
  mkScan (app s) text (save_buttons s).

Section Scanning.

Variable clock : nat -> str.

(** DocTR: [DocumentFile.from_images], [self.model] and
    [result.render]. *)
Variables document result : Type.
Variable from_images : str -> outcome document.
Variable model : document -> outcome result.
Variable render : result -> outcome str.

Definition doctr (image_path : str) : outcome str :=
  and_then (from_images image_path) (fun doc =>
  and_then (model doc) (fun result => render result)).

Definition process_image (image_path : str) (s : Scan) : outcome unit * Scan :=
  let s := with_result_text [] s in
  let s := with_result_text
             (result_text s ++ py "Processing image..." ++ [LF; LF]) s in
  match doctr image_path with
  | Returns extracted_text =>
      let s := with_result_text [] s in
      let s := with_result_text (result_text s ++ extracted_text) s in
      (Returns tt,
       mkScan (app s) (result_text s) (save_buttons s ++ [extracted_text]))
  | Raises e =>
      let error_message := "An error occurred: " +:+ e.2 in
      let s := mkScan (messagebox ShowError "Error" error_message (app s)).2
                      (result_text s) (save_buttons s) in
      let s := with_result_text [] s in
      (Returns tt, with_result_text (result_text s ++ py error_message) s)
  end.

Definition handle_drop (event_data : str) (s : Scan) : outcome unit * Scan :=
  process_image (file_path event_data) s.

(** A click on the [i]-th "Save Document" button:
    [lambda: self.save_document(extracted_text)]. *)
Definition save_button_click (i : nat) (s : Scan) : Scan :=
  match save_buttons s !! i with
  | Some extracted_text =>
      mkScan (save_document clock extracted_text (app s)).2
             (result_text s) (save_buttons s)
  | None => s
  end.

(** One image after the other. *)
Fixpoint process_images (image_paths : list str) (s : Scan) : Scan :=
  match image_paths with
  | [] => s
  | image_path :: rest => process_images rest (process_image image_path s).2
  end.

(** The text DocTR renders for a file, when it renders one. *)
Definition rendered (image_path : str) : option str :=
  match doctr image_path with
  | Returns extracted_text => Some extracted_text
  | Raises _ => None
  end.

End Scanning.

End ScanTab.

(** *** Reasoning about methods *)

Module Hoare.

Import DocumentManager.

(** From [st], the method returns a value and a state that satisfy [Q],
    or raises an exception with a state that satisfy [E]. *)
Definition wp {A} (m : M A) (Q : A -> State -> Prop)
    (E : exception -> State -> Prop) (st : State) : Prop :=
  match m st with
  | (Returns a, st') => Q a st'
  | (Raises e, st') => E e st'
  end.


(** The method returns: no exception leaves it. *)
Definition returns {A} (m : M A) (st : State) : Prop :=
  wp m (fun _ _ => True) (fun _ _ => False) st.

(** Whatever the method does, the two states are related by [R]. *)
Definition keeps {A} (R : State -> State -> Prop) (m : M A) : Prop :=
  ∀ st, R st (m st).2.

(** A statement keeps [R]. *)
Definition statement_keeps {A} (R : State -> State -> Prop)
    (stmt : DB -> outcome (A * DB)) : Prop :=
  ∀ st a db, stmt (live st) = Returns (a, db) → R st (set_live db st).

(** The audit log, on disk and as the cursor sees it, only grows. *)
Definition audit_grows (st st' : State) : Prop :=
  audit_log (live st) `prefix_of` audit_log (live st')
  ∧ (audit_log (durable st) `prefix_of` audit_log (live st) →
     audit_log (durable st) `prefix_of` audit_log (durable st')
     ∧ audit_log (durable st') `prefix_of` audit_log (live st')).

(** Neither copy of the database changes. *)
Definition same_database (st st' : State) : Prop :=
  live st' = live st ∧ durable st' = durable st.

(** The documents as the cursor sees them stay, and if they were on disk
    before they are on disk after. *)
Definition documents_settled (st st' : State) : Prop :=
  documents (live st') = documents (live st)
  ∧ (documents (durable st) = documents (live st) →
     documents (durable st') = documents (live st')).

(** Four ways in which a table of documents [b] can follow a table [a]:
    every document of [a] is in [b], unchanged; the documents with an id
    outside [ks] are the same; no id is new; the document [k], if there
    is one, is still there with the date it was added and its status. *)
Definition kept_in (a b : gmap Z DocumentRow) : Prop := a ⊆ b.

Definition same_outside (ks : list Z) (a b : gmap Z DocumentRow) : Prop :=
  ∀ j, j ∉ ks → b !! j = a !! j.

Definition no_new_id (a b : gmap Z DocumentRow) : Prop :=
  ∀ j, a !! j = None → b !! j = None.

Definition same_identity (k : Z) (a b : gmap Z DocumentRow) : Prop :=
  ∀ row, a !! k = Some row →
         ∃ row', b !! k = Some row'
                 ∧ date_added row' = date_added row
                 ∧ verification_status row' = verification_status row.

(** [P] leads from the documents the cursor saw to the ones it sees, and,
    if it led from the documents on disk to the cursor's, from the
    documents that were on disk to the ones that are, and on to the
    cursor's. *)
Definition documents_related
    (P : gmap Z DocumentRow -> gmap Z DocumentRow -> Prop)
    (st st' : State) : Prop :=
  P (documents (live st)) (documents (live st'))
  ∧ (P (documents (durable st)) (documents (live st)) →
     P (documents (durable st)) (documents (durable st'))
     ∧ P (documents (durable st')) (documents (live st'))).

(** A method that only reads: it commits nothing, and when nothing
    waited for a commit the cursor sees what it saw. *)
Definition reads_only {A} (m : M A) : Prop :=
  ∀ st, durable (m st).2 = durable st
        ∧ (live st = durable st → live (m st).2 = live st).

(** The readings of the clock increase. *)
Definition increasing (clock : nat -> str) : Prop :=
  ∀ m n, (m < n)%nat → str_ltb (clock m) (clock n) = true.

(** Every document was last modified at a reading of the clock that was
    taken before. *)
Definition stamped (clock : nat -> str) (st : State) : Prop :=
  ∀ k row, documents (live st) !! k = Some row →
           ∃ t, (t < ticks st)%nat ∧ last_modified row = clock t.

(** The database after the loop of [delete_selected_document] ran over
    [ks] with the clock at reading [t] and no call failed. *)
Fixpoint deleted_all (clock : nat -> str) (ks : list Z) (t : nat) (db : DB)
  : DB :=
  match ks with
  | [] => db
  | k :: ks' =>
      deleted_all clock ks' (S t)
        (logged k (py "DELETE") (clock t) (DELETE_details k)
                (with_documents (delete k (documents db)) db))
  end.

(** A DELETE entry as [log_action] writes it. *)
Definition is_DELETE_entry (e : AuditEntry) : Prop :=
  action e = py "DELETE" ∧ user e = py "SYSTEM"
  ∧ details e = DELETE_details (document_id e).

Definition failed_to_delete : box * string * string :=
  (ShowError, "Error", "Failed to delete document: disk I/O error").

Definition select_to_delete : box * string * string :=
  (ShowWarning, "Warning", "Please select a document to delete").

(** The store after two documents were saved, and the same store when
    the fifth coming call into [sqlite3] fails. *)
Definition two_documents : State :=
  run_ops sample_clock [Create (py "a"); Create (py "b")] init_database.

Definition fifth_call_fails (st : State) : State :=
  set_faults [false; false; false; false; true] st.

(** A list in which each element is related to all the later ones. *)
Fixpoint ordered {A} (R : A -> A -> Prop) (l : list A) : Prop :=
  match l with
  | [] => True
  | x :: l' => Forall (R x) l' ∧ ordered R l'
  end.

(** The id of a row of the documents tree and the timestamp of a row of
    the audit tree. *)
Definition row_id (r : Z * str * str * str) : Z := r.1.1.1.
Definition row_timestamp (r : str * Z * str * str * str) : str := r.1.1.1.1.

(** The row of the audit tree for an entry. *)
Definition audit_row (e : AuditEntry) : str * Z * str * str * str :=
  (timestamp e, document_id e, action e, user e, details e).

Definition failed_to_load : box * string * string :=
  (ShowError, "Error", "Failed to load documents: disk I/O error").

(** The windows show the database and nothing waits for a commit. *)
Definition in_sync (st : State) : Prop :=
  durable st = live st
  ∧ documents_tree st = documents_rows (live st)
  ∧ audit_tree st = audit_rows (live st).

(** The audit entries are numbered 1, 2, ... in the order they were
    written, and AUTOINCREMENT stands at their number. *)
Definition audit_ids_dense (db : DB) : Prop :=
  audit_id <$> audit_log db
  = (fun i => Z.of_nat (S i)) <$> seq 0 (length (audit_log db))
  ∧ audit_seq db = Z.of_nat (length (audit_log db)).

(** Every document has a positive id and an ADD entry. *)
Definition accounted (db : DB) : Prop :=
  ∀ k row, documents db !! k = Some row →
           (1 <= k)%Z
           ∧ ∃ e, e ∈ audit_log db ∧ document_id e = k
                  ∧ action e = py "ADD".

(** What a run in which no call fails keeps. *)
Definition settled (st : State) : Prop :=
  faults st = [] ∧ in_sync st ∧ audit_ids_dense (live st)
  ∧ accounted (live st).

(** Every document has the status PENDING. *)
Definition all_pending (db : DB) : Prop :=
  ∀ k row, documents db !! k = Some row →
           verification_status row = py "PENDING".

(** If every document was PENDING, every document is. *)
Definition pending_kept (st st' : State) : Prop :=
  all_pending (live st) ∧ all_pending (durable st) →
  all_pending (live st') ∧ all_pending (durable st').

End Hoare.

(** *** The texts a pattern matches *)

Module FieldShapes.

Import Re DocumentManager.

(** [lang r m]: the pattern [r] matches the whole of [m]. *)
Fixpoint lang (r : regex) (m : str) : Prop :=
  match r with
  | Lit l => m = l
  | Cls cls => ∃ c, m = [c] ∧ cls c = true
  | Rep cls lo hi =>
      Forall (fun c => cls c = true) m ∧ (lo <= length m)%nat
      ∧ ∀ h, hi = Some h → (length m <= h)%nat
  | Alt r1 r2 => lang r1 m ∨ lang r2 m
  | Seq r1 r2 => ∃ m1 m2, m = m1 ++ m2 ∧ lang r1 m1 ∧ lang r2 m2
  | Group r1 => lang r1 m
  end.

(** The next code point, if there is one, is not in the class. *)
Definition stops (cls : N -> bool) (rest : str) : Prop :=
  ∀ c, head rest = Some c → cls c = false.

(** One or two digits, a separator, one or two digits, a separator, two
    to four digits. *)
Definition date_like (digit : N -> bool) (d : str) : Prop :=
  ∃ d1 s1 d2 s2 d3,
    d = d1 ++ [s1] ++ d2 ++ [s2] ++ d3
    ∧ Forall (fun c => digit c = true) d1 ∧ (1 <= length d1 <= 2)%nat
    ∧ date_sep s1 = true
    ∧ Forall (fun c => digit c = true) d2 ∧ (1 <= length d2 <= 2)%nat
    ∧ date_sep s2 = true
    ∧ Forall (fun c => digit c = true) d3 ∧ (2 <= length d3 <= 4)%nat.

(** An ASCII letter or a space. *)
Definition letter_or_space (c : N) : bool :=
  ascii_isupper c || ascii_islower c || (c =? 32).

End FieldShapes.

(* ================================================================== *)
(** * Properties *)

(** ** Python string primitives *)

Module PyStrFacts.

Lemma split_on_nonempty sep s : split_on sep s ≠ [].
Proof.
  destruct s as [|c s]; simpl; [done|].
  destruct (c =? sep); [done|]. by destruct (split_on sep s).
Qed.

Lemma split_on_free sep s : sep ∉ s → split_on sep s = [s].
Proof.
  induction s as [|c s IH]; intros Hs; simpl; [done|].
  apply not_elem_of_cons in Hs as [Hc Hs].
  destruct (N.eqb_spec c sep) as [->|_]; [done|].
  by rewrite IH.
Qed.

Lemma split_on_app_sep sep l rest :
  sep ∉ l → split_on sep (l ++ sep :: rest) = l :: split_on sep rest.
Proof.
  induction l as [|c l IH]; intros Hl; simpl.
  - by rewrite N.eqb_refl.
  - apply not_elem_of_cons in Hl as [Hc Hl].
    destruct (N.eqb_spec c sep) as [->|_]; [done|].
    by rewrite IH.
Qed.

Lemma split_on_join sep ls :
  ls ≠ [] → Forall (fun l => sep ∉ l) ls →
  split_on sep (join [sep] ls) = ls.
Proof.
  induction ls as [|l ls IH]; intros Hne Hall; [done|].
  apply Forall_cons in Hall as [Hl Hall].
  destruct ls as [|l' ls]; simpl.
  - by apply split_on_free.
  - rewrite split_on_app_sep by done. f_equal. by apply IH.
Qed.

Lemma split_ws_words s : Forall is_word (split_ws s).
Proof.
  induction s as [|c s IH]; simpl; [constructor|].
  destruct (isspace c) eqn:Hc; [done|].
  destruct s as [|d s]; [repeat constructor; done|].
  destruct (isspace d) eqn:Hd.
  - constructor; [|done]. split; [done|]. by repeat constructor.
  - destruct (split_ws (d :: s)) as [|w ws]; [repeat constructor; done|].
    apply Forall_cons in IH as [[Hw1 Hw2] Hws].
    constructor; [|done]. split; [done|]. by constructor.
Qed.

Lemma split_ws_cons c s :
  split_ws (c :: s) =
  if isspace c then split_ws s
  else match s with
       | [] => [[c]]
       | d :: _ =>
           if isspace d then [c] :: split_ws s
           else match split_ws s with
                | w :: ws => (c :: w) :: ws
                | [] => [[c]]
                end
       end.
Proof. done. Qed.

Lemma split_ws_run c w d rest :
  Forall (fun c => isspace c = false) (c :: w) → isspace d = true →
  split_ws (c :: w ++ d :: rest) = (c :: w) :: split_ws rest.
Proof.
  intros Hw Hd. revert c Hw. induction w as [|c' w IH]; intros c Hw.
  - apply Forall_cons in Hw as [Hc _].
    rewrite split_ws_cons, Hc. cbn [app]. by rewrite Hd, split_ws_cons, Hd.
  - apply Forall_cons in Hw as [Hc Hw]. pose proof Hw as Hw'.
    apply Forall_cons in Hw' as [Hc' _].
    rewrite split_ws_cons, Hc. cbn [app]. by rewrite Hc', (IH c' Hw).
Qed.

Lemma split_ws_word_then_space w d rest :
  is_word w → isspace d = true →
  split_ws (w ++ d :: rest) = w :: split_ws rest.
Proof.
  intros [Hne Hw] Hd. destruct w as [|c w]; [done|].
  by apply split_ws_run.
Qed.

Lemma split_ws_single c w :
  Forall (fun c => isspace c = false) (c :: w) → split_ws (c :: w) = [c :: w].
Proof.
  revert c. induction w as [|c' w IH]; intros c Hw.
  - apply Forall_cons in Hw as [Hc _]. by rewrite split_ws_cons, Hc.
  - apply Forall_cons in Hw as [Hc Hw]. pose proof Hw as Hw'.
    apply Forall_cons in Hw' as [Hc' _].
    by rewrite split_ws_cons, Hc, Hc', (IH c' Hw).
Qed.

Lemma split_ws_word w : is_word w → split_ws w = [w].
Proof.
  intros [Hne Hw]. destruct w as [|c w]; [done|]. by apply split_ws_single.
Qed.

Lemma split_ws_join ws :
  Forall is_word ws → split_ws (join [SPACE] ws) = ws.
Proof.
  induction ws as [|w ws IH]; intros Hws; [done|].
  apply Forall_cons in Hws as [Hw Hws].
  destruct ws as [|w' ws].
  - by apply split_ws_word.
  - change (join [SPACE] (w :: w' :: ws))
      with (w ++ SPACE :: join [SPACE] (w' :: ws)).
    rewrite split_ws_word_then_space by done. f_equal. by apply IH.
Qed.

(** The first and the last code point of a joined list of words. *)
Lemma join_words_head ws :
  ws ≠ [] → Forall is_word ws →
  ∃ c s, join [SPACE] ws = c :: s ∧ isspace c = false.
Proof.
  intros Hne Hws. destruct ws as [|w ws]; [done|].
  apply Forall_cons in Hws as [[Hw1 Hw2] _].
  destruct w as [|c w]; [done|]. apply Forall_cons in Hw2 as [Hc _].
  destruct ws; simpl; eauto.
Qed.

Lemma join_words_last ws :
  ws ≠ [] → Forall is_word ws →
  ∃ s c, join [SPACE] ws = s ++ [c] ∧ isspace c = false.
Proof.
  induction ws as [|w ws IH]; intros Hne Hws; [done|].
  apply Forall_cons in Hws as [[Hw1 Hw2] Hws].
  destruct ws as [|w' ws].
  - destruct (exists_last Hw1) as (s & c & ->).
    apply Forall_app in Hw2 as [_ Hc]. apply Forall_cons in Hc as [Hc _].
    simpl. eauto.
  - destruct (IH ltac:(done) Hws) as (s & c & Hj & Hc).
    exists (w ++ SPACE :: s), c. split; [|done].
    change (join [SPACE] (w :: w' :: ws))
      with (w ++ SPACE :: join [SPACE] (w' :: ws)).
    rewrite Hj. by rewrite <- app_assoc.
Qed.

Lemma rstrip_snoc s c : isspace c = false → rstrip (s ++ [c]) = s ++ [c].
Proof.
  intros Hc. unfold rstrip. rewrite reverse_snoc. simpl. rewrite Hc.
  by rewrite reverse_cons, reverse_involutive.
Qed.

Lemma strip_join_words ws :
  ws ≠ [] → Forall is_word ws → strip (join [SPACE] ws) = join [SPACE] ws.
Proof.
  intros Hne Hws. unfold strip.
  destruct (join_words_head ws Hne Hws) as (c & s & E & Hc).
  destruct (join_words_last ws Hne Hws) as (s' & c' & E' & Hc').
  rewrite E. simpl. rewrite Hc, <- E, E'. by apply rstrip_snoc.
Qed.

Lemma join_words_nonempty ws :
  ws ≠ [] → Forall is_word ws → join [SPACE] ws ≠ [].
Proof.
  intros Hne Hws. by destruct (join_words_head ws Hne Hws) as (c & s & -> & _).
Qed.

(** Every code point of a joined list of words is a space or no
    whitespace at all. *)
Lemma join_words_chars ws c :
  Forall is_word ws → c ∈ join [SPACE] ws → c = SPACE ∨ isspace c = false.
Proof.
  induction ws as [|w ws IH]; intros Hws Hc; [by apply elem_of_nil in Hc|].
  apply Forall_cons in Hws as [[_ Hw] Hws].
  destruct ws as [|w' ws].
  - right. simpl in Hc. by eapply Forall_forall in Hw.
  - change (join [SPACE] (w :: w' :: ws))
      with (w ++ SPACE :: join [SPACE] (w' :: ws)) in Hc.
    apply elem_of_app in Hc as [Hc|Hc].
    + right. by eapply Forall_forall in Hw.
    + apply elem_of_cons in Hc as [->|Hc]; [by left|]. by apply IH.
Qed.

Lemma join_fmap (f : N → N) (sep : str) (ws : list str) :
  f <$> join sep ws = join (f <$> sep) (fmap (M:=list) f <$> ws).
Proof.
  induction ws as [|w ws IH]; [done|].
  destruct ws as [|w' ws]; [done|].
  change (join sep (w :: w' :: ws)) with (w ++ sep ++ join sep (w' :: ws)).
  rewrite !fmap_app, IH. done.
Qed.

Lemma lstrip_app (s t : str) :
  lstrip (s ++ t) = match lstrip s with [] => lstrip t | _ :: _ => lstrip s ++ t end.
Proof.
  induction s as [|c s IH]; simpl; [by destruct (lstrip t)|].
  by destruct (isspace c).
Qed.

Lemma rstrip_snoc_space s w : isspace w = true → rstrip (s ++ [w]) = rstrip s.
Proof. intros Hw. unfold rstrip. rewrite reverse_snoc. simpl. by rewrite Hw. Qed.

(** Whitespace at the end of a text, such as the newline Tk appends, does
    not survive [strip]. *)
Lemma strip_snoc_space s w : isspace w = true → strip (s ++ [w]) = strip s.
Proof.
  intros Hw. unfold strip. rewrite lstrip_app.
  destruct (lstrip s) as [|c t] eqn:E.
  - simpl. by rewrite Hw.
  - by apply rstrip_snoc_space.
Qed.

End PyStrFacts.

(** ** The text cleaner *)

Module CleanerFacts.

Import PyStrFacts OCRApp.

Lemma fix_common_errors_fmap text : fix_common_errors text = fix_char <$> text.
Proof.
  unfold fix_common_errors, replace_char, common_fixes. simpl.
  rewrite <- !list_fmap_compose. by apply list_fmap_ext.
Qed.

Ltac fix_char_cases c :=
  unfold fix_char, common_fixes; simpl;
  destruct (N.eqb_spec c 124) as [->|?]; [done|];
  destruct (N.eqb_spec c 91) as [->|?]; [done|];
  destruct (N.eqb_spec c 93) as [->|?]; [done|];
  destruct (N.eqb_spec c 123) as [->|?]; [done|];
  destruct (N.eqb_spec c 125) as [->|?]; [done|].

Lemma fix_char_idem c : fix_char (fix_char c) = fix_char c.
Proof.
  fix_char_cases c.
  repeat match goal with
         | |- context [?x =? ?y] =>
             destruct (N.eqb_spec x y); [congruence|]
         end.
  done.
Qed.

Lemma fix_char_nonspace c : isspace c = false → isspace (fix_char c) = false.
Proof. intros Hc. fix_char_cases c. done. Qed.

Lemma fix_char_word w : is_word w → is_word (fix_char <$> w).
Proof.
  intros [Hne Hw]. split; [by destruct w|].
  apply Forall_fmap. eapply Forall_impl; [done|].
  intros c Hc. by apply fix_char_nonspace.
Qed.

Lemma fix_common_errors_idem text :
  fix_common_errors (fix_common_errors text) = fix_common_errors text.
Proof.
  rewrite !fix_common_errors_fmap, <- list_fmap_compose.
  apply list_fmap_ext. intros _ c _. apply fix_char_idem.
Qed.

(** A corrected list of words is again a joined list of words. *)
Lemma fix_join_words ws :
  ws ≠ [] → Forall is_word ws →
  ∃ ws', ws' ≠ [] ∧ Forall is_word ws' ∧
         fix_common_errors (join [SPACE] ws) = join [SPACE] ws'.
Proof.
  intros Hne Hws. exists (fmap (M:=list) fix_char <$> ws). split_and!.
  - by destruct ws.
  - apply Forall_fmap. eapply Forall_impl; [done|]. apply fix_char_word.
  - by rewrite fix_common_errors_fmap, join_fmap.
Qed.

Section Cleaner.

Variable uni_isalnum : N → bool.

Local Abbreviation is_valid := (is_valid uni_isalnum).
Local Abbreviation process_line := (process_line uni_isalnum).
Local Abbreviation clean_line := (clean_line uni_isalnum).

Lemma process_line_clean acc line :
  process_line acc line =
  acc ++ match clean_line line with Some l => [l] | None => [] end.
Proof.
  unfold OCRApp.process_line, clean_line.
  case_bool_decide; [by rewrite app_nil_r|].
  destruct (is_valid _); [done|by rewrite app_nil_r].
Qed.

Lemma omap_cons_eq {A B} (f : A → option B) x (l : list A) :
  omap f (x :: l) =
  match f x with Some y => y :: omap f l | None => omap f l end.
Proof. done. Qed.

Lemma foldl_process_line acc lines :
  foldl process_line acc lines = acc ++ omap clean_line lines.
Proof.
  revert acc. induction lines as [|l lines IH]; intros acc.
  - simpl. by rewrite app_nil_r.
  - cbn [foldl]. rewrite IH, process_line_clean, omap_cons_eq.
    destruct (clean_line l); simpl; by rewrite <- app_assoc.
Qed.

Lemma post_process_text_eq text :
  post_process_text uni_isalnum text =
  join [LF] (omap clean_line (split_on LF text)).
Proof.
  unfold post_process_text, post_process_body. simpl.
  by rewrite foldl_process_line.
Qed.

Lemma is_valid_length line : is_valid line = true → (2 < length line)%nat.
Proof.
  unfold OCRApp.is_valid. intros [H _]%andb_prop.
  apply N.ltb_lt in H. lia.
Qed.

Lemma is_valid_alnum line :
  is_valid line = true → ∃ c, c ∈ line ∧ isalnum uni_isalnum c = true.
Proof.
  unfold OCRApp.is_valid. intros [_ H]%andb_prop.
  apply existsb_exists in H as (c & Hin & Hc).
  exists c. by rewrite list_elem_of_In.
Qed.

Lemma clean_line_Some line l :
  clean_line line = Some l →
  is_valid l = true ∧
  ∃ ws, ws ≠ [] ∧ Forall is_word ws ∧ l = join [SPACE] ws ∧
        fix_common_errors l = l.
Proof.
  unfold clean_line. case_bool_decide as Hs; [done|].
  destruct (is_valid _) eqn:Hv; [|done]. intros [= <-]. split; [done|].
  assert (split_ws (strip line) ≠ []) as Hne.
  { intros E. rewrite E in Hv. apply is_valid_length in Hv. simpl in Hv. lia. }
  destruct (fix_join_words _ Hne (split_ws_words _)) as (ws' & ? & ? & E).
  exists ws'. split_and!; [done..| |]; [done|].
  apply fix_common_errors_idem.
Qed.

(** A surviving line survives a second pass unchanged. *)
Lemma clean_line_fixpoint line l :
  clean_line line = Some l → clean_line l = Some l ∧ LF ∉ l.
Proof.
  intros (Hv & ws & Hne & Hws & -> & Hfix)%clean_line_Some. split.
  - unfold clean_line. rewrite strip_join_words by done.
    rewrite bool_decide_eq_false_2 by by apply join_words_nonempty.
    by rewrite split_ws_join, Hfix, Hv.
  - intros Hin. by apply join_words_chars in Hin as [?|?].
Qed.

Lemma omap_clean_line_fixpoint (ls : list str) :
  Forall (fun l => clean_line l = Some l) ls → omap clean_line ls = ls.
Proof.
  induction 1 as [|l ls Hl _ IH]; [done|]. by rewrite omap_cons_eq, Hl, IH.
Qed.

Lemma cleaned_lines_fixpoint (lines : list str) :
  Forall (fun l => clean_line l = Some l ∧ LF ∉ l) (omap clean_line lines).
Proof.
  induction lines as [|l lines IH]; [constructor|]. rewrite omap_cons_eq.
  destruct (clean_line l) eqn:E; [|done].
  constructor; [|done]. by eapply clean_line_fixpoint.
Qed.

Lemma split_on_cleaned (lines : list str) :
  omap clean_line lines ≠ [] →
  split_on LF (join [LF] (omap clean_line lines)) = omap clean_line lines.
Proof.
  intros Hne. apply split_on_join; [done|].
  eapply Forall_impl; [apply cleaned_lines_fixpoint|]. by intros l [_ ?].
Qed.

(** C8: the cleaner is idempotent: cleaning a cleaned text returns it
    unchanged, for every text. *)
Theorem post_process_text_idempotent text :
  post_process_text uni_isalnum (post_process_text uni_isalnum text)
  = post_process_text uni_isalnum text.
Proof.
  rewrite !post_process_text_eq.
  set (kept := omap clean_line (split_on LF text)).
  destruct (decide (kept = [])) as [E|Hne].
  - rewrite E. simpl. unfold clean_line. simpl. done.
  - unfold kept. rewrite split_on_cleaned by done. f_equal.
    apply omap_clean_line_fixpoint.
    eapply Forall_impl; [apply cleaned_lines_fixpoint|]. by intros l [? _].
Qed.

Lemma omap_clean_line_sublist (lines : list str) :
  ∃ src, src `sublist_of` lines ∧
         Forall2 (fun s l => process_line [] s = [l])
                 src (omap clean_line lines).
Proof.
  induction lines as [|l lines (src & Hsub & Hall)].
  - exists []. by split.
  - rewrite omap_cons_eq. destruct (clean_line l) as [l'|] eqn:E.
    + exists (l :: src). split; [by constructor|].
      constructor; [|done]. by rewrite process_line_clean, E.
    + exists src. split; [by constructor|done].
Qed.

Lemma omap_clean_line_length (lines : list str) :
  (length (omap clean_line lines) ≤ length lines)%nat.
Proof.
  induction lines as [|l lines IH]; [done|]. rewrite omap_cons_eq.
  destruct (clean_line l); simpl; lia.
Qed.

(** C9: the body of the cleaner never raises, so the cleaner returns what
    the body computed, and its handler returns the text it was given;
    the result is the kept lines joined by newlines; there are at most
    as many kept lines (and lines of the result) as lines of the input;
    the kept lines are, in order, what the loop makes of a subsequence of
    the input's lines; each is longer than 2 and has an alphanumeric
    code point. *)
Theorem post_process_text_lines text :
  (∃ cleaned, post_process_body uni_isalnum text = Returns cleaned
              ∧ post_process_text uni_isalnum text = cleaned)
  ∧ (∀ exc, try_except (Raises exc) (fun _ => text) = text)
  ∧ ∃ kept : list str,
      post_process_text uni_isalnum text = join [LF] kept
      ∧ (kept ≠ [] → split_on LF (post_process_text uni_isalnum text) = kept)
      ∧ (length kept ≤ length (split_on LF text))%nat
      ∧ (length (split_on LF (post_process_text uni_isalnum text))
         ≤ length (split_on LF text))%nat
      ∧ (∃ src, src `sublist_of` split_on LF text
                ∧ Forall2 (fun s l => process_line [] s = [l]) src kept)
      ∧ Forall (fun l => (2 < length l)%nat
                         ∧ ∃ c, c ∈ l ∧ isalnum uni_isalnum c = true) kept.
Proof.
  split; [by eexists|]. split; [done|].
  exists (omap clean_line (split_on LF text)).
  rewrite post_process_text_eq.
  pose proof (omap_clean_line_length (split_on LF text)) as Hlen.
  split_and!; [done| |done| | |].
  - apply split_on_cleaned.
  - destruct (decide (omap clean_line (split_on LF text) = [])) as [E|Hne].
    + rewrite E. simpl.
      pose proof (split_on_nonempty LF text).
      destruct (split_on LF text); simpl; [done|lia].
    + by rewrite split_on_cleaned.
  - apply omap_clean_line_sublist.
  - generalize (split_on LF text). intros lines.
    induction lines as [|l lines IH]; [constructor|]. rewrite omap_cons_eq.
    destruct (clean_line l) as [l'|] eqn:E; [|done].
    constructor; [|done].
    apply clean_line_Some in E as [Hv _].
    split; [by apply is_valid_length|by apply is_valid_alnum].
Qed.

End Cleaner.

End CleanerFacts.

(** ** The field extractor *)

Module ExtractorFacts.

Import Re DocumentManager.

(** *** Searching for a label that does not occur *)

Lemma contains_unfold (l s : str) :
  contains l s =
  starts_with l s || match s with [] => false | _ :: s' => contains l s' end.
Proof. by destruct s. Qed.

Lemma search_unfold r (s : str) :
  search r s =
  match run r s with
  | m :: _ => Some m
  | [] => match s with [] => None | _ :: s' => search r s' end
  end.
Proof. by destruct s. Qed.

Lemma run_lit_absent (l s : str) : starts_with l s = false → run (Lit l) s = [].
Proof. intros H. cbn [run]. by rewrite H. Qed.

Lemma run_alt_nil r1 r2 (s : str) :
  run r1 s = [] → run r2 s = [] → run (Alt r1 r2) s = [].
Proof. intros H1 H2. cbn [run]. by rewrite H1, H2. Qed.

Lemma run_seq_nil r1 r2 (s : str) : run r1 s = [] → run (Seq r1 r2) s = [].
Proof. intros H. cbn [run]. by rewrite H. Qed.

(** A pattern whose head matches at no position is not found. *)
Lemma search_head_nil h r (s : str) :
  (∀ t, t `suffix_of` s → run h t = []) → search_group1 (Seq h r) s = None.
Proof.
  intros H. unfold search_group1.
  assert (search (Seq h r) s = None) as ->; [|done].
  induction s as [|c s IH]; rewrite search_unfold.
  - by rewrite run_seq_nil by by apply H.
  - rewrite run_seq_nil by by apply H. apply IH.
    intros t Ht. apply H. by apply suffix_cons_r.
Qed.

Lemma contains_suffix (l s t : str) :
  contains l s = false → t `suffix_of` s → starts_with l t = false.
Proof.
  intros H [k ->]. induction k as [|c k IH].
  - rewrite contains_unfold in H. by apply orb_false_elim in H as [? _].
  - apply IH. rewrite contains_unfold in H.
    by apply orb_false_elim in H as [_ ?].
Qed.

Section Extractor.

Variable uni_upper uni_lower uni_title : N → str.
Variable uni_iscased uni_isdecimal : N → bool.

Local Abbreviation upper := (upper uni_upper).
Local Abbreviation title := (title uni_lower uni_title uni_iscased).
Local Abbreviation parse :=
  (parse_document_info uni_upper uni_lower uni_title uni_iscased
     uni_isdecimal).

Lemma field_of_None f : field_of f None = [].
Proof. done. Qed.

Lemma parse_depends_on_upper t1 t2 : upper t1 = upper t2 → parse t1 = parse t2.
Proof. unfold parse_document_info. by intros ->. Qed.

(** A text whose upper-cased copy holds none of the labels yields the
    empty record. *)
Lemma parse_without_labels text :
  Forall (fun l => contains l (upper text) = false) labels →
  parse text = empty_info.
Proof.
  intros H. unfold labels, doc_types in H.
  repeat (apply Forall_cons in H as [? H]).
  unfold parse_document_info, empty_info. f_equal.
  - unfold doc_types. cbn [find]. by repeat match goal with H : contains _ _ = false |- _ => rewrite H; clear H end.
  - unfold number_re. rewrite search_head_nil; [done|].
    intros t Ht. repeat apply run_alt_nil; apply run_lit_absent;
      by eapply contains_suffix.
  - unfold name_re. rewrite search_head_nil; [done|].
    intros t Ht. apply run_lit_absent; by eapply contains_suffix.
  - unfold dob_re. rewrite search_head_nil; [done|].
    intros t Ht. repeat apply run_alt_nil; apply run_lit_absent;
      by eapply contains_suffix.
  - unfold exp_re. rewrite search_head_nil; [done|].
    intros t Ht. repeat apply run_alt_nil; apply run_lit_absent;
      by eapply contains_suffix.
  - unfold iss_re. rewrite search_head_nil; [done|].
    intros t Ht. repeat apply run_alt_nil; apply run_lit_absent;
      by eapply contains_suffix.
Qed.

(** C7: [parse_document_info] is a total function of the text: it returns
    a record for every text, in which a field whose search finds nothing
    is the empty string, the name is the title-cased capture and every
    other field the capture itself; a text whose upper-cased copy holds
    none of the labels, in particular the empty text, yields the record
    with every field empty; the record depends on the upper-cased text
    only; and on the
    spec's example the name is "John Smith" and the date of birth
    "01-02-1990", in upper or lower case. *)
Theorem parse_document_info_total :
  (∀ text,
      let text_upper := upper text in
      let info := parse text in
      (find (fun d => contains d text_upper) doc_types = None
       → doc_type info = [])
      ∧ (search_group1 number_re text_upper = None → doc_number info = [])
      ∧ (search_group1 name_re text_upper = None → full_name info = [])
      ∧ (search_group1 (dob_re uni_isdecimal) text_upper = None
         → date_of_birth info = [])
      ∧ (search_group1 (exp_re uni_isdecimal) text_upper = None
         → expiry_date info = [])
      ∧ (search_group1 (iss_re uni_isdecimal) text_upper = None
         → issue_date info = [])
      ∧ (∀ g, search_group1 name_re text_upper = Some g
              → full_name info = title g)
      ∧ (∀ g, search_group1 (dob_re uni_isdecimal) text_upper = Some g
              → date_of_birth info = g)
      ∧ metadata info = [])
  ∧ (∀ text, Forall (fun l => contains l (upper text) = false) labels
             → parse text = empty_info)
  ∧ parse [] = empty_info
  ∧ (∀ t1 t2, upper t1 = upper t2 → parse t1 = parse t2)
  ∧ full_name (parse example_text) = py "John Smith"
  ∧ date_of_birth (parse example_text) = py "01-02-1990"
  ∧ parse example_text_lower = parse example_text.
Proof.
  split_and!.
  - intros text text_upper info. unfold info, parse_document_info. simpl.
    fold text_upper.
    split_and!; try (by intros ->); try (by intros g ->); done.
  - apply parse_without_labels.
  - by vm_compute.
  - apply parse_depends_on_upper.
  - by vm_compute.
  - by vm_compute.
  - apply parse_depends_on_upper. by vm_compute.
Qed.

End Extractor.

End ExtractorFacts.

(** ** The audit-logged store *)

Module StoreFacts.

Import PyStrFacts DocumentManager Hoare.

Local Open Scope Z_scope.

(** *** The next identifier *)

Lemma max_list_Some (l : list Z) m :
  foldr (fun k acc => Some (match acc with
                            | Some m => Z.max k m
                            | None => k
                            end)) None l = Some m →
  m ∈ l ∧ ∀ k, k ∈ l → k ≤ m.
Proof.
  revert m. induction l as [|x l IH]; intros m E; [done|].
  simpl in E. destruct (foldr _ None l) as [m'|] eqn:E'.
  - injection E as <-. destruct (IH m' eq_refl) as [Hin Hmax]. split.
    + destruct (Z.max_spec x m') as [[_ ->]|[_ ->]]; [by right|left].
    + intros k [->|Hk]%elem_of_cons; [lia|]. apply Hmax in Hk. lia.
  - injection E as <-. destruct l; [|done]. split; [left|].
    intros k [->|Hk]%elem_of_cons; [lia|by apply elem_of_nil in Hk].
Qed.

Lemma max_list_ge (l : list Z) k :
  k ∈ l →
  ∃ m, foldr (fun k acc => Some (match acc with
                                 | Some m => Z.max k m
                                 | None => k
                                 end)) None l = Some m
       ∧ k ≤ m ∧ m ∈ l.
Proof.
  intros Hk.
  destruct (foldr _ None l) as [m|] eqn:E.
  - destruct (max_list_Some l m E) as [Hin Hmax]. eauto.
  - destruct l; [by apply elem_of_nil in Hk|done].
Qed.

Lemma elem_of_keys (docs : gmap Z DocumentRow) k :
  k ∈ (map_to_list docs).*1 ↔ is_Some (docs !! k).
Proof.
  rewrite list_elem_of_fmap. split.
  - intros ([k' r] & -> & Hin). apply elem_of_map_to_list in Hin. by exists r.
  - intros [r Hr]. exists (k, r). split; [done|]. by apply elem_of_map_to_list.
Qed.

Lemma max_id_ge (docs : gmap Z DocumentRow) k :
  is_Some (docs !! k) →
  ∃ m, max_id docs = Some m ∧ k ≤ m ∧ is_Some (docs !! m).
Proof.
  intros Hk%elem_of_keys. destruct (max_list_ge _ _ Hk) as (m & E & Hle & Hin).
  exists m. split_and!; [done..|]. by apply elem_of_keys.
Qed.


Lemma max_id_Some (docs : gmap Z DocumentRow) m :
  max_id docs = Some m →
  is_Some (docs !! m) ∧ ∀ k, is_Some (docs !! k) → k ≤ m.
Proof.
  intros E. destruct (map_to_list docs) as [|[k r] l] eqn:El.
  - unfold max_id in E. by rewrite El in E.
  - assert (is_Some (docs !! k)) as Hk.
    { apply elem_of_keys. rewrite El. left. }
    destruct (max_id_ge _ _ Hk) as (m' & E' & _ & Hm).
    rewrite E in E'. injection E' as <-. split; [done|].
    intros j Hj. destruct (max_id_ge _ _ Hj) as (m' & E' & Hle & _).
    rewrite E in E'. by injection E' as <-.
Qed.

Lemma next_id_fresh db : documents db !! next_id db = None.
Proof.
  destruct (documents db !! next_id db) as [r|] eqn:E; [|done].
  destruct (max_id_ge (documents db) (next_id db)) as (m & Em & Hle & _);
    [by exists r|].
  unfold next_id in Hle. rewrite Em in Hle. simpl in Hle. lia.
Qed.

(** *** What the methods do when no call into [sqlite3] fails *)

Section Store.

Variable clock : nat → str.

Lemma log_action_ok st k act det :
  faults st = [] →
  log_action clock k act det st =
  (Returns tt,
   let db := logged k act (clock (ticks st)) det (live st) in
   mkState db db (documents_tree st) (audit_rows db) (search_tree st)
           (dialogs st) (printed st) (S (ticks st)) []).
Proof. destruct st. simpl. intros ->. reflexivity. Qed.

Lemma save_document_ok st raw :
  faults st = [] →
  save_document clock raw st =
  (Returns true,
   let db := saved_db clock raw st in
   mkState db db (documents_rows db) (audit_rows db) (search_tree st)
           (dialogs st ++ [success_saved (next_id (live st))])
           (printed st) (S (S (ticks st))) []).
Proof.
  destruct st as [lv du dt at' srt dl pr tk fl]. simpl. intros ->.
  pose proof (next_id_fresh lv) as Hfresh.
  unfold save_document, try_m, bind, execute, sqlite3_call, select_max_id,
    insert_document. simpl.
  fold (next_id lv). rewrite Hfresh. reflexivity.
Qed.

Lemma delete_selected_document_ok st k :
  faults st = [] →
  delete_selected_document clock [k] true st =
  (Returns tt,
   let db := deleted_db clock k st in
   mkState db db (documents_rows db) (audit_rows db) (search_tree st)
           (dialogs st ++ [success_deleted]) (printed st) (S (ticks st)) []).
Proof. destruct st. simpl. intros ->. reflexivity. Qed.

Lemma edit_selected_document_ok st k :
  faults st = [] →
  edit_selected_document [k] st =
  match documents (live st) !! k with
  | Some row =>
      (Returns (Some {| dialog_doc_id := k; text_area := raw_text row |}), st)
  | None => (Returns None, set_dialogs (dialogs st ++ [not_found]) st)
  end.
Proof.
  destruct st as [lv du dt at' srt dl pr tk fl]. simpl. intros ->.
  unfold edit_selected_document, bind, execute, sqlite3_call, select_raw_text.
  simpl. by destruct (documents lv !! k).
Qed.

Lemma save_changes_ok st dialog :
  faults st = [] →
  save_changes clock dialog st =
  (Returns tt,
   let db := edited_db clock dialog st in
   mkState db db (documents_rows db) (audit_rows db) (search_tree st)
           (dialogs st ++ [success_updated]) (printed st) (S (S (ticks st))) []).
Proof. destruct st. simpl. intros ->. reflexivity. Qed.

Lemma show_document_details_ok st k :
  faults st = [] →
  show_document_details k st = (Returns (details_of k <$> documents (live st) !! k), st).
Proof.
  destruct st as [lv du dt at' srt dl pr tk fl]. simpl. intros ->.
  unfold show_document_details, bind, execute, sqlite3_call, select_document.
  simpl. by destruct (documents lv !! k).
Qed.

Lemma perform_ok st o :
  faults st = [] →
  ∃ st', perform clock o st = (Returns tt, st') ∧ faults st' = []
         ∧ (audit_count st' + successes st = audit_count st + successes st')%nat
         ∧ audit_log (live st) `prefix_of` audit_log (live st').
Proof.
  intros Hf. destruct o as [raw|k new_text|k]; unfold perform.
  - unfold bind. rewrite save_document_ok by done. eexists. split; [done|].
    unfold audit_count, successes. simpl.
    rewrite List.filter_app, !length_app. simpl.
    split_and!; [done|lia|by apply prefix_app_r].
  - unfold bind. rewrite edit_selected_document_ok by done.
    destruct (documents (live st) !! k) as [row|].
    + rewrite save_changes_ok by done. eexists. split; [done|].
      unfold audit_count, successes. simpl.
      rewrite List.filter_app, !length_app. simpl.
      split_and!; [done|lia|by apply prefix_app_r].
    + eexists. split; [done|]. unfold audit_count, successes. simpl.
      rewrite List.filter_app, !length_app. simpl.
      split_and!; [done|lia|done].
  - rewrite delete_selected_document_ok by done. eexists. split; [done|].
    unfold audit_count, successes. simpl.
    rewrite List.filter_app, !length_app. simpl.
    split_and!; [done|lia|by apply prefix_app_r].
Qed.

Lemma run_ok ops st :
  faults st = [] →
  faults (run_ops clock ops st) = []
  ∧ (audit_count (run_ops clock ops st) + successes st
     = audit_count st + successes (run_ops clock ops st))%nat
  ∧ audit_log (live st) `prefix_of` audit_log (live (run_ops clock ops st)).
Proof.
  revert st. induction ops as [|o ops IH]; intros st Hf; simpl; [done|].
  destruct (perform_ok st o Hf) as (st' & -> & Hf' & Hcount & Hpre). simpl.
  destruct (IH st' Hf') as (? & ? & ?).
  split_and!; [done|lia|by etrans].
Qed.

(** A create during which the INSERT into [audit_log] fails. *)
Lemma save_document_audit_fault st raw :
  faults st = [false; false; false; true] →
  save_document clock raw st =
  (Returns true,
   let db := with_documents
               (<[next_id (live st) := new_row raw (clock (ticks st))]>
                  (documents (live st)))
               (live st) in
   mkState db db (documents_rows db) (audit_tree st) (search_tree st)
           (dialogs st ++ [success_saved (next_id (live st))])
           (printed st ++ ["Failed to log action: disk I/O error"])
           (S (S (ticks st))) []).
Proof.
  destruct st as [lv du dt at' srt dl pr tk fl]. simpl. intros ->.
  pose proof (next_id_fresh lv) as Hfresh.
  unfold save_document, try_m, bind, execute, sqlite3_call, select_max_id,
    insert_document. simpl.
  fold (next_id lv). rewrite Hfresh. reflexivity.
Qed.

Lemma successes_snoc st d :
  length (List.filter is_success (dialogs st ++ [d]))
  = (successes st + (if is_success d then 1 else 0))%nat.
Proof.
  unfold successes. rewrite List.filter_app, length_app. simpl.
  by destruct (is_success d).
Qed.

(** C1, as the code has it: when no call into [sqlite3] fails, the audit
    log grows by exactly one row for each call that reports success and
    no old row changes, for every sequence of create, update and delete
    of one document; from a new database the two counts are equal.  The
    row and its audit entry are not one transaction: when the INSERT
    into [audit_log] fails during a create, the create still reports
    success, the document row is committed and no audit row is written. *)
Theorem audit_entry_per_success ops st :
  faults st = [] →
  (audit_count (run_ops clock ops st) + successes st
   = audit_count st + successes (run_ops clock ops st))%nat
  ∧ audit_log (live st) `prefix_of` audit_log (live (run_ops clock ops st))
  ∧ audit_count (run_ops clock ops init_database)
    = successes (run_ops clock ops init_database)
  ∧ ∀ raw, ∃ st',
      save_document clock raw (set_faults [false; false; false; true] st)
      = (Returns true, st')
      ∧ documents (durable st') !! next_id (live st)
        = Some (new_row raw (clock (ticks st)))
      ∧ audit_log (live st') = audit_log (live st)
      ∧ audit_log (durable st') = audit_log (live st)
      ∧ successes st' = S (successes st)
      ∧ printed st' = printed st ++ ["Failed to log action: disk I/O error"].
Proof.
  intros Hf. destruct (run_ok ops st Hf) as (_ & Hcount & Hpre).
  split_and!; [done..| |].
  - destruct (run_ok ops init_database eq_refl) as (_ & H & _).
    unfold audit_count, successes in *. simpl in H. lia.
  - intros raw. rewrite save_document_audit_fault by reflexivity.
    eexists. split; [reflexivity|].
    cbn [durable live documents audit_log with_documents printed
         set_faults ticks dialogs].
    split_and!; [apply lookup_insert_eq|reflexivity|reflexivity| |reflexivity].
    unfold successes at 1. cbn [dialogs]. rewrite successes_snoc.
    cbn [is_success success_saved String.eqb Ascii.eqb Bool.eqb]. lia.
Qed.

(** C3, as the code has it: [save_document] checks nothing; on the
    empty text it reports success, commits a document whose [raw_text]
    is empty under the next id, logs an ADD entry for it, and the details
    dialog of that document shows "No raw text available". *)
Theorem save_document_accepts_empty_text st :
  faults st = [] →
  ∃ st' e,
    save_document clock [] st = (Returns true, st')
    ∧ documents (durable st') !! next_id (live st)
      = Some (new_row [] (clock (ticks st)))
    ∧ audit_log (durable st') = audit_log (live st) ++ [e]
    ∧ document_id e = next_id (live st) ∧ action e = py "ADD"
    ∧ dialogs st' = dialogs st ++ [success_saved (next_id (live st))]
    ∧ show_document_details (next_id (live st)) st'
      = (Returns (Some {| doc := (next_id (live st),
                                  new_row [] (clock (ticks st)));
                          raw_tab := py "No raw text available" |}), st').
Proof.
  intros Hf. rewrite save_document_ok by done. do 2 eexists.
  split; [reflexivity|].
  cbn [durable live documents audit_log saved_db logged with_documents
       dialogs document_id action].
  split_and!; [apply lookup_insert_eq|reflexivity..|].
  rewrite show_document_details_ok by reflexivity.
  cbn [live documents saved_db logged with_documents].
  rewrite lookup_insert_eq. reflexivity.
Qed.

(** Every operation stamps the row it writes with a reading of the
    clock it has just taken. *)
Lemma perform_stamped o st :
  faults st = [] → stamped clock st → stamped clock (perform clock o st).2.
Proof.
  intros Hf Hst. destruct o as [raw|k new_text|k]; cbn [perform].
  - unfold bind. rewrite save_document_ok by done. cbn [snd ret].
    intros j row. unfold saved_db.
    cbn [live ticks documents logged with_documents].
    destruct (decide (j = next_id (live st))) as [->|Hne].
    + rewrite lookup_insert_eq. intros [= <-]. exists (ticks st).
      split; [lia|done].
    + rewrite lookup_insert_ne by done. intros Hrow.
      destruct (Hst j row Hrow) as (t & Ht & E). exists t. split; [lia|done].
  - unfold bind. rewrite edit_selected_document_ok by done.
    destruct (documents (live st) !! k) as [row0|] eqn:Hk.
    + rewrite save_changes_ok by done. cbn [snd].
      intros j row. unfold edited_db.
      cbn [live ticks documents logged with_documents dialog_doc_id].
      destruct (decide (j = k)) as [->|Hne].
      * rewrite lookup_alter_eq, Hk. intros [= <-]. exists (ticks st).
        split; [lia|done].
      * rewrite lookup_alter_ne by done. intros Hrow.
        destruct (Hst j row Hrow) as (t & Ht & E). exists t. split; [lia|done].
    + cbn [snd ret]. intros j row Hrow.
      destruct (Hst j row) as (t & Ht & E); [by destruct st|].
      exists t. split; [by destruct st|done].
  - rewrite delete_selected_document_ok by done. cbn [snd].
    intros j row. unfold deleted_db.
    cbn [live ticks documents logged with_documents].
    intros [_ Hrow]%lookup_delete_Some.
    destruct (Hst j row Hrow) as (t & Ht & E). exists t. split; [lia|done].
Qed.

Lemma run_ops_stamped ops : stamped clock (run_ops clock ops init_database).
Proof.
  assert (∀ st, faults st = [] → stamped clock st →
                stamped clock (run_ops clock ops st)) as H.
  { induction ops as [|o ops IH]; intros st Hf Hst; [done|].
    cbn [run_ops]. apply IH; [|by apply perform_stamped].
    by destruct (perform_ok st o Hf) as (st' & -> & ? & _). }
  apply H; [done|]. intros k row Hrow. cbn in Hrow.
  by rewrite lookup_empty in Hrow.
Qed.

(** C4, as the code has it: an update of a document that is present
    stores the submitted text stripped of the whitespace around it, sets
    [last_modified] to the reading of the clock it takes, and leaves the
    id, [date_added], the status and every other document as they were;
    in a store reached from a new database, when the readings of the
    clock increase, [last_modified] is strictly later than it was; on an
    id that is absent it shows "Document not found" and changes no
    row. *)
Theorem update_replaces_stripped_text st k new_text :
  faults st = [] →
  match documents (live st) !! k with
  | Some row =>
      ∃ st' row',
        perform clock (Update k new_text) st = (Returns tt, st')
        ∧ documents (live st') !! k = Some row'
        ∧ raw_text row' = strip new_text
        ∧ last_modified row' = clock (ticks st)
        ∧ (increasing clock →
           (∃ ops, st = run_ops clock ops init_database) →
           str_ltb (last_modified row) (last_modified row') = true)
        ∧ date_added row' = date_added row
        ∧ verification_status row' = verification_status row
        ∧ (∀ j, j ≠ k → documents (live st') !! j = documents (live st) !! j)
        ∧ durable st' = live st'
  | None =>
      ∃ st',
        perform clock (Update k new_text) st = (Returns tt, st')
        ∧ live st' = live st ∧ durable st' = durable st
        ∧ dialogs st' = dialogs st ++ [not_found]
  end.
Proof.
  intros Hf.
  assert (increasing clock →
          (∃ ops, st = run_ops clock ops init_database) →
          ∀ row, documents (live st) !! k = Some row →
                 str_ltb (last_modified row) (clock (ticks st)) = true)
    as Hlater.
  { intros Hinc [ops Hst] row Hrow.
    pose proof (run_ops_stamped ops) as Hs. rewrite <- Hst in Hs.
    destruct (Hs k row Hrow) as (t & Ht & ->). by apply Hinc. }
  unfold perform, bind. rewrite edit_selected_document_ok by done.
  destruct (documents (live st) !! k) as [row|] eqn:E.
  - rewrite save_changes_ok by done. do 2 eexists.
    split; [reflexivity|].
    cbn [durable live documents edited_db logged with_documents
         dialog_doc_id text_area_get text_area].
    rewrite lookup_alter_eq, E. cbn [fmap option_fmap option_map].
    split_and!; [reflexivity| | reflexivity | | reflexivity..| |reflexivity].
    + cbn [raw_text edited_row]. by apply strip_snoc_space.
    + intros Hinc Hreach. cbn [last_modified edited_row]. by apply Hlater.
    + intros j Hj. by rewrite lookup_alter_ne.
  - eexists. split; [reflexivity|]. split_and!; by destruct st.
Qed.


(** C10: ids are reused.  When no call into [sqlite3] fails: a create
    stores its text under the next id [k]; deleting [k] removes it; the
    next create stores its text under the same [k]; and the audit log
    has gained, in this order, an ADD and a DELETE entry for [k], written
    for the first document, and the ADD entry of the second. *)
Theorem ids_reused_after_delete st raw1 raw2 :
  faults st = [] →
  ∃ k st1 st2 st3 e1 e2 e3,
    k = default 0 (max_id (documents (live st))) + 1
    ∧ save_document clock raw1 st = (Returns true, st1)
    ∧ raw_text <$> documents (live st1) !! k = Some raw1
    ∧ delete_selected_document clock [k] true st1 = (Returns tt, st2)
    ∧ documents (live st2) !! k = None
    ∧ save_document clock raw2 st2 = (Returns true, st3)
    ∧ raw_text <$> documents (live st3) !! k = Some raw2
    ∧ audit_log (live st3) = audit_log (live st) ++ [e1; e2; e3]
    ∧ (document_id e1, action e1) = (k, py "ADD")
    ∧ (document_id e2, action e2) = (k, py "DELETE")
    ∧ (document_id e3, action e3) = (k, py "ADD").
Proof.
  intros Hf. pose proof (next_id_fresh (live st)) as Hfresh.
  pose proof (save_document_ok st raw1 Hf) as E1.
  set (k := next_id (live st)) in *. cbv zeta in E1.
  set (db1 := saved_db clock raw1 st) in E1.
  set (st1 := mkState db1 db1 _ _ _ _ _ _ _) in E1.
  pose proof (delete_selected_document_ok st1 k eq_refl) as E2.
  cbv zeta in E2. set (db2 := deleted_db clock k st1) in E2.
  set (st2 := mkState db2 db2 _ _ _ _ _ _ _) in E2.
  assert (documents db2 = documents (live st)) as Hdocs.
  { unfold db2, deleted_db, st1, db1, saved_db.
    cbn [live documents logged with_documents]. fold k.
    by apply delete_insert_id. }
  assert (next_id (live st2) = k) as Hk.
  { unfold next_id, st2. cbn [live]. by rewrite Hdocs. }
  pose proof (save_document_ok st2 raw2 eq_refl) as E3.
  cbv zeta in E3. rewrite Hk in E3.
  exists k, st1, st2. do 4 eexists.
  split; [reflexivity|]. split; [exact E1|]. split.
  { unfold st1, db1, saved_db. cbn [live documents logged with_documents].
    fold k. by rewrite lookup_insert_eq. }
  split; [exact E2|]. split.
  { unfold st2. cbn [live]. by rewrite Hdocs. }
  split; [exact E3|]. split.
  { unfold saved_db. cbn [live documents logged with_documents].
    rewrite Hk. by rewrite lookup_insert_eq. }
  split.
  { cbn [live]. unfold saved_db. rewrite Hk.
    cbn [audit_log logged with_documents].
    assert (audit_log (live st2)
            = audit_log (live st) ++
              [ {| audit_id := audit_seq (live st) + 1; document_id := k;
                   action := py "ADD"; timestamp := clock (S (ticks st));
                   user := py "SYSTEM"; details := ADD_details k |};
                {| audit_id := audit_seq (live st) + 1 + 1; document_id := k;
                   action := py "DELETE";
                   timestamp := clock (S (S (ticks st)));
                   user := py "SYSTEM"; details := DELETE_details k |} ]) as ->.
    { subst st2 db2 st1 db1. unfold deleted_db, saved_db.
      cbn [live audit_log audit_seq logged with_documents ticks]. fold k.
      by rewrite <- app_assoc. }
    rewrite <- app_assoc. reflexivity. }
  split_and!; reflexivity.
Qed.

End Store.

(** *** Concrete runs *)

Lemma audit_entry_per_success_witness :
  faults init_database = []
  ∧ (audit_count (run_ops sample_clock sample_ops init_database)
     + successes init_database
     = audit_count init_database
       + successes (run_ops sample_clock sample_ops init_database))%nat.
Proof.
  split; [reflexivity|].
  exact (proj1 (audit_entry_per_success sample_clock sample_ops
                  init_database eq_refl)).
Defined.

(** C1 fails as stated: a create whose audit INSERT raises reports
    success and commits the document, and no audit row exists: one
    successful call, zero audit rows, nothing rolled back. *)
Lemma audit_write_failure_keeps_row :
  let r := save_document sample_clock (py "hello")
             (set_faults [false; false; false; true] init_database) in
  r.1 = Returns true
  ∧ successes r.2 = 1%nat
  ∧ audit_count r.2 = 0%nat
  ∧ raw_text <$> documents (durable r.2) !! 1 = Some (py "hello")
  ∧ audit_log (durable r.2) = []
  ∧ printed r.2 = ["Failed to log action: disk I/O error"].
Proof. vm_compute. split_and!; reflexivity. Qed.

Lemma save_document_accepts_empty_text_witness :
  faults init_database = []
  ∧ ∃ st', save_document sample_clock [] init_database = (Returns true, st')
           ∧ raw_text <$> documents (durable st') !! 1 = Some [].
Proof.
  split; [reflexivity|].
  destruct (save_document_accepts_empty_text sample_clock init_database eq_refl)
    as (st' & e & E & Hrow & _).
  exists st'. split; [exact E|].
  change (next_id (live init_database)) with 1 in Hrow.
  rewrite Hrow. reflexivity.
Defined.

(** C3 fails as stated: the empty text is saved, as document 1 of a new
    database, and the only box shown reports success. *)
Lemma empty_text_is_saved :
  let r := save_document sample_clock [] init_database in
  r.1 = Returns true
  ∧ raw_text <$> documents (durable r.2) !! 1 = Some []
  ∧ dialogs r.2 = [(ShowInfo, "Success", "Document saved successfully as ID: 1")].
Proof. vm_compute. split_and!; reflexivity. Qed.

Lemma str_ltb_app_same (p a b : str) : str_ltb (p ++ a) (p ++ b) = str_ltb a b.
Proof.
  induction p as [|c p IH]; [done|]. simpl.
  by rewrite N.ltb_irrefl, N.eqb_refl, IH.
Qed.

Lemma sample_clock_increasing : increasing sample_clock.
Proof.
  intros m n Hmn. unfold sample_clock. rewrite str_ltb_app_same. simpl.
  apply orb_true_iff. left. apply N.ltb_lt. lia.
Qed.

Lemma update_replaces_stripped_text_witness :
  faults (one_document sample_clock (py "a")) = []
  ∧ ∃ st' row',
      perform sample_clock (Update 1 (py " b ")) (one_document sample_clock (py "a"))
      = (Returns tt, st')
      ∧ documents (live st') !! 1 = Some row'
      ∧ raw_text row' = py "b"
      ∧ str_ltb (sample_clock 0) (last_modified row') = true.
Proof.
  split; [reflexivity|].
  pose proof (update_replaces_stripped_text sample_clock
                (one_document sample_clock (py "a")) 1 (py " b ") eq_refl) as H.
  assert (documents (live (one_document sample_clock (py "a"))) !! 1
          = Some (new_row (py "a") (sample_clock 0))) as E
    by (vm_compute; reflexivity).
  rewrite E in H.
  destruct H as (st' & row' & Hrun & Hrow & Hraw & _ & Hlater & _).
  exists st', row'. split; [exact Hrun|]. split; [exact Hrow|]. split.
  - rewrite Hraw. vm_compute. reflexivity.
  - apply (Hlater sample_clock_increasing).
    exists [Create (py "a")]. vm_compute. reflexivity.
Defined.

(** C4 fails as stated: the text " b " is stored as "b", and when the
    local clock was set back between the create and the update,
    [last_modified] is earlier than it was. *)
Lemma update_strips_and_clock_may_fall_back :
  let st := one_document fallback_clock (py "a") in
  let r := perform fallback_clock (Update 1 (py " b ")) st in
  r.1 = Returns tt
  ∧ raw_text <$> documents (live r.2) !! 1 = Some (py "b")
  ∧ py "b" ≠ py " b "
  ∧ last_modified <$> documents (live st) !! 1
    = Some (py "2024-10-27T02:59:58")
  ∧ last_modified <$> documents (live r.2) !! 1
    = Some (py "2024-10-27T02:00:07")
  ∧ str_ltb (py "2024-10-27T02:59:58") (py "2024-10-27T02:00:07") = false.
Proof. vm_compute. split_and!; try reflexivity. discriminate. Qed.


Lemma ids_reused_after_delete_witness :
  faults init_database = []
  ∧ ∃ st1 st2 st3,
      save_document sample_clock (py "first") init_database = (Returns true, st1)
      ∧ delete_selected_document sample_clock [1] true st1 = (Returns tt, st2)
      ∧ save_document sample_clock (py "second") st2 = (Returns true, st3)
      ∧ raw_text <$> documents (live st3) !! 1 = Some (py "second")
      ∧ document_id <$> audit_log (live st3) = [1; 1; 1].
Proof.
  split; [reflexivity|].
  destruct (ids_reused_after_delete sample_clock init_database
              (py "first") (py "second") eq_refl)
    as (k & st1 & st2 & st3 & e1 & e2 & e3 & Hk & E1 & _ & E2 & _ & E3
        & Hraw & Hlog & He1 & He2 & He3).
  change (default 0 (max_id (documents (live init_database))) + 1)
    with 1 in Hk.
  subst k. exists st1, st2, st3.
  split; [exact E1|]. split; [exact E2|]. split; [exact E3|].
  split; [exact Hraw|].
  injection He1 as Hd1 _. injection He2 as Hd2 _. injection He3 as Hd3 _.
  rewrite Hlog. cbn [init_database live audit_log empty_db app fmap list_fmap].
  rewrite Hd1, Hd2, Hd3. reflexivity.
Defined.


(** *** Search *)

Lemma select_search_raises p1 p2 db :
  select_search p1 p2 db = Raises ("OperationalError", "no such column: doc_type").
Proof. reflexivity. Qed.

(** C2 on the code: a search with an empty (or blank) term clears the
    result tree and returns; a search with any other term raises, whatever
    the store holds, and shows no result: its SELECT names [doc_type],
    [doc_number] and [full_name], which are not columns of [documents].
    So it is for the term SMITH on a store whose one document reads
    "NAME: JOHN SMITH". *)
Theorem on_search_change_raises :
  (∀ st term, strip term = [] →
     on_search_change term st = (Returns tt, set_search_tree [] st))
  ∧ (∀ st term, strip term ≠ [] →
       ∃ e st', on_search_change term st = (Raises e, st')
                ∧ search_tree st' = [] ∧ live st' = live st
                ∧ (faults st = []
                   → e = ("OperationalError", "no such column: doc_type")))
  ∧ (let st := one_document sample_clock (py "NAME: JOHN SMITH") in
     raw_text <$> documents (live st) !! 1 = Some (py "NAME: JOHN SMITH")
     ∧ (on_search_change (py "SMITH") st).1
       = Raises ("OperationalError", "no such column: doc_type")
     ∧ search_tree (on_search_change (py "SMITH") st).2 = []).
Proof.
  split_and!.
  - intros st term E. unfold on_search_change, bind. cbn.
    by rewrite E.
  - intros st term Hne. unfold on_search_change, bind. cbn.
    rewrite bool_decide_eq_false_2 by done.
    unfold execute, sqlite3_call. cbn [faults set_search_tree].
    destruct (faults st) as [|[|] rest] eqn:Hf; cbn.
    + do 2 eexists. split; [reflexivity|]. by split_and!.
    + do 2 eexists. split; [reflexivity|]. by split_and!.
    + do 2 eexists. split; [reflexivity|]. by split_and!.
  - vm_compute. split_and!; reflexivity.
Qed.

(** *** Delete *)

(** C5 on the code: deleting an id that no document has raises nothing:
    the box shown reports success and the audit log gains a DELETE entry
    for that id.  The edit path, for the same id, shows "Document not
    found".  Such an id can be one the documents tree still lists: two
    documents are saved and both rows selected for deletion; the DELETE
    of the second fails, so an error box is shown and the tree is not
    reloaded, while the first document is gone from disk, its deletion
    stored by the commit of [log_action]; a second delete, of the still
    listed document 1, finds no row and reports success.  For a document
    that is present, the delete removes the row, the details query finds
    nothing afterwards, and the log keeps its old rows and gains the
    DELETE entry. *)
Theorem delete_absent_document_reports_success :
  (∀ clock st k, faults st = [] → documents (live st) !! k = None →
       ∃ st' e,
         delete_selected_document clock [k] true st = (Returns tt, st')
         ∧ documents (live st') = documents (live st)
         ∧ dialogs st' = dialogs st ++ [success_deleted]
         ∧ audit_log (live st') = audit_log (live st) ++ [e]
         ∧ document_id e = k ∧ action e = py "DELETE")
  ∧ (∀ st k, faults st = [] → documents (live st) !! k = None →
       ∃ st', edit_selected_document [k] st = (Returns None, st')
              ∧ dialogs st' = dialogs st ++ [not_found]
              ∧ live st' = live st)
  ∧ (let st1 := run_ops sample_clock [Create (py "a"); Create (py "b")]
                  init_database in
     let st2 := (delete_selected_document sample_clock [1; 2] true
                   (set_faults [false; false; false; false; true] st1)).2 in
     let r := delete_selected_document sample_clock [1] true st2 in
     (fun row : Z * str * str * str => row.1.1.1) <$> documents_tree st1
     = [1; 2]
     ∧ (fun d : box * string * string => d.1) <$> last (dialogs st2)
       = Some (ShowError, "Error"%string)
     ∧ (fun row : Z * str * str * str => row.1.1.1) <$> documents_tree st2
       = [1; 2]
     ∧ documents (live st2) !! 1 = None
     ∧ documents (durable st2) !! 1 = None
     ∧ durable st2 = live st2
     ∧ faults st2 = []
     ∧ r.1 = Returns tt
     ∧ last (dialogs r.2) = Some success_deleted
     ∧ (fun e => (document_id e, action e)) <$> audit_log (live r.2)
       = [(1, py "ADD"); (2, py "ADD"); (1, py "DELETE"); (1, py "DELETE")]
     ∧ (edit_selected_document [1] st2).1 = Returns None
     ∧ last (dialogs (edit_selected_document [1] st2).2) = Some not_found)
  ∧ (∀ clock st k row, faults st = [] → documents (live st) !! k = Some row →
       ∃ st' e,
         delete_selected_document clock [k] true st = (Returns tt, st')
         ∧ documents (live st') !! k = None
         ∧ show_document_details k st' = (Returns None, st')
         ∧ audit_log (live st') = audit_log (live st) ++ [e]
         ∧ document_id e = k ∧ action e = py "DELETE").
Proof.
  split_and!.
  - intros clock st k Hf Hk. rewrite delete_selected_document_ok by done.
    do 2 eexists. split; [reflexivity|].
    cbn [live documents audit_log dialogs deleted_db logged with_documents].
    split_and!; [by apply delete_id|reflexivity..].
  - intros st k Hf Hk. rewrite edit_selected_document_ok, Hk by done.
    eexists. split; [reflexivity|]. by destruct st.
  - vm_compute. split_and!; reflexivity.
  - intros clock st k row Hf Hk. rewrite delete_selected_document_ok by done.
    do 2 eexists. split; [reflexivity|].
    cbn [live documents audit_log dialogs deleted_db logged with_documents].
    split_and!; [apply lookup_delete_eq| |reflexivity..].
    rewrite show_document_details_ok by reflexivity.
    cbn [live documents deleted_db logged with_documents].
    by rewrite lookup_delete_eq.
Qed.

End StoreFacts.

(** ** More on the text cleaner *)

Module CleanerMoreFacts.

Import PyStrFacts OCRApp CleanerFacts CleanedText.

Local Open Scope N_scope.

Lemma fix_char_corrected c : fix_char c = corrected c.
Proof.
  unfold corrected. fix_char_cases c.
  rewrite bool_decide_eq_false_2; [|set_solver].
  destruct (N.eqb_spec c 123); [done|]. by destruct (N.eqb_spec c 125).
Qed.

Lemma corrected_not_misread c : corrected c ∉ misread.
Proof.
  unfold corrected, misread. case_bool_decide; [set_solver|].
  destruct (N.eqb_spec c 123); [set_solver|].
  destruct (N.eqb_spec c 125); set_solver.
Qed.

Lemma corrected_id c : c ∉ misread → corrected c = c.
Proof.
  unfold corrected, misread. intros H.
  rewrite bool_decide_eq_false_2; [|set_solver].
  destruct (N.eqb_spec c 123); [set_solver|].
  destruct (N.eqb_spec c 125); set_solver.
Qed.

Lemma fix_common_errors_clean (text : str) :
  Forall (fun c => c ∉ misread) (fix_common_errors text).
Proof.
  rewrite fix_common_errors_fmap. apply Forall_fmap, Forall_forall.
  intros c _. simpl. rewrite fix_char_corrected. apply corrected_not_misread.
Qed.

(** X1: [fix_common_errors] works code point by code point: the result
    is as long as the text, position by position it holds the corrected
    code point, none of the five misread characters is left, and a text
    without them is returned as it is. *)
Theorem fix_common_errors_pointwise (text : str) :
  length (fix_common_errors text) = length text
  ∧ (∀ i, fix_common_errors text !! i = corrected <$> text !! i)
  ∧ Forall (fun c => c ∉ misread) (fix_common_errors text)
  ∧ (Forall (fun c => c ∉ misread) text → fix_common_errors text = text).
Proof.
  split_and!; [| |apply fix_common_errors_clean|];
    rewrite fix_common_errors_fmap.
  - by rewrite length_fmap.
  - intros i. rewrite list_lookup_fmap.
    destruct (text !! i); simpl; [|done]. by rewrite fix_char_corrected.
  - intros H. induction H as [|c l Hc _ IH]; [done|].
    rewrite fmap_cons, IH, fix_char_corrected, corrected_id; done.
Qed.

(** The first and the last code point of joined lines. *)
Lemma join_lines_head (ls : list str) :
  ls ≠ [] →
  Forall (fun l => ∃ c s, l = c :: s ∧ isspace c = false) ls →
  ∃ c s, join [LF] ls = c :: s ∧ isspace c = false.
Proof.
  intros Hne Hls. destruct ls as [|l ls]; [done|].
  apply Forall_cons in Hls as [(c & s & -> & Hc) _].
  destruct ls; simpl; eauto.
Qed.

Lemma join_lines_last (ls : list str) :
  ls ≠ [] →
  Forall (fun l => ∃ s c, l = s ++ [c] ∧ isspace c = false) ls →
  ∃ s c, join [LF] ls = s ++ [c] ∧ isspace c = false.
Proof.
  induction ls as [|l ls IH]; intros Hne Hls; [done|].
  apply Forall_cons in Hls as [(s & c & -> & Hc) Hls].
  destruct ls as [|l' ls].
  - simpl. eauto.
  - destruct (IH ltac:(done) Hls) as (s' & c' & Hj & Hc').
    exists ((s ++ [c]) ++ LF :: s'), c'. split; [|done].
    change (join [LF] ((s ++ [c]) :: l' :: ls))
      with ((s ++ [c]) ++ LF :: join [LF] (l' :: ls)).
    rewrite Hj. by rewrite <- !app_assoc.
Qed.

Lemma join_lines_chars (P : N → Prop) (ls : list str) :
  P LF → Forall (Forall P) ls → Forall P (join [LF] ls).
Proof.
  intros HLF. induction 1 as [|l ls Hl Hls IH]; [constructor|].
  destruct ls as [|l' ls]; [done|].
  change (join [LF] (l :: l' :: ls)) with (l ++ LF :: join [LF] (l' :: ls)).
  apply Forall_app. split; [done|]. by constructor.
Qed.

Lemma strip_framed (s : str) :
  (∃ c t, s = c :: t ∧ isspace c = false) →
  (∃ t c, s = t ++ [c] ∧ isspace c = false) →
  strip s = s.
Proof.
  intros (c & t & E & Hc) (t' & c' & E' & Hc'). unfold strip.
  rewrite E. simpl. rewrite Hc, <- E, E'. by apply rstrip_snoc.
Qed.

Section Cleaner.

Variable uni_isalnum : N → bool.

Local Abbreviation clean_line := (clean_line uni_isalnum).
Local Abbreviation process_line := (process_line uni_isalnum).
Local Abbreviation post_process_text := (post_process_text uni_isalnum).

Lemma clean_line_tidy line l :
  clean_line line = Some l →
  tidy l ∧ (∃ c s, l = c :: s ∧ isspace c = false)
         ∧ (∃ s c, l = s ++ [c] ∧ isspace c = false).
Proof.
  intros (Hv & ws & Hne & Hws & -> & Hfix)%clean_line_Some.
  split_and!; [split_and!|..].
  - by apply join_words_nonempty.
  - by apply strip_join_words.
  - by rewrite split_ws_join.
  - apply Forall_forall. intros c Hc. by eapply join_words_chars.
  - rewrite <- Hfix. apply fix_common_errors_clean.
  - by apply join_words_head.
  - by apply join_words_last.
Qed.

Lemma omap_clean_line_Forall (P : str → Prop) (lines : list str) :
  (∀ line l, clean_line line = Some l → P l) →
  Forall P (omap clean_line lines).
Proof.
  intros HP. induction lines as [|line lines IH]; [constructor|].
  rewrite omap_cons_eq. destruct (clean_line line) eqn:E; [|done].
  constructor; [by eapply HP|done].
Qed.

Lemma kept_lines_tidy (lines : list str) :
  Forall (fun l => tidy l
            ∧ (∃ c s, l = c :: s ∧ isspace c = false)
            ∧ (∃ s c, l = s ++ [c] ∧ isspace c = false))
         (omap clean_line lines).
Proof. apply omap_clean_line_Forall. apply clean_line_tidy. Qed.

Lemma cleaned_text_head (lines : list str) :
  omap clean_line lines ≠ [] →
  ∃ c s, join [LF] (omap clean_line lines) = c :: s ∧ isspace c = false.
Proof.
  intros Hne. apply join_lines_head; [done|].
  eapply Forall_impl; [apply kept_lines_tidy|]. by intros l (_ & ? & _).
Qed.

(** The cleaned text has no whitespace at either end. *)
Lemma post_process_text_stripped (text : str) :
  strip (post_process_text text) = post_process_text text.
Proof.
  rewrite post_process_text_eq.
  destruct (decide (omap clean_line (split_on LF text) = [])) as [->|Hne];
    [done|].
  apply strip_framed; [by apply cleaned_text_head|].
  apply join_lines_last; [done|].
  eapply Forall_impl; [apply kept_lines_tidy|]. by intros l (_ & _ & ?).
Qed.

(** X2: the cleaned text is in normal form.  It has no whitespace at
    either end, so the test [cleaned_text.strip()] of the caller only
    asks whether any line was kept; its code points are newlines, single
    spaces and code points that are no whitespace, none of them one of
    the five misread characters; and when it is not empty each of its
    lines is non-empty, stripped and has its words separated by one
    space. *)
Theorem cleaned_text_normal_form (text : str) :
  strip (post_process_text text) = post_process_text text
  ∧ (strip (post_process_text text) = []
     ↔ omap clean_line (split_on LF text) = [])
  ∧ Forall (fun c => c = LF ∨ c = SPACE ∨ isspace c = false)
           (post_process_text text)
  ∧ Forall (fun c => c ∉ misread) (post_process_text text)
  ∧ (post_process_text text ≠ [] →
     Forall tidy (split_on LF (post_process_text text))).
Proof.
  pose proof (post_process_text_stripped text) as Hstrip.
  rewrite post_process_text_eq in *.
  set (kept := omap clean_line (split_on LF text)) in *.
  pose proof (kept_lines_tidy (split_on LF text)) as Hk. fold kept in Hk.
  split_and!.
  - done.
  - rewrite Hstrip. split; [|by intros ->].
    intros E. destruct (decide (kept = [])) as [|Hne]; [done|].
    destruct (cleaned_text_head _ Hne) as (c & s & E' & _).
    fold kept in E'. by rewrite E' in E.
  - apply join_lines_chars; [by left|].
    eapply Forall_impl; [exact Hk|]. intros l ((_ & _ & _ & H & _) & _).
    eapply Forall_impl; [exact H|]. intros c [?|?]; auto.
  - apply join_lines_chars; [unfold misread, LF; set_solver|].
    eapply Forall_impl; [exact Hk|]. by intros l ((_ & _ & _ & _ & ?) & _).
  - intros Hne. unfold kept. rewrite split_on_cleaned.
    + eapply Forall_impl; [exact Hk|]. by intros l [? _].
    + intros E. fold kept in E. by rewrite E in Hne.
Qed.

(** X3: the characters are corrected before the line is judged, so a
    line of three or more bars and square brackets is not dropped as
    noise: it is kept as a row of capital I. *)
Theorem bars_survive_as_capital_I (acc : list str) (line : str) :
  Forall (fun c => c ∈ [124; 91; 93]) line → (3 ≤ length line)%nat →
  process_line acc line = acc ++ [replicate (length line) 73].
Proof.
  intros Hbars Hlen.
  assert (is_word line) as Hw.
  { split; [destruct line; [simpl in Hlen; lia|done]|].
    eapply Forall_impl; [exact Hbars|]. intros c Hc. simpl in Hc.
    repeat (apply elem_of_cons in Hc as [->|Hc]; [done|]).
    by apply elem_of_nil in Hc. }
  assert (fix_common_errors line = replicate (length line) 73) as Hfix.
  { rewrite fix_common_errors_fmap. clear Hlen Hw.
    induction Hbars as [|c l Hc _ IH]; [done|].
    rewrite fmap_cons, IH. simpl. f_equal.
    repeat (apply elem_of_cons in Hc as [->|Hc]; [done|]).
    by apply elem_of_nil in Hc. }
  rewrite process_line_clean. unfold OCRApp.clean_line.
  pose proof (strip_join_words [line] ltac:(done) ltac:(by constructor)) as Hs.
  simpl in Hs. rewrite Hs.
  rewrite bool_decide_eq_false_2 by apply Hw.
  rewrite split_ws_word by done. cbn [join]. rewrite Hfix.
  assert (is_valid uni_isalnum (replicate (length line) 73) = true) as ->; [|done].
  unfold is_valid. rewrite length_replicate. apply andb_true_intro. split.
  - apply N.ltb_lt. lia.
  - destruct line as [|c line]; [simpl in Hlen; lia|]. done.
Qed.

End Cleaner.

Lemma bars_survive_as_capital_I_witness :
  process_line (fun _ => false) [] (py "|[]") = [py "III"].
Proof.
  apply (bars_survive_as_capital_I (fun _ => false) [] (py "|[]")).
  - repeat constructor; set_solver.
  - simpl. lia.
Defined.

End CleanerMoreFacts.

(** ** Dropped files *)

Module DropTargetFacts.

Import DropTarget.

Local Open Scope N_scope.

Lemma lstrip_chars_spec (chars s : str) :
  ∃ a, s = a ++ lstrip_chars chars s ∧ Forall (fun c => c ∈ chars) a
       ∧ ∀ c, head (lstrip_chars chars s) = Some c → c ∉ chars.
Proof.
  induction s as [|c s (a & E & Ha & Hh)]; simpl.
  - exists []. by split_and!.
  - case_bool_decide as Hc.
    + exists (c :: a). split_and!; [by rewrite E at 1|by constructor|done].
    + exists []. split_and!; [done|constructor|]. by intros ? [= <-].
Qed.

Lemma lstrip_chars_app (chars a s : str) :
  Forall (fun c => c ∈ chars) a →
  lstrip_chars chars (a ++ s) = lstrip_chars chars s.
Proof.
  induction 1 as [|c a Hc _ IH]; [done|]. simpl.
  by rewrite bool_decide_eq_true_2.
Qed.

Lemma lstrip_chars_id (chars s : str) :
  (∀ c, head s = Some c → c ∉ chars) → lstrip_chars chars s = s.
Proof.
  destruct s as [|c s]; [done|]. intros H. simpl.
  rewrite bool_decide_eq_false_2; [done|]. by apply H.
Qed.

Lemma rstrip_chars_snoc (chars s : str) c :
  rstrip_chars chars (s ++ [c]) =
  if bool_decide (c ∈ chars) then rstrip_chars chars s else s ++ [c].
Proof.
  unfold rstrip_chars. rewrite reverse_snoc. simpl.
  case_bool_decide; [done|]. by rewrite reverse_cons, reverse_involutive.
Qed.

Lemma rstrip_chars_nil chars : rstrip_chars chars [] = [].
Proof. done. Qed.

Lemma rstrip_chars_spec (chars s : str) :
  ∃ b, s = rstrip_chars chars s ++ b ∧ Forall (fun c => c ∈ chars) b
       ∧ ∀ c, last (rstrip_chars chars s) = Some c → c ∉ chars.
Proof.
  induction s as [|c s (b & E & Hb & Hl)] using rev_ind.
  - exists []. by split_and!.
  - rewrite rstrip_chars_snoc. case_bool_decide as Hc.
    + exists (b ++ [c]). split_and!; [|by apply Forall_app; split; [|constructor]|done].
      rewrite E at 1. by rewrite <- app_assoc.
    + exists []. split_and!; [by rewrite app_nil_r|constructor|].
      intros c'. rewrite last_snoc. by intros [= <-].
Qed.

Lemma rstrip_chars_app (chars s b : str) :
  Forall (fun c => c ∈ chars) b →
  rstrip_chars chars (s ++ b) = rstrip_chars chars s.
Proof.
  induction b as [|c b IH] using rev_ind; intros Hb.
  - by rewrite app_nil_r.
  - apply Forall_app in Hb as [Hb Hc]. apply Forall_cons in Hc as [Hc _].
    rewrite app_assoc, rstrip_chars_snoc, bool_decide_eq_true_2 by done.
    by apply IH.
Qed.

Lemma rstrip_chars_id (chars s : str) :
  (∀ c, last s = Some c → c ∉ chars) → rstrip_chars chars s = s.
Proof.
  destruct s as [|c s _] using rev_ind; [done|]. intros H.
  rewrite rstrip_chars_snoc, bool_decide_eq_false_2; [done|].
  apply H. by rewrite last_snoc.
Qed.

Lemma strip_chars_id (chars s : str) :
  (∀ c, head s = Some c → c ∉ chars) → (∀ c, last s = Some c → c ∉ chars) →
  strip_chars chars s = s.
Proof.
  intros Hh Hl. unfold strip_chars.
  rewrite lstrip_chars_id by done. by apply rstrip_chars_id.
Qed.

(** The head of a prefix is the head of the list. *)
Lemma head_of_prefix (s b : str) c : head s = Some c → head (s ++ b) = Some c.
Proof. by destruct s. Qed.

Lemma strip_chars_spec (chars s : str) :
  ∃ a b, s = a ++ strip_chars chars s ++ b
         ∧ Forall (fun c => c ∈ chars) a ∧ Forall (fun c => c ∈ chars) b
         ∧ (∀ c, head (strip_chars chars s) = Some c → c ∉ chars)
         ∧ (∀ c, last (strip_chars chars s) = Some c → c ∉ chars).
Proof.
  unfold strip_chars.
  destruct (lstrip_chars_spec chars s) as (a & Ea & Ha & Hh).
  destruct (rstrip_chars_spec chars (lstrip_chars chars s)) as (b & Eb & Hb & Hl).
  exists a, b. split_and!; [|done..| |done].
  - rewrite <- Eb. done.
  - intros c Hc. apply Hh. rewrite Eb. by apply head_of_prefix.
Qed.

Lemma wrapping_brace c : c ∈ [123; 125] → wrapping c = true.
Proof.
  unfold wrapping. intros [->|H]%elem_of_cons; [done|].
  apply elem_of_cons in H as [->|H]; [done|]. by apply elem_of_nil in H.
Qed.

Lemma wrapping_quote c : c ∈ [34] → wrapping c = true.
Proof.
  unfold wrapping. intros [->|H]%elem_of_cons; [done|].
  by apply elem_of_nil in H.
Qed.

Lemma bare_head (path : str) c (chars : str) :
  bare path → (∀ x, x ∈ chars → wrapping x = true) →
  head path = Some c → c ∉ chars.
Proof.
  intros [(c' & Hc' & Hw) _] Hchars Hc Hin. rewrite Hc in Hc'.
  injection Hc' as <-. apply Hchars in Hin. congruence.
Qed.

Lemma bare_last (path : str) c (chars : str) :
  bare path → (∀ x, x ∈ chars → wrapping x = true) →
  last path = Some c → c ∉ chars.
Proof.
  intros [_ (c' & Hc' & Hw)] Hchars Hc Hin. rewrite Hc in Hc'.
  injection Hc' as <-. apply Hchars in Hin. congruence.
Qed.

Lemma strip_quote_bare (path : str) : bare path → strip_chars [34] path = path.
Proof.
  intros Hb. apply strip_chars_id; intros c Hc.
  - eapply bare_head; [done|apply wrapping_quote|done].
  - eapply bare_last; [done|apply wrapping_quote|done].
Qed.

Lemma file_path_bare (path : str) : bare path → file_path path = path.
Proof.
  intros Hb. unfold file_path.
  rewrite (strip_chars_id [123; 125]).
  - by apply strip_quote_bare.
  - intros c Hc. eapply bare_head; [done|apply wrapping_brace|done].
  - intros c Hc. eapply bare_last; [done|apply wrapping_brace|done].
Qed.

Lemma strip_chars_wrapped (chars a path b : str) :
  Forall (fun c => c ∈ chars) a → Forall (fun c => c ∈ chars) b →
  (∃ c, head path = Some c ∧ c ∉ chars) →
  (∃ c, last path = Some c ∧ c ∉ chars) →
  strip_chars chars (a ++ path ++ b) = path.
Proof.
  intros Ha Hb (c & Hc & Hnc) (c' & Hc' & Hnc'). unfold strip_chars.
  rewrite lstrip_chars_app by done.
  rewrite lstrip_chars_id.
  - rewrite rstrip_chars_app by done. apply rstrip_chars_id.
    intros x Hx. congruence.
  - intros x Hx. rewrite (head_of_prefix _ _ _ Hc) in Hx. congruence.
Qed.

Lemma bare_not_in (path : str) (chars : str) :
  bare path → (∀ x, x ∈ chars → wrapping x = true) →
  (∃ c, head path = Some c ∧ c ∉ chars) ∧ (∃ c, last path = Some c ∧ c ∉ chars).
Proof.
  intros Hb Hchars. pose proof Hb as [(c & Hc & _) (c' & Hc' & _)]. split.
  - exists c. split; [done|]. by eapply bare_head.
  - exists c'. split; [done|]. by eapply bare_last.
Qed.

(** X4: the path that [handle_drop] passes on is the dropped data
    without a run of braces and double quotes at its two ends: what is
    cut off holds nothing else, and the path begins and ends with no
    double quote. *)
Theorem file_path_is_the_middle (event_data : str) :
  ∃ before after,
    event_data = before ++ file_path event_data ++ after
    ∧ Forall (fun c => wrapping c = true) before
    ∧ Forall (fun c => wrapping c = true) after
    ∧ (∀ c, head (file_path event_data) = Some c → c ≠ 34)
    ∧ (∀ c, last (file_path event_data) = Some c → c ≠ 34).
Proof.
  unfold file_path.
  destruct (strip_chars_spec [123; 125] event_data) as (a & b & E & Ha & Hb & _).
  destruct (strip_chars_spec [34] (strip_chars [123; 125] event_data))
    as (a' & b' & E' & Ha' & Hb' & Hh & Hl).
  exists (a ++ a'), (b' ++ b). split_and!.
  - rewrite E at 1. rewrite E' at 1. by rewrite <- !app_assoc.
  - apply Forall_app. split; (eapply Forall_impl; [done|]);
      [apply wrapping_brace|apply wrapping_quote].
  - apply Forall_app. split; (eapply Forall_impl; [done|]);
      [apply wrapping_quote|apply wrapping_brace].
  - intros c Hc ->. apply Hh in Hc. set_solver.
  - intros c Hc ->. apply Hl in Hc. set_solver.
Qed.

(** X5: a path that has no brace or double quote at its ends is passed
    on as it is, also when Tk wrapped it in braces or it came in double
    quotes; but a drop of two files in braces is not split: the path
    passed on is the two paths with the inner braces left between
    them. *)
Theorem file_path_unwraps (path other : str) :
  bare path → bare other →
  file_path path = path
  ∧ file_path ([123] ++ path ++ [125]) = path
  ∧ file_path ([34] ++ path ++ [34]) = path
  ∧ file_path ([123] ++ path ++ [125] ++ [32] ++ [123] ++ other ++ [125])
    = path ++ [125] ++ [32] ++ [123] ++ other.
Proof.
  intros Hp Ho.
  destruct (bare_not_in path [123; 125] Hp wrapping_brace) as [Hh Hl].
  destruct (bare_not_in other [123; 125] Ho wrapping_brace) as [_ Hl'].
  pose proof (file_path_bare path Hp) as Hpath.
  split_and!; [done| | |].
  - unfold file_path.
    rewrite (strip_chars_wrapped [123; 125] [123] path [125]);
      [by apply strip_quote_bare|repeat constructor; set_solver..|done|done].
  - unfold file_path. rewrite (strip_chars_id [123; 125]).
    + destruct (bare_not_in path [34] Hp wrapping_quote) as [Hh' Hl''].
      apply (strip_chars_wrapped [34] [34] path [34]);
        [repeat constructor; set_solver..|done|done].
    + intros c [= <-]. set_solver.
    + intros c. rewrite app_assoc, last_snoc. intros [= <-]. set_solver.
  - unfold file_path.
    destruct Hh as (c & Hc & Hnc). destruct Hl' as (c' & Hc' & Hnc').
    replace ([123] ++ path ++ [125] ++ [32] ++ [123] ++ other ++ [125])
      with ([123] ++ (path ++ [125] ++ [32] ++ [123] ++ other) ++ [125])
      by (by rewrite <- !app_assoc).
    rewrite (strip_chars_wrapped [123; 125] [123]
               (path ++ [125] ++ [32] ++ [123] ++ other) [125]).
    + apply strip_chars_id.
      * intros x Hx. rewrite (head_of_prefix _ _ _ Hc) in Hx.
        injection Hx as <-. eapply bare_head; [exact Hp|apply wrapping_quote|done].
      * intros x Hx. apply last_Some in Hc' as [o' ->].
        rewrite !app_assoc, last_snoc in Hx. injection Hx as <-.
        eapply bare_last; [exact Ho|apply wrapping_quote|].
        by rewrite last_snoc.
    + repeat constructor; set_solver.
    + repeat constructor; set_solver.
    + exists c. split; [by apply head_of_prefix|done].
    + exists c'. split; [|done]. apply last_Some in Hc' as [o' ->].
      by rewrite !app_assoc, last_snoc.
Qed.

Lemma file_path_unwraps_witness :
  file_path (py "C:/scans/a.png") = py "C:/scans/a.png"
  ∧ file_path ([123] ++ py "C:/scans/a.png" ++ [125]) = py "C:/scans/a.png"
  ∧ file_path ([34] ++ py "C:/scans/a.png" ++ [34]) = py "C:/scans/a.png"
  ∧ file_path ([123] ++ py "C:/scans/a.png" ++ [125] ++ [32] ++ [123]
               ++ py "C:/my scans/b.png" ++ [125])
    = py "C:/scans/a.png" ++ [125] ++ [32] ++ [123]
      ++ py "C:/my scans/b.png".
Proof.
  apply (file_path_unwraps (py "C:/scans/a.png") (py "C:/my scans/b.png")).
  - split; eexists; (split; [reflexivity|reflexivity]).
  - split; eexists; (split; [reflexivity|reflexivity]).
Defined.

End DropTargetFacts.

(** ** The window of [src/Pytesseract.py] *)

Module OCRWindowFacts.

Import PyStrFacts OCRApp CleanerFacts CleanerMoreFacts OCRWindow.

Local Open Scope N_scope.

Section Recognition.

Variable uni_isalnum : N → bool.
Variables image float : Type.
Variable truediv : N → N → float.
Variable imread : str → option image.
Variable shape : image → N * N.
Variable resize : image → float → outcome image.
Variable cvtColor bilateralFilter clahe_apply adaptiveThreshold
  : image → outcome image.
Variable image_to_string : image → outcome str.

Local Abbreviation preprocess_body :=
  (preprocess_body image float truediv imread shape resize cvtColor
     bilateralFilter clahe_apply adaptiveThreshold).
Local Abbreviation recognise :=
  (recognise image float truediv imread shape resize cvtColor
     bilateralFilter clahe_apply adaptiveThreshold image_to_string).
Local Abbreviation process_image :=
  (process_image uni_isalnum image float truediv imread shape resize cvtColor
     bilateralFilter clahe_apply adaptiveThreshold image_to_string).
Local Abbreviation failure_printed :=
  (failure_printed image float truediv imread shape resize cvtColor
     bilateralFilter clahe_apply adaptiveThreshold).
Local Abbreviation post_process_text := (post_process_text uni_isalnum).

Lemma display_cleaned (text : str) w :
  display (post_process_text text) w =
  (Returns tt,
   mkWindow (result_text w ++
             if bool_decide (post_process_text text = []) then No_text
             else Extracted_Text (post_process_text text))
            (printed w) (errors w)).
Proof.
  unfold display. rewrite post_process_text_stripped.
  by case_bool_decide.
Qed.

(** X6: when OpenCV and Tesseract return a text, [process_image] returns
    with no error box and nothing printed, and the result area holds
    "No text was detected in the image." if the cleaned text is empty
    and "Extracted Text:" with the cleaned text below it otherwise. *)
Theorem process_image_shows_cleaned_text (image_path text : str) w :
  recognise image_path = Returns text →
  process_image image_path w =
  (Returns tt,
   mkWindow (if bool_decide (post_process_text text = []) then No_text
             else Extracted_Text (post_process_text text))
            (printed w) (errors w)).
Proof.
  intros H. unfold OCRWindow.recognise in H.
  destruct (preprocess_body image_path) as [img|e] eqn:E; simpl in H; [|done].
  unfold OCRWindow.process_image, extract_text, preprocess_image, try_w, bind, call.
  cbn [result_text_delete result_text_insert printed errors result_text].
  rewrite E, H.
  cbn [result_text_delete result_text_insert printed errors result_text ret].
  rewrite display_cleaned. unfold ret.
  cbn [printed errors result_text app].
  rewrite display_cleaned. cbn [printed errors result_text app].
  reflexivity.
Qed.

(** X7: when OpenCV or Tesseract raises, [extract_text] reports the
    error and returns [None]; [process_image] then fails on
    [None.strip()], reports that second error too and returns.  The
    user gets two error boxes, and the result area ends with the
    message about ['NoneType'], not with the cause. *)
Theorem process_image_masks_the_cause (image_path : str) e w :
  recognise image_path = Raises e →
  process_image image_path w =
  (Returns tt,
   mkWindow (py ("An error occurred: " +:+ NoneType_strip.2))
            (printed w ++ failure_printed image_path e)
            (errors w ++ failure_errors e)).
Proof.
  intros H. unfold OCRWindow.recognise in H.
  unfold OCRWindow.failure_printed, failure_errors.
  unfold OCRWindow.process_image, extract_text, preprocess_image, try_w, bind, call.
  cbn [result_text_delete result_text_insert printed errors result_text].
  destruct (preprocess_body image_path) as [img|e'] eqn:E; simpl in H.
  - rewrite H. unfold report, bind, print, showerror, raise, ret.
    cbn [result_text_delete result_text_insert printed errors result_text app].
    by rewrite <- !app_assoc.
  - injection H as ->. unfold report, bind, print, showerror, raise, ret.
    cbn [result_text_delete result_text_insert printed errors result_text app].
    by rewrite <- !app_assoc.
Qed.

End Recognition.

Lemma process_image_shows_cleaned_text_witness :
  process_image (fun _ => false) unit unit (fun _ _ => tt) readable same_size
    (fun i _ => Returns i) unchanged unchanged unchanged unchanged
    (reads (py "Hello  world")) (py "a.png") (mkWindow [] [] [])
  = (Returns tt, mkWindow (Extracted_Text (py "Hello world")) [] []).
Proof.
  exact (process_image_shows_cleaned_text (fun _ => false) unit unit
           (fun _ _ => tt) readable same_size (fun i _ => Returns i)
           unchanged unchanged unchanged unchanged
           (reads (py "Hello  world")) (py "a.png") (py "Hello  world")
           (mkWindow [] [] []) eq_refl).
Defined.

Lemma process_image_masks_the_cause_witness :
  process_image (fun _ => false) unit unit (fun _ _ => tt) unreadable same_size
    (fun i _ => Returns i) unchanged unchanged unchanged unchanged
    (reads (py "Hello")) (py "missing.png") (mkWindow [] [] [])
  = (Returns tt,
     mkWindow
       (py "An error occurred: 'NoneType' object has no attribute 'strip'")
       ["Error in preprocessing: Failed to load image";
        "An error occurred: Failed to load image";
        "An error occurred: 'NoneType' object has no attribute 'strip'"]
       [("Error", "An error occurred: Failed to load image");
        ("Error",
         "An error occurred: 'NoneType' object has no attribute 'strip'")]).
Proof.
  exact (process_image_masks_the_cause (fun _ => false) unit unit
           (fun _ _ => tt) unreadable same_size (fun i _ => Returns i)
           unchanged unchanged unchanged unchanged
           (reads (py "Hello")) (py "missing.png")
           ("Exception", "Failed to load image")
           (mkWindow [] [] []) eq_refl).
Defined.

End OCRWindowFacts.

(** ** Rules for methods *)

Module HoareFacts.

Import DocumentManager Hoare.

Local Open Scope Z_scope.
Local Open Scope method_scope.

Lemma wp_ret {A} (a : A) Q E st : Q a st → wp (ret a) Q E st.
Proof. done. Qed.

Lemma wp_bind {A B} (m : M A) (k : A → M B) Q E st :
  wp m (fun a st' => wp (k a) Q E st') E st → wp (bind m k) Q E st.
Proof. unfold wp, bind. by destruct (m st) as [[a|e] st']. Qed.

Lemma wp_try_m {A} (body : M A) handler Q E st :
  wp body Q (fun e st' => wp (handler e) Q E st') st →
  wp (try_m body handler) Q E st.
Proof. unfold wp, try_m. by destruct (body st) as [[a|e] st']. Qed.

Lemma wp_mono {A} (m : M A) (Q Q' : A → State → Prop) (E E' : exception → State → Prop) st :
  wp m Q E st →
  (∀ a st', Q a st' → Q' a st') → (∀ e st', E e st' → E' e st') →
  wp m Q' E' st.
Proof. unfold wp. destruct (m st) as [[a|e] st']; auto. Qed.

Lemma wp_eq {A} (m : M A) Q E st :
  wp m Q E st ↔
  match m st with
  | (Returns a, st') => Q a st'
  | (Raises e, st') => E e st'
  end.
Proof. done. Qed.

(** A call into [sqlite3] fails on a fault and goes on otherwise. *)
Lemma wp_sqlite3_call {A} (call : State → outcome A * State) Q E st :
  (∀ rest, faults st = true :: rest →
           E ("OperationalError", "disk I/O error")%string (set_faults rest st)) →
  (head (faults st) ≠ Some true →
   wp call Q E (set_faults (tail (faults st)) st)) →
  wp (sqlite3_call call) Q E st.
Proof.
  intros Hfail Hok. unfold wp, sqlite3_call in *.
  destruct (faults st) as [|[] rest] eqn:Hf.
  - by apply Hok.
  - by apply Hfail.
  - by apply Hok.
Qed.

Lemma wp_execute {A} (stmt : DB → outcome (A * DB)) Q E st :
  (∀ rest, faults st = true :: rest →
           E ("OperationalError", "disk I/O error")%string (set_faults rest st)) →
  (head (faults st) ≠ Some true →
   match stmt (live st) with
   | Returns (a, db) => Q a (set_live db (set_faults (tail (faults st)) st))
   | Raises e => E e (set_faults (tail (faults st)) st)
   end) →
  wp (execute stmt) Q E st.
Proof.
  intros Hfail Hok. apply wp_sqlite3_call; [done|].
  intros H. specialize (Hok H). unfold wp. cbn [live set_faults].
  by destruct (stmt (live st)) as [[a db]|e].
Qed.

Lemma wp_commit Q E st :
  (∀ rest, faults st = true :: rest →
           E ("OperationalError", "disk I/O error")%string (set_faults rest st)) →
  (head (faults st) ≠ Some true →
   Q tt (set_durable (live st) (set_faults (tail (faults st)) st))) →
  wp commit Q E st.
Proof. intros Hfail Hok. apply wp_sqlite3_call; [done|]. exact Hok. Qed.

Lemma wp_messagebox kind title message Q E st :
  Q tt (set_dialogs (dialogs st ++ [(kind, title, message)]) st) →
  wp (messagebox kind title message) Q E st.
Proof. done. Qed.

Lemma wp_print line Q E st :
  Q tt (set_printed (printed st ++ [line]) st) → wp (print line) Q E st.
Proof. done. Qed.

Lemma wp_datetime_now clock Q E st :
  Q (clock (ticks st)) (set_ticks (S (ticks st)) st) →
  wp (datetime_now clock) Q E st.
Proof. done. Qed.

(** *** Methods that let no exception out *)

Lemma returns_try_m {A} (body : M A) handler st :
  (∀ e st', returns (handler e) st') → returns (try_m body handler) st.
Proof.
  intros H. unfold returns, wp, try_m.
  destruct (body st) as [[a|e] st']; [done|]. apply H.
Qed.

Lemma returns_bind {A B} (m : M A) (k : A → M B) st :
  returns m st → (∀ a st', returns (k a) st') → returns (bind m k) st.
Proof.
  intros Hm Hk. unfold returns, wp, bind in *.
  destruct (m st) as [[a|e] st']; [apply Hk|done].
Qed.

Lemma returns_inv {A} (m : M A) st :
  returns m st → ∃ a st', m st = (Returns a, st').
Proof.
  unfold returns, wp. destruct (m st) as [[a|e] st']; [eauto|done].
Qed.

Section Clock.

Variable clock : nat → str.

Lemma log_action_returns k act det st : returns (log_action clock k act det) st.
Proof. by apply returns_try_m. Qed.

Lemma load_documents_returns st : returns (load_documents) st.
Proof.
  unfold load_documents. apply returns_bind; [done|]. intros _ st'.
  by apply returns_try_m.
Qed.

Lemma save_document_returns raw st : returns (save_document clock raw) st.
Proof. by apply returns_try_m. Qed.

Lemma save_changes_returns dialog st : returns (save_changes clock dialog) st.
Proof. by apply returns_try_m. Qed.

Lemma delete_selected_document_returns selection confirmed st :
  returns (delete_selected_document clock selection confirmed) st.
Proof.
  unfold delete_selected_document. case_bool_decide; [done|].
  destruct confirmed; [|done]. by apply returns_try_m.
Qed.

End Clock.

(** *** What every step of a method keeps *)

Section Keeps.

Variable R : State → State → Prop.
Hypothesis R_refl : ∀ st, R st st.
Hypothesis R_trans : ∀ st1 st2 st3, R st1 st2 → R st2 st3 → R st1 st3.
(** [R] looks at the two copies of the database only. *)
Hypothesis R_database :
  ∀ st st', live st' = live st → durable st' = durable st → R st st'.

Local Abbreviation statement_keeps := (statement_keeps R).

Lemma keeps_ret {A} (a : A) : keeps R (ret a).
Proof. intros st. apply R_refl. Qed.

Lemma keeps_bind {A B} (m : M A) (k : A → M B) :
  keeps R m → (∀ a, keeps R (k a)) → keeps R (bind m k).
Proof.
  intros Hm Hk st. specialize (Hm st). unfold bind.
  destruct (m st) as [[a|e] st']; [|done].
  eapply R_trans; [exact Hm|apply Hk].
Qed.

Lemma keeps_try_m {A} (body : M A) handler :
  keeps R body → (∀ e, keeps R (handler e)) → keeps R (try_m body handler).
Proof.
  intros Hm Hk st. specialize (Hm st). unfold try_m.
  destruct (body st) as [[a|e] st']; [done|].
  eapply R_trans; [exact Hm|apply Hk].
Qed.

Lemma keeps_for_each {A} (xs : list A) (body : A → M unit) :
  (∀ x, x ∈ xs → keeps R (body x)) → keeps R (for_each xs body).
Proof.
  induction xs as [|x xs IH]; intros H; [apply keeps_ret|].
  cbn [for_each]. apply keeps_bind.
  - apply H. left.
  - intros _. apply IH. intros y Hy. apply H. by right.
Qed.

Lemma keeps_window {A} (m : M A) :
  (∀ st, live (m st).2 = live st ∧ durable (m st).2 = durable st) →
  keeps R m.
Proof. intros H st. by apply R_database; apply H. Qed.

Lemma keeps_sqlite3_call {A} (call : State → outcome A * State) :
  keeps R call → keeps R (sqlite3_call call).
Proof.
  intros H st. unfold sqlite3_call.
  destruct (faults st) as [|[] rest] eqn:Hf.
  - eapply R_trans; [|apply H]. by apply R_database.
  - by apply R_database.
  - eapply R_trans; [|apply H]. by apply R_database.
Qed.

Lemma keeps_execute {A} (stmt : DB → outcome (A * DB)) :
  statement_keeps stmt → keeps R (execute stmt).
Proof.
  intros H. apply keeps_sqlite3_call. intros st.
  destruct (stmt (live st)) as [[a db]|e] eqn:E; [by eapply H|apply R_refl].
Qed.

Lemma keeps_commit :
  (∀ st, R st (set_durable (live st) st)) → keeps R commit.
Proof. intros H. apply keeps_sqlite3_call. intros st. apply H. Qed.

Lemma keeps_select {A} (stmt : DB → outcome (A * DB)) :
  (∀ db a db', stmt db = Returns (a, db') → db' = db) →
  keeps R (execute stmt).
Proof.
  intros H. apply keeps_execute. intros st a db E. apply H in E as ->.
  by apply R_database.
Qed.

Lemma select_search_reads p1 p2 db a db' :
  select_search p1 p2 db = Returns (a, db') → db' = db.
Proof. done. Qed.

Lemma keeps_messagebox kind title message :
  keeps R (messagebox kind title message).
Proof. by apply keeps_window. Qed.

Lemma keeps_print line : keeps R (print line).
Proof. by apply keeps_window. Qed.

Section Clock.

Variable clock : nat → str.

Lemma keeps_datetime_now : keeps R (datetime_now clock).
Proof. by apply keeps_window. Qed.

Lemma keeps_load_audit_log : keeps R load_audit_log.
Proof.
  unfold load_audit_log. apply keeps_bind; [by apply keeps_window|].
  intros _. apply keeps_bind; [by apply keeps_select; intros ??? [= _ ->]|].
  intros rows. by apply keeps_window.
Qed.

Lemma keeps_load_documents : keeps R load_documents.
Proof.
  unfold load_documents. apply keeps_bind; [by apply keeps_window|].
  intros _. apply keeps_try_m.
  - apply keeps_bind; [by apply keeps_select; intros ??? [= _ ->]|].
    intros rows. by apply keeps_window.
  - intros e. apply keeps_messagebox.
Qed.

Lemma keeps_edit_selected_document selection :
  keeps R (edit_selected_document selection).
Proof.
  destruct selection as [|k ?]; cbn [edit_selected_document].
  - apply keeps_bind; [apply keeps_messagebox|]. intros _. apply keeps_ret.
  - apply keeps_bind; [by apply keeps_select; intros ??? [= _ ->]|].
    intros [raw|]; [apply keeps_ret|].
    apply keeps_bind; [apply keeps_messagebox|]. intros _. apply keeps_ret.
Qed.

Lemma keeps_show_document_details k : keeps R (show_document_details k).
Proof.
  unfold show_document_details.
  apply keeps_bind; [by apply keeps_select; intros ??? [= _ ->]|].
  intros [d|]; apply keeps_ret.
Qed.

Lemma keeps_on_search_change search_var : keeps R (on_search_change search_var).
Proof.
  unfold on_search_change. apply keeps_bind; [by apply keeps_window|].
  intros _. case_bool_decide; [apply keeps_ret|].
  apply keeps_bind; [apply keeps_select, select_search_reads|].
  intros rows. apply keeps_for_each. intros result _.
  destruct (result !! 2%nat) as [[n|number]|]; by apply keeps_window.
Qed.

(** Methods that write: [R] has to hold across a commit and across the
    INSERT into [audit_log]. *)
Hypothesis R_commit : ∀ st, R st (set_durable (live st) st).
Hypothesis R_insert_audit :
  ∀ k act ts usr det, statement_keeps (insert_audit k act ts usr det).

Lemma keeps_log_action k act det : keeps R (log_action clock k act det).
Proof.
  unfold log_action. apply keeps_try_m.
  - apply keeps_bind; [apply keeps_datetime_now|]. intros now.
    apply keeps_bind; [apply keeps_execute, R_insert_audit|]. intros _.
    apply keeps_bind; [by apply keeps_commit|]. intros _.
    apply keeps_load_audit_log.
  - intros e. apply keeps_print.
Qed.

Lemma keeps_save_document raw :
  (∀ k now, statement_keeps (insert_document k (new_row raw now))) →
  keeps R (save_document clock raw).
Proof.
  intros Hins. unfold save_document. apply keeps_try_m.
  - apply keeps_bind; [by apply keeps_select; intros ??? [= _ ->]|]. intros m.
    apply keeps_bind; [apply keeps_datetime_now|]. intros now.
    apply keeps_bind; [apply keeps_execute, (Hins _ now)|]. intros _.
    apply keeps_bind; [by apply keeps_commit|]. intros _.
    apply keeps_bind; [apply keeps_log_action|]. intros _.
    apply keeps_bind; [apply keeps_messagebox|]. intros _.
    apply keeps_bind; [apply keeps_load_documents|]. intros _.
    apply keeps_ret.
  - intros e. apply keeps_bind; [apply keeps_messagebox|]. intros _.
    apply keeps_ret.
Qed.

Lemma keeps_save_changes dialog :
  (∀ new_text now, statement_keeps
                     (update_document new_text now (dialog_doc_id dialog))) →
  keeps R (save_changes clock dialog).
Proof.
  intros Hupd. unfold save_changes. apply keeps_try_m.
  - apply keeps_bind; [apply keeps_datetime_now|]. intros now.
    apply keeps_bind; [apply keeps_execute, Hupd|]. intros _.
    apply keeps_bind; [apply keeps_log_action|]. intros _.
    apply keeps_bind; [by apply keeps_commit|]. intros _.
    apply keeps_bind; [apply keeps_load_documents|]. intros _.
    apply keeps_messagebox.
  - intros e. apply keeps_messagebox.
Qed.

Lemma keeps_delete_selected_document selection confirmed :
  (∀ k, k ∈ selection → statement_keeps (delete_document k)) →
  keeps R (delete_selected_document clock selection confirmed).
Proof.
  intros Hdel. unfold delete_selected_document.
  case_bool_decide; [apply keeps_messagebox|].
  destruct confirmed; [|apply keeps_ret]. cbn [negb]. apply keeps_try_m.
  - apply keeps_bind.
    + apply keeps_for_each. intros k Hk.
      apply keeps_bind; [by apply keeps_execute, Hdel|]. intros _.
      apply keeps_log_action.
    + intros _. apply keeps_bind; [by apply keeps_commit|]. intros _.
      apply keeps_bind; [apply keeps_load_documents|]. intros _.
      apply keeps_messagebox.
  - intros e. apply keeps_messagebox.
Qed.

Lemma keeps_perform o :
  (∀ k raw now, statement_keeps (insert_document k (new_row raw now))) →
  (∀ new_text now k, statement_keeps (update_document new_text now k)) →
  (∀ k, statement_keeps (delete_document k)) →
  keeps R (perform clock o).
Proof.
  intros Hins Hupd Hdel. destruct o as [raw|k new_text|k]; cbn [perform].
  - apply keeps_bind; [by apply keeps_save_document|]. intros _.
    apply keeps_ret.
  - apply keeps_bind; [apply keeps_edit_selected_document|].
    intros [d|]; [|apply keeps_ret]. apply keeps_save_changes.
    intros. apply Hupd.
  - apply keeps_delete_selected_document. intros. apply Hdel.
Qed.

Lemma keeps_run_ops ops st :
  (∀ k raw now, statement_keeps (insert_document k (new_row raw now))) →
  (∀ new_text now k, statement_keeps (update_document new_text now k)) →
  (∀ k, statement_keeps (delete_document k)) →
  R st (run_ops clock ops st).
Proof.
  intros Hins Hupd Hdel. revert st.
  induction ops as [|o ops IH]; intros st; cbn [run_ops]; [apply R_refl|].
  eapply R_trans; [|apply IH]. by apply keeps_perform.
Qed.

End Clock.

End Keeps.

End HoareFacts.

(** ** The store under any failures of [sqlite3] *)

Module StoreMoreFacts.

Import PyStrFacts DocumentManager ScanTab Hoare HoareFacts StoreFacts.

Local Open Scope Z_scope.
Local Open Scope method_scope.

(** *** The relations that the methods keep *)

Lemma audit_grows_refl st : audit_grows st st.
Proof. by split. Qed.

Lemma audit_grows_trans st1 st2 st3 :
  audit_grows st1 st2 → audit_grows st2 st3 → audit_grows st1 st3.
Proof.
  intros [H1 H1'] [H2 H2']. split; [by etrans|].
  intros H. destruct (H1' H) as [Ha Hb]. destruct (H2' Hb) as [Hc Hd].
  split; [by etrans|done].
Qed.

Lemma audit_grows_database st st' :
  live st' = live st → durable st' = durable st → audit_grows st st'.
Proof. intros Hl Hd. unfold audit_grows. rewrite Hl, Hd. by split. Qed.

Lemma audit_grows_commit st : audit_grows st (set_durable (live st) st).
Proof. by split. Qed.

Lemma audit_grows_insert_audit k act ts usr det :
  statement_keeps audit_grows (insert_audit k act ts usr det).
Proof.
  intros st a db [= _ <-]. split; cbn [live durable set_live audit_log].
  - by apply prefix_app_r.
  - intros H. split; [done|]. by apply prefix_app_r.
Qed.

Lemma audit_grows_insert_document k row :
  statement_keeps audit_grows (insert_document k row).
Proof.
  intros st a db E. unfold insert_document in E.
  destruct (documents (live st) !! k); [done|]. injection E as _ <-.
  by split.
Qed.

Lemma audit_grows_update_document new_text now k :
  statement_keeps audit_grows (update_document new_text now k).
Proof. intros st a db [= _ <-]. by split. Qed.

Lemma audit_grows_delete_document k :
  statement_keeps audit_grows (delete_document k).
Proof. intros st a db [= _ <-]. by split. Qed.

Lemma same_database_refl st : same_database st st.
Proof. by split. Qed.

Lemma same_database_trans st1 st2 st3 :
  same_database st1 st2 → same_database st2 st3 → same_database st1 st3.
Proof. intros [H1 H1'] [H2 H2']. split; congruence. Qed.

Lemma same_database_database st st' :
  live st' = live st → durable st' = durable st → same_database st st'.
Proof. by split. Qed.

Lemma documents_settled_refl st : documents_settled st st.
Proof. by split. Qed.

Lemma documents_settled_trans st1 st2 st3 :
  documents_settled st1 st2 → documents_settled st2 st3 →
  documents_settled st1 st3.
Proof.
  intros [H1 H1'] [H2 H2']. split; [congruence|]. intros H. auto.
Qed.

Lemma documents_settled_database st st' :
  live st' = live st → durable st' = durable st → documents_settled st st'.
Proof. intros Hl Hd. unfold documents_settled. rewrite Hl, Hd. by split. Qed.

Lemma documents_settled_commit st :
  documents_settled st (set_durable (live st) st).
Proof. by split. Qed.

Lemma documents_settled_insert_audit k act ts usr det :
  statement_keeps documents_settled (insert_audit k act ts usr det).
Proof. intros st a db [= _ <-]. by split. Qed.

(** *** Relations between the documents before and after *)

Section Related.

Variable P : gmap Z DocumentRow → gmap Z DocumentRow → Prop.
Hypothesis P_refl : ∀ a, P a a.
Hypothesis P_trans : ∀ a b c, P a b → P b c → P a c.

Lemma related_refl st : documents_related P st st.
Proof. split; [apply P_refl|]. intros H. split; [apply P_refl|exact H]. Qed.

Lemma related_trans st1 st2 st3 :
  documents_related P st1 st2 → documents_related P st2 st3 →
  documents_related P st1 st3.
Proof.
  intros [H1 H1'] [H2 H2']. split; [by eapply P_trans|].
  intros H. destruct (H1' H) as [Ha Hb]. destruct (H2' Hb) as [Hc Hd].
  split; [by eapply P_trans|done].
Qed.

Lemma related_database st st' :
  live st' = live st → durable st' = durable st → documents_related P st st'.
Proof. intros Hl Hd. unfold documents_related. rewrite Hl, Hd. apply related_refl. Qed.

Lemma related_commit st : documents_related P st (set_durable (live st) st).
Proof.
  split; [apply P_refl|]. intros H. cbn [durable live set_durable].
  split; [exact H|apply P_refl].
Qed.

Lemma related_insert_audit k act ts usr det :
  statement_keeps (documents_related P) (insert_audit k act ts usr det).
Proof.
  intros st a db [= _ <-]. split; [apply P_refl|]. intros H.
  split; [apply P_refl|exact H].
Qed.

(** A statement that takes the documents to [P]-related ones. *)
Lemma related_statement {A} (stmt : DB → outcome (A * DB)) :
  (∀ db a db', stmt db = Returns (a, db') → P (documents db) (documents db')) →
  statement_keeps (documents_related P) stmt.
Proof.
  intros Hstmt st a db E. apply Hstmt in E. split; [exact E|]. intros H.
  cbn [durable live set_live]. split; [apply P_refl|by eapply P_trans].
Qed.

(** When nothing waits for a commit, both copies are related. *)
Lemma related_from_committed st st' :
  durable st = live st → documents_related P st st' →
  P (documents (live st)) (documents (live st'))
  ∧ P (documents (durable st)) (documents (durable st')).
Proof.
  intros E [H1 H2]. split; [exact H1|]. apply H2. rewrite E. apply P_refl.
Qed.

End Related.

Lemma kept_in_refl a : kept_in a a.
Proof. unfold kept_in. done. Qed.

Lemma kept_in_trans a b c : kept_in a b → kept_in b c → kept_in a c.
Proof. unfold kept_in. intros. by etrans. Qed.

Lemma kept_in_insert_document k row db a db' :
  insert_document k row db = Returns (a, db') →
  kept_in (documents db) (documents db').
Proof.
  unfold insert_document. destruct (documents db !! k) eqn:Hk; [done|].
  intros [= _ <-]. by apply insert_subseteq.
Qed.

Lemma same_outside_refl ks a : same_outside ks a a.
Proof. by intros j _. Qed.

Lemma same_outside_trans ks a b c :
  same_outside ks a b → same_outside ks b c → same_outside ks a c.
Proof. intros H1 H2 j Hj. rewrite H2, H1; done. Qed.

Lemma same_outside_update_document ks new_text now k db a db' :
  k ∈ ks → update_document new_text now k db = Returns (a, db') →
  same_outside ks (documents db) (documents db').
Proof.
  intros Hk [= _ <-] j Hj. cbn [documents].
  apply lookup_alter_ne. by intros ->.
Qed.

Lemma same_outside_delete_document ks k db a db' :
  k ∈ ks → delete_document k db = Returns (a, db') →
  same_outside ks (documents db) (documents db').
Proof.
  intros Hk [= _ <-] j Hj. cbn [documents].
  apply lookup_delete_ne. by intros ->.
Qed.

Lemma no_new_id_refl a : no_new_id a a.
Proof. by intros j. Qed.

Lemma no_new_id_trans a b c : no_new_id a b → no_new_id b c → no_new_id a c.
Proof. intros H1 H2 j Hj. auto. Qed.

Lemma no_new_id_update_document new_text now k db a db' :
  update_document new_text now k db = Returns (a, db') →
  no_new_id (documents db) (documents db').
Proof.
  intros [= _ <-] j Hj. cbn [documents].
  destruct (decide (j = k)) as [->|Hne].
  - by rewrite lookup_alter_eq, Hj.
  - by rewrite lookup_alter_ne.
Qed.

Lemma no_new_id_delete_document k db a db' :
  delete_document k db = Returns (a, db') →
  no_new_id (documents db) (documents db').
Proof.
  intros [= _ <-] j Hj. cbn [documents].
  destruct (decide (j = k)) as [->|Hne].
  - apply lookup_delete_eq.
  - by rewrite lookup_delete_ne.
Qed.

Lemma same_identity_refl k a : same_identity k a a.
Proof. intros row Hrow. by exists row. Qed.

Lemma same_identity_trans k a b c :
  same_identity k a b → same_identity k b c → same_identity k a c.
Proof.
  intros H1 H2 row Hrow. destruct (H1 row Hrow) as (row' & Hrow' & Ha & Hs).
  destruct (H2 row' Hrow') as (row'' & Hrow'' & Ha' & Hs').
  exists row''. split_and!; [done|congruence..].
Qed.

Lemma same_identity_update_document j new_text now k db a db' :
  update_document new_text now k db = Returns (a, db') →
  same_identity j (documents db) (documents db').
Proof.
  intros [= _ <-] row Hrow. cbn [documents].
  destruct (decide (j = k)) as [->|Hne].
  - rewrite lookup_alter_eq, Hrow. simpl. by eexists.
  - rewrite lookup_alter_ne by done. by exists row.
Qed.

Section Store.

Variable clock : nat → str.

(** X8: the five methods that wrap their body in [try] let no exception
    out, whichever calls into [sqlite3] fail: they return. *)
Theorem guarded_methods_return st raw dialog selection confirmed k act det :
  (∃ b st', save_document clock raw st = (Returns b, st'))
  ∧ (∃ st', save_changes clock dialog st = (Returns tt, st'))
  ∧ (∃ st', delete_selected_document clock selection confirmed st
            = (Returns tt, st'))
  ∧ (∃ st', log_action clock k act det st = (Returns tt, st'))
  ∧ (∃ st', load_documents st = (Returns tt, st')).
Proof.
  split_and!.
  - apply returns_inv, save_document_returns.
  - destruct (returns_inv _ _ (save_changes_returns clock dialog st))
      as ([] & st' & ?). eauto.
  - destruct (returns_inv _ _ (delete_selected_document_returns
                                 clock selection confirmed st))
      as ([] & st' & ?). eauto.
  - destruct (returns_inv _ _ (log_action_returns clock k act det st))
      as ([] & st' & ?). eauto.
  - destruct (returns_inv _ _ (load_documents_returns st)) as ([] & st' & ?).
    eauto.
Qed.


(** X11: what is committed to the audit log stays.  From a new
    database, after any sequence of creates, updates and deletes and
    whichever calls into [sqlite3] failed, every further sequence leaves
    each committed entry unchanged and in place, and the log the cursor
    sees begins with the committed one. *)
Theorem committed_audit_log_is_append_only ops ops' fl :
  let st := run_ops clock ops (set_faults fl init_database) in
  audit_log (durable st) `prefix_of` audit_log (durable (run_ops clock ops' st))
  ∧ audit_log (durable (run_ops clock ops' st))
    `prefix_of` audit_log (live (run_ops clock ops' st)).
Proof.
  intros st.
  assert (∀ ops0 st0, audit_grows st0 (run_ops clock ops0 st0)) as Hkeeps.
  { intros ops0 st0.
    apply (keeps_run_ops audit_grows audit_grows_refl audit_grows_trans
             audit_grows_database clock audit_grows_commit
             audit_grows_insert_audit ops0 st0).
    - intros. apply audit_grows_insert_document.
    - apply audit_grows_update_document.
    - apply audit_grows_delete_document. }
  destruct (Hkeeps ops (set_faults fl init_database)) as [_ H0].
  destruct (H0 ltac:(done)) as [_ Hst]. fold st in Hst.
  destruct (Hkeeps ops' st) as [_ H1]. by apply H1.
Qed.

(** X12: the methods that only read commit nothing, whether their
    SELECT fails or not, and when nothing waited for a commit the cursor
    sees the database it saw: loading the two trees, opening the edit
    dialog, showing the details, viewing, double-clicking and
    searching. *)
Theorem reading_methods_commit_nothing selection k search_var :
  reads_only load_documents
  ∧ reads_only load_audit_log
  ∧ reads_only (edit_selected_document selection)
  ∧ reads_only (show_document_details k)
  ∧ reads_only (view_selected_document selection)
  ∧ reads_only (on_document_double_click selection)
  ∧ reads_only (on_search_change search_var).
Proof.
  pose proof same_database_refl as Hr. pose proof same_database_trans as Ht.
  pose proof same_database_database as Hd.
  assert (∀ A (m : M A), keeps same_database m → reads_only m) as Hreads.
  { intros A m Hm st. destruct (Hm st) as [Hl Hdur]. split; [done|].
    by intros _. }
  split_and!; apply Hreads.
  - by apply keeps_load_documents.
  - by apply keeps_load_audit_log.
  - by apply keeps_edit_selected_document.
  - by apply keeps_show_document_details.
  - intros st. destruct selection as [|j ?]; [by split|].
    exact (keeps_show_document_details _ Hr Ht Hd j st).
  - intros st. destruct selection as [|j ?]; [by split|].
    exact (keeps_show_document_details _ Hr Ht Hd j st).
  - by apply keeps_on_search_change.
Qed.

(** X13: when nothing waits for a commit, [save_document] neither
    replaces nor removes a document, whichever calls into [sqlite3]
    fail: every document is there after the call, unchanged, for the
    cursor and on disk. *)
Theorem save_document_keeps_documents raw st :
  durable st = live st →
  documents (live st) ⊆ documents (live (save_document clock raw st).2)
  ∧ documents (durable st) ⊆ documents (durable (save_document clock raw st).2).
Proof.
  intros E. apply (related_from_committed kept_in kept_in_refl); [done|].
  apply (keeps_save_document (documents_related kept_in)
           (related_refl _ kept_in_refl)
           (related_trans _ kept_in_trans)
           (related_database _ kept_in_refl) clock
           (related_commit _ kept_in_refl)
           (related_insert_audit _ kept_in_refl) raw).
  intros k now. apply (related_statement _ kept_in_refl kept_in_trans).
  intros db a db'. apply kept_in_insert_document.
Qed.

(** X14: when nothing waits for a commit, the Save button of the edit
    dialog touches the document of the dialog only, whichever calls into
    [sqlite3] fail: for the cursor and on disk, every other document is
    as before, no id is new, and the document of the dialog, if there
    was one, is still there with the date it was added and its status. *)
Theorem save_changes_touches_one_document dialog st :
  durable st = live st →
  (same_outside [dialog_doc_id dialog] (documents (live st))
     (documents (live (save_changes clock dialog st).2))
   ∧ same_outside [dialog_doc_id dialog] (documents (durable st))
       (documents (durable (save_changes clock dialog st).2)))
  ∧ (no_new_id (documents (live st))
       (documents (live (save_changes clock dialog st).2))
     ∧ no_new_id (documents (durable st))
         (documents (durable (save_changes clock dialog st).2)))
  ∧ (same_identity (dialog_doc_id dialog) (documents (live st))
       (documents (live (save_changes clock dialog st).2))
     ∧ same_identity (dialog_doc_id dialog) (documents (durable st))
         (documents (durable (save_changes clock dialog st).2))).
Proof.
  intros E. split; [|split].
  - apply (related_from_committed _ (same_outside_refl _)); [done|].
    apply (keeps_save_changes (documents_related (same_outside _))
             (related_refl _ (same_outside_refl _))
             (related_trans _ (same_outside_trans _))
             (related_database _ (same_outside_refl _)) clock
             (related_commit _ (same_outside_refl _))
             (related_insert_audit _ (same_outside_refl _)) dialog).
    intros new_text now.
    apply (related_statement _ (same_outside_refl _) (same_outside_trans _)).
    intros db a db'. apply same_outside_update_document. left.
  - apply (related_from_committed _ no_new_id_refl); [done|].
    apply (keeps_save_changes (documents_related no_new_id)
             (related_refl _ no_new_id_refl)
             (related_trans _ no_new_id_trans)
             (related_database _ no_new_id_refl) clock
             (related_commit _ no_new_id_refl)
             (related_insert_audit _ no_new_id_refl) dialog).
    intros new_text now.
    apply (related_statement _ no_new_id_refl no_new_id_trans).
    intros db a db'. apply no_new_id_update_document.
  - apply (related_from_committed _ (same_identity_refl _)); [done|].
    apply (keeps_save_changes (documents_related (same_identity _))
             (related_refl _ (same_identity_refl _))
             (related_trans _ (same_identity_trans _))
             (related_database _ (same_identity_refl _)) clock
             (related_commit _ (same_identity_refl _))
             (related_insert_audit _ (same_identity_refl _)) dialog).
    intros new_text now.
    apply (related_statement _ (same_identity_refl _) (same_identity_trans _)).
    intros db a db'. apply same_identity_update_document.
Qed.

(** X15: when nothing waits for a commit, [delete_selected_document]
    touches the selected documents only, for every selection and answer
    and whichever calls into [sqlite3] fail: for the cursor and on disk,
    a document that is not selected is as before, and no id is new. *)
Theorem delete_touches_selection_only selection confirmed st :
  durable st = live st →
  (same_outside selection (documents (live st))
     (documents (live (delete_selected_document clock selection confirmed st).2))
   ∧ same_outside selection (documents (durable st))
       (documents
          (durable (delete_selected_document clock selection confirmed st).2)))
  ∧ (no_new_id (documents (live st))
       (documents (live (delete_selected_document clock selection confirmed st).2))
     ∧ no_new_id (documents (durable st))
         (documents
            (durable (delete_selected_document clock selection confirmed st).2))).
Proof.
  intros E. split.
  - apply (related_from_committed _ (same_outside_refl _)); [done|].
    apply (keeps_delete_selected_document (documents_related (same_outside _))
             (related_refl _ (same_outside_refl _))
             (related_trans _ (same_outside_trans _))
             (related_database _ (same_outside_refl _)) clock
             (related_commit _ (same_outside_refl _))
             (related_insert_audit _ (same_outside_refl _))
             selection confirmed).
    intros k Hk.
    apply (related_statement _ (same_outside_refl _) (same_outside_trans _)).
    intros db a db'. by apply same_outside_delete_document.
  - apply (related_from_committed _ no_new_id_refl); [done|].
    apply (keeps_delete_selected_document (documents_related no_new_id)
             (related_refl _ no_new_id_refl)
             (related_trans _ no_new_id_trans)
             (related_database _ no_new_id_refl) clock
             (related_commit _ no_new_id_refl)
             (related_insert_audit _ no_new_id_refl)
             selection confirmed).
    intros k _.
    apply (related_statement _ no_new_id_refl no_new_id_trans).
    intros db a db'. apply no_new_id_delete_document.
Qed.

End Store.

Lemma save_document_keeps_documents_witness :
  documents (live two_documents)
    ⊆ documents (live (save_document sample_clock (py "c") two_documents).2)
  ∧ documents (durable two_documents)
      ⊆ documents
          (durable (save_document sample_clock (py "c") two_documents).2).
Proof.
  apply (save_document_keeps_documents sample_clock (py "c") two_documents).
  vm_compute. reflexivity.
Defined.

Lemma save_changes_touches_one_document_witness :
  (same_outside [dialog_doc_id (mkEditDialog 1 (py "new"))]
     (documents (live two_documents))
     (documents
        (live (save_changes sample_clock (mkEditDialog 1 (py "new"))
                 two_documents).2))
   ∧ same_outside [dialog_doc_id (mkEditDialog 1 (py "new"))]
       (documents (durable two_documents))
       (documents
          (durable (save_changes sample_clock (mkEditDialog 1 (py "new"))
                      two_documents).2)))
  ∧ (no_new_id (documents (live two_documents))
       (documents
          (live (save_changes sample_clock (mkEditDialog 1 (py "new"))
                   two_documents).2))
     ∧ no_new_id (documents (durable two_documents))
         (documents
            (durable (save_changes sample_clock (mkEditDialog 1 (py "new"))
                        two_documents).2)))
  ∧ (same_identity (dialog_doc_id (mkEditDialog 1 (py "new")))
       (documents (live two_documents))
       (documents
          (live (save_changes sample_clock (mkEditDialog 1 (py "new"))
                   two_documents).2))
     ∧ same_identity (dialog_doc_id (mkEditDialog 1 (py "new")))
         (documents (durable two_documents))
         (documents
            (durable (save_changes sample_clock (mkEditDialog 1 (py "new"))
                        two_documents).2))).
Proof.
  apply (save_changes_touches_one_document sample_clock
           (mkEditDialog 1 (py "new")) two_documents).
  vm_compute. reflexivity.
Defined.

Lemma delete_touches_selection_only_witness :
  (same_outside [1] (documents (live two_documents))
     (documents
        (live (delete_selected_document sample_clock [1] true
                 two_documents).2))
   ∧ same_outside [1] (documents (durable two_documents))
       (documents
          (durable (delete_selected_document sample_clock [1] true
                      two_documents).2)))
  ∧ (no_new_id (documents (live two_documents))
       (documents
          (live (delete_selected_document sample_clock [1] true
                   two_documents).2))
     ∧ no_new_id (documents (durable two_documents))
         (documents
            (durable (delete_selected_document sample_clock [1] true
                        two_documents).2))).
Proof.
  apply (delete_touches_selection_only sample_clock [1] true two_documents).
  vm_compute. reflexivity.
Defined.


End StoreMoreFacts.

(** ** What a failure leaves behind *)

Module StoreFailureFacts.

Import PyStrFacts DocumentManager Hoare HoareFacts StoreFacts StoreMoreFacts.

Local Open Scope Z_scope.
Local Open Scope method_scope.

Section Store.

Variable clock : nat → str.

(** What [save_document] does after its commit. *)
Lemma after_commit doc_id st :
  ∃ st',
    (log_action clock doc_id (py "ADD")
       (py ("Document " +:+ pretty doc_id +:+ " added to system")) ;;;
     messagebox ShowInfo "Success"
       ("Document saved successfully as ID: " +:+ pretty doc_id) ;;;
     load_documents ;;;
     ret true) st = (Returns true, st')
    ∧ documents_settled st st'.
Proof.
  set (det := py ("Document " +:+ pretty doc_id +:+ " added to system")).
  pose proof (keeps_log_action documents_settled documents_settled_refl
                documents_settled_trans documents_settled_database clock
                documents_settled_commit documents_settled_insert_audit
                doc_id (py "ADD") det st) as H1.
  destruct (returns_inv _ _ (log_action_returns clock doc_id (py "ADD") det st))
    as ([] & st1 & E1).
  rewrite E1 in H1. cbn [snd] in H1.
  set (st2 := set_dialogs
                (dialogs st1 ++
                 [(ShowInfo, "Success"%string,
                   "Document saved successfully as ID: " +:+ pretty doc_id)])
                st1).
  pose proof (keeps_load_documents documents_settled documents_settled_refl
                documents_settled_trans documents_settled_database st2) as H3.
  destruct (returns_inv _ _ (load_documents_returns st2)) as ([] & st3 & E3).
  rewrite E3 in H3. cbn [snd] in H3.
  exists st3. split.
  - unfold bind at 1. rewrite E1. unfold bind at 1.
    unfold messagebox at 1. fold st2. unfold bind. rewrite E3. done.
  - eapply documents_settled_trans; [exact H1|].
    eapply documents_settled_trans; [|exact H3].
    by apply documents_settled_database.
Qed.

(** X10: what [save_document] returns tells whether the document is on
    disk, whichever calls into [sqlite3] fail.  When it returns [True]
    the committed documents are the ones the cursor saw before with the
    new row under the next id, and the cursor sees the same; when it
    returns [False] the database on disk is as before and the last box
    shown is the error "Failed to add document: ...". *)
Theorem save_document_reports_commit raw st :
  ∃ b st',
    save_document clock raw st = (Returns b, st')
    ∧ if b
      then documents (durable st')
           = <[next_id (live st) := new_row raw (clock (ticks st))]>
               (documents (live st))
           ∧ documents (live st') = documents (durable st')
      else durable st' = durable st
           ∧ ∃ reason,
               last (dialogs st')
               = Some (ShowError, "Error"%string,
                       "Failed to add document: " +:+ reason).
Proof.
  set (Q := fun (b : bool) st' =>
              if b
              then documents (durable st')
                   = <[next_id (live st) := new_row raw (clock (ticks st))]>
                       (documents (live st))
                   ∧ documents (live st') = documents (durable st')
              else durable st' = durable st
                   ∧ ∃ reason,
                       last (dialogs st')
                       = Some (ShowError, "Error"%string,
                               "Failed to add document: " +:+ reason)).
  enough (wp (save_document clock raw) Q (fun _ _ => False) st) as H.
  { unfold wp in H.
    destruct (save_document clock raw st) as [[b|e] st']; [eauto|done]. }
  assert (∀ (e : exception) st1, durable st1 = durable st →
            wp (messagebox ShowError "Error"
                  ("Failed to add document: " +:+ e.2) ;;; ret false)
               Q (fun _ _ => False) st1) as Hfail.
  { intros e st1 Hd. unfold wp, bind, messagebox, ret, Q.
    cbn [durable set_dialogs dialogs]. split; [done|].
    exists e.2. apply last_snoc. }
  unfold save_document. apply wp_try_m, wp_bind, wp_execute.
  { intros rest _. by apply Hfail. }
  intros _. cbn [select_max_id]. fold (next_id (live st)).
  apply wp_bind, wp_datetime_now, wp_bind, wp_execute.
  { intros rest _. by apply Hfail. }
  intros _. cbn [live set_live set_ticks set_faults].
  unfold insert_document. rewrite next_id_fresh.
  apply wp_bind, wp_commit.
  { intros rest _. by apply Hfail. }
  intros _.
  match goal with |- wp _ _ _ ?s => set (st3 := s) end.
  destruct (after_commit (next_id (live st)) st3) as (st' & E & Hs & Hd).
  unfold wp. rewrite E. unfold Q.
  assert (documents (live st3)
          = <[next_id (live st) := new_row raw (clock (ticks st))]>
              (documents (live st))) as Hl by done.
  assert (documents (durable st3) = documents (live st3)) as Hdl by done.
  specialize (Hd Hdl). rewrite Hd, Hs, Hl. done.
Qed.

(** A delete of two or more documents during which the second DELETE
    fails. *)
Lemma delete_second_fault st k1 k2 others :
  faults st = [false; false; false; false; true] →
  delete_selected_document clock (k1 :: k2 :: others) true st =
  (Returns tt,
   let db := deleted_db clock k1 st in
   mkState db db (documents_tree st) (audit_rows db) (search_tree st)
           (dialogs st ++ [failed_to_delete]) (printed st) (S (ticks st)) []).
Proof. destruct st. simpl. intros ->. reflexivity. Qed.

(** X16: deleting several documents is not all or nothing.  The commit
    inside [log_action] stores each deletion as it is logged, so when
    the DELETE of the second document fails the user is told "Failed to
    delete document", yet the first document is gone from disk with its
    DELETE entry, the other documents are untouched, and the tree still
    lists the first one. *)
Theorem delete_is_not_all_or_nothing st k1 k2 others :
  faults st = [false; false; false; false; true] →
  ∃ st' e,
    delete_selected_document clock (k1 :: k2 :: others) true st
    = (Returns tt, st')
    ∧ dialogs st' = dialogs st ++ [failed_to_delete]
    ∧ documents (durable st') = delete k1 (documents (live st))
    ∧ audit_log (durable st') = audit_log (live st) ++ [e]
    ∧ document_id e = k1 ∧ action e = py "DELETE"
    ∧ documents_tree st' = documents_tree st.
Proof.
  intros Hf. rewrite delete_second_fault by done. do 2 eexists.
  split; [reflexivity|].
  cbn [dialogs durable documents audit_log deleted_db logged with_documents
       documents_tree document_id action].
  by split_and!.
Qed.

(** *** Deleting a selection when nothing fails *)

Lemma delete_and_log_ok st k :
  faults st = [] →
  (execute (delete_document k) ;;;
   log_action clock k (py "DELETE")
     (py ("Document " +:+ pretty k +:+ " deleted from system"))) st =
  (Returns tt,
   let db := deleted_db clock k st in
   mkState db db (documents_tree st) (audit_rows db) (search_tree st)
           (dialogs st) (printed st) (S (ticks st)) []).
Proof. destruct st. simpl. intros ->. reflexivity. Qed.

Lemma for_each_cons {A} (x : A) xs (body : A → M unit) :
  for_each (x :: xs) body = (body x ;;; for_each xs body).
Proof. done. Qed.

Lemma delete_loop_ok ks : ∀ k st,
  faults st = [] →
  for_each (k :: ks) (fun doc_id =>
    execute (delete_document doc_id) ;;;
    log_action clock doc_id (py "DELETE")
      (py ("Document " +:+ pretty doc_id +:+ " deleted from system"))) st =
  (Returns tt,
   let db := deleted_all clock (k :: ks) (ticks st) (live st) in
   mkState db db (documents_tree st) (audit_rows db) (search_tree st)
           (dialogs st) (printed st) (ticks st + S (length ks)) []).
Proof.
  induction ks as [|k' ks IH]; intros k st Hf.
  - rewrite for_each_cons. unfold bind at 1.
    rewrite delete_and_log_ok by done.
    cbn [for_each ret deleted_all length deleted_db]. by rewrite Nat.add_1_r.
  - rewrite for_each_cons. unfold bind at 1.
    rewrite delete_and_log_ok by done.
    rewrite IH by done.
    cbn [live ticks documents_tree search_tree dialogs printed deleted_all
         deleted_db length].
    replace (S (ticks st) + S (length ks))%nat
      with (ticks st + S (S (length ks)))%nat by lia.
    reflexivity.
Qed.

Lemma deleted_all_documents ks : ∀ t db j,
  documents (deleted_all clock ks t db) !! j
  = if bool_decide (j ∈ ks) then None else documents db !! j.
Proof.
  induction ks as [|k ks IH]; intros t db j; cbn [deleted_all].
  - by rewrite bool_decide_eq_false_2 by apply not_elem_of_nil.
  - rewrite IH. cbn [documents logged with_documents].
    destruct (decide (j = k)) as [->|Hne].
    + rewrite (bool_decide_eq_true_2 (k ∈ k :: ks)) by left.
      case_bool_decide; [done|apply lookup_delete_eq].
    + rewrite lookup_delete_ne by done.
      case_bool_decide as H1; case_bool_decide as H2; try done.
      * exfalso. apply H2. by right.
      * apply elem_of_cons in H2 as [?|?]; done.
Qed.

Lemma deleted_all_audit_log ks : ∀ t db,
  ∃ entries,
    audit_log (deleted_all clock ks t db) = audit_log db ++ entries
    ∧ document_id <$> entries = ks
    ∧ Forall is_DELETE_entry entries.
Proof.
  induction ks as [|k ks IH]; intros t db; cbn [deleted_all].
  - exists []. by rewrite app_nil_r.
  - edestruct IH as (entries & -> & Hids & Hall).
    cbn [audit_log logged with_documents]. eexists (_ :: entries).
    split_and!; [by rewrite <- app_assoc|by rewrite fmap_cons, Hids|].
    by constructor.
Qed.

(** X18: when nothing fails, deleting a selection removes exactly the
    selected documents, writes one DELETE entry per selected id in the
    order of the selection, commits, refreshes the tree and shows one
    success box; with nothing selected it only shows a warning, and when
    the user answers no it does nothing. *)
Theorem delete_selection_removes_all st selection confirmed :
  faults st = [] → selection ≠ [] →
  (∃ st' entries,
      delete_selected_document clock selection true st = (Returns tt, st')
      ∧ (∀ j, documents (live st') !! j
              = if bool_decide (j ∈ selection) then None
                else documents (live st) !! j)
      ∧ audit_log (live st') = audit_log (live st) ++ entries
      ∧ document_id <$> entries = selection
      ∧ Forall is_DELETE_entry entries
      ∧ durable st' = live st'
      ∧ documents_tree st' = documents_rows (live st')
      ∧ dialogs st' = dialogs st ++ [success_deleted])
  ∧ delete_selected_document clock selection false st = (Returns tt, st)
  ∧ delete_selected_document clock [] confirmed st
    = (Returns tt, set_dialogs (dialogs st ++ [select_to_delete]) st).
Proof.
  intros Hf Hne. split_and!.
  - destruct selection as [|k ks]; [done|].
    destruct (deleted_all_audit_log (k :: ks) (ticks st) (live st))
      as (entries & Hlog & Hids & Hall).
    pose proof (delete_loop_ok ks k st Hf) as Hloop.
    eexists _, entries. split.
    + unfold delete_selected_document.
      rewrite bool_decide_eq_false_2 by done. cbn [negb].
      unfold try_m, bind at 1. rewrite Hloop.
      unfold bind, commit, sqlite3_call, load_documents, try_m, execute,
        sqlite3_call, select_documents, messagebox.
      cbn [faults tail live durable documents_tree audit_tree search_tree
           dialogs printed ticks set_faults set_durable set_documents_tree
           set_live set_dialogs app].
      reflexivity.
    + cbn [live durable documents_tree dialogs].
      split_and!; [apply deleted_all_documents|done..].
  - unfold delete_selected_document. by rewrite bool_decide_eq_false_2.
  - done.
Qed.

End Store.

Lemma delete_is_not_all_or_nothing_witness :
  ∃ st' e,
    delete_selected_document sample_clock [1; 2] true
      (fifth_call_fails two_documents)
    = (Returns tt, st')
    ∧ dialogs st'
      = dialogs (fifth_call_fails two_documents) ++ [failed_to_delete]
    ∧ documents (durable st')
      = delete 1 (documents (live (fifth_call_fails two_documents)))
    ∧ audit_log (durable st')
      = audit_log (live (fifth_call_fails two_documents)) ++ [e]
    ∧ document_id e = 1 ∧ action e = py "DELETE"
    ∧ documents_tree st' = documents_tree (fifth_call_fails two_documents).
Proof.
  apply (delete_is_not_all_or_nothing sample_clock
           (fifth_call_fails two_documents) 1 2 []).
  reflexivity.
Defined.

Lemma delete_selection_removes_all_witness :
  (∃ st' entries,
      delete_selected_document sample_clock [2; 1] true two_documents
      = (Returns tt, st')
      ∧ (∀ j, documents (live st') !! j
              = if bool_decide (j ∈ [2; 1]) then None
                else documents (live two_documents) !! j)
      ∧ audit_log (live st') = audit_log (live two_documents) ++ entries
      ∧ document_id <$> entries = [2; 1]
      ∧ Forall is_DELETE_entry entries
      ∧ durable st' = live st'
      ∧ documents_tree st' = documents_rows (live st')
      ∧ dialogs st' = dialogs two_documents ++ [success_deleted])
  ∧ delete_selected_document sample_clock [2; 1] false two_documents
    = (Returns tt, two_documents)
  ∧ delete_selected_document sample_clock [] true two_documents
    = (Returns tt,
       set_dialogs (dialogs two_documents ++ [select_to_delete])
                   two_documents).
Proof.
  apply (delete_selection_removes_all sample_clock two_documents [2; 1] true).
  - vm_compute. reflexivity.
  - discriminate.
Defined.

End StoreFailureFacts.

(** ** The two listings *)

Module ListingFacts.

Import PyStrFacts DocumentManager Hoare HoareFacts StoreFacts.

Local Open Scope Z_scope.

Lemma insert_by_perm {A} (before : A → A → bool) x l :
  insert_by before x l ≡ₚ x :: l.
Proof.
  induction l as [|y l IH]; [done|]. simpl.
  destruct (before y x); [|done]. rewrite IH. apply Permutation_swap.
Qed.

Lemma sort_by_perm {A} (before : A → A → bool) l : sort_by before l ≡ₚ l.
Proof.
  unfold sort_by. rewrite <- (reverse_Permutation l) at 2.
  induction (reverse l) as [|x l' IH]; [done|]. simpl.
  by rewrite insert_by_perm, IH.
Qed.

Lemma ordered_fmap {A B} (f : A → B) (R : B → B → Prop) l :
  ordered R (f <$> l) ↔ ordered (fun a b => R (f a) (f b)) l.
Proof.
  induction l as [|x l IH]; [done|]. simpl. rewrite IH, Forall_fmap. done.
Qed.

Lemma ordered_impl {A} (R R' : A → A → Prop) l :
  (∀ a b, a ∈ l → b ∈ l → R a b → R' a b) → ordered R l → ordered R' l.
Proof.
  induction l as [|x l IH]; [done|]. intros H [Hx Hl]. split.
  - apply Forall_forall. intros y Hy. apply H; [left|by right|].
    by eapply Forall_forall in Hx.
  - apply IH; [|done]. intros a b Ha Hb. apply H; by right.
Qed.

Section Sorting.

Context {A : Type} (before : A → A → bool).
Hypothesis before_total : ∀ a b, before a b = false → before b a = true.
Hypothesis before_trans :
  ∀ a b c, before a b = true → before b c = true → before a c = true.

Lemma insert_by_ordered x l :
  ordered (fun a b => before a b = true) l →
  ordered (fun a b => before a b = true) (insert_by before x l).
Proof.
  induction l as [|y l IH]; [done|]. intros [Hy Hl]. simpl.
  destruct (before y x) eqn:E.
  - split; [|by apply IH]. apply Forall_forall. intros z Hz.
    rewrite insert_by_perm in Hz. apply elem_of_cons in Hz as [->|Hz]; [done|].
    by eapply Forall_forall in Hy.
  - apply before_total in E. split; [|done]. constructor; [done|].
    eapply Forall_impl; [exact Hy|]. intros z Hz. by eapply before_trans.
Qed.

Lemma sort_by_ordered l :
  ordered (fun a b => before a b = true) (sort_by before l).
Proof.
  unfold sort_by. induction (reverse l) as [|x l' IH]; [done|]. simpl.
  by apply insert_by_ordered.
Qed.

End Sorting.

Lemma ordered_strict {A} (f : A → Z) l :
  ordered (fun a b => f a ≤ f b) l → NoDup (f <$> l) →
  ordered (fun a b => f a < f b) l.
Proof.
  induction l as [|x l IH]; [done|]. intros [Hx Hl] Hnd.
  rewrite fmap_cons in Hnd. apply NoDup_cons in Hnd as [Hnx Hnd].
  split; [|by apply IH]. apply Forall_forall. intros y Hy.
  pose proof Hy as Hle. eapply Forall_forall in Hle; [|exact Hx].
  simpl in Hle. destruct (decide (f x = f y)) as [E|]; [|lia].
  exfalso. apply Hnx. rewrite E. by apply list_elem_of_fmap_2.
Qed.

Lemma sorted_documents (docs : gmap Z DocumentRow) :
  ordered (fun a b : Z * DocumentRow => a.1 < b.1)
          (sort_by (fun a b => a.1 <=? b.1) (map_to_list docs)).
Proof.
  apply ordered_strict.
  - eapply ordered_impl; [|apply (sort_by_ordered (fun a b : Z * DocumentRow => a.1 <=? b.1))].
    + intros a b _ _ H. by apply Z.leb_le.
    + intros a b H. apply Z.leb_gt in H. apply Z.leb_le. lia.
    + intros a b c H1%Z.leb_le H2%Z.leb_le. apply Z.leb_le. lia.
  - rewrite sort_by_perm. apply NoDup_fst_map_to_list.
Qed.

(** The order of timestamps. *)
Lemma str_ltb_irrefl a : str_ltb a a = false.
Proof.
  induction a as [|x a IH]; [done|]. simpl.
  by rewrite N.ltb_irrefl, N.eqb_refl, IH.
Qed.

Lemma str_ltb_asym a : ∀ b, str_ltb a b = true → str_ltb b a = false.
Proof.
  induction a as [|x a IH]; intros [|y b]; simpl; try done.
  intros H. apply orb_true_iff in H as [H|[Heq Hrest]%andb_true_iff].
  - apply N.ltb_lt in H.
    destruct (N.ltb_spec y x); [lia|]. destruct (N.eqb_spec y x); [lia|done].
  - apply N.eqb_eq in Heq as ->. rewrite N.ltb_irrefl, N.eqb_refl. simpl.
    by apply IH.
Qed.

Lemma str_ltb_cotrans a : ∀ b c,
  str_ltb a c = true → str_ltb a b = true ∨ str_ltb b c = true.
Proof.
  induction a as [|x a IH]; intros [|y b] [|z c]; simpl; try done; auto.
  intros H.
  destruct (N.ltb_spec x y); [by left|].
  destruct (N.ltb_spec y z); [by right|].
  apply orb_true_iff in H as [H|[Heq Hrest]%andb_true_iff].
  - apply N.ltb_lt in H. lia.
  - apply N.eqb_eq in Heq as ->. assert (y = z) as -> by lia.
    rewrite N.eqb_refl. simpl. by apply IH.
Qed.

Lemma sorted_audit_log (log : list AuditEntry) :
  ordered (fun a b => str_ltb (timestamp a) (timestamp b) = false)
          (sort_by (fun a b => negb (str_ltb (timestamp a) (timestamp b))) log).
Proof.
  eapply ordered_impl;
    [|apply (sort_by_ordered
               (fun a b => negb (str_ltb (timestamp a) (timestamp b))))].
  - intros a b _ _ H. by apply negb_true_iff.
  - intros a b H. apply negb_false_iff, str_ltb_asym in H. by rewrite H.
  - intros a b c H1%negb_true_iff H2%negb_true_iff. apply negb_true_iff.
    destruct (str_ltb (timestamp a) (timestamp c)) eqn:E; [|done].
    apply (str_ltb_cotrans _ (timestamp b)) in E as [E|E]; congruence.
Qed.

(** X19: the documents tree lists every stored document once, by
    ascending id, with its two dates and its status; when the SELECT
    fails the tree is left empty and an error box is shown. *)
Theorem documents_listing (db : DB) (st : State) :
  ordered (fun r1 r2 => row_id r1 < row_id r2) (documents_rows db)
  ∧ (∀ k a m s,
        (k, a, m, s) ∈ documents_rows db ↔
        ∃ row, documents db !! k = Some row ∧ a = date_added row
               ∧ m = last_modified row ∧ s = verification_status row)
  ∧ length (documents_rows db) = size (documents db)
  ∧ match faults st with
    | true :: _ =>
        documents_tree (load_documents st).2 = []
        ∧ dialogs (load_documents st).2 = dialogs st ++ [failed_to_load]
    | _ => documents_tree (load_documents st).2 = documents_rows (live st)
           ∧ dialogs (load_documents st).2 = dialogs st
    end.
Proof.
  split_and!.
  - unfold documents_rows. apply ordered_fmap.
    eapply ordered_impl; [|apply sorted_documents]. by intros a b _ _ H.
  - intros k a m s. unfold documents_rows. rewrite list_elem_of_fmap. split.
    + intros ([k' row] & [= -> -> -> ->] & Hin). simpl.
      rewrite sort_by_perm in Hin. apply elem_of_map_to_list in Hin. eauto.
    + intros (row & Hrow & -> & -> & ->). exists (k, row). split; [done|].
      rewrite sort_by_perm. by apply elem_of_map_to_list.
  - unfold documents_rows. rewrite length_fmap, sort_by_perm.
    apply length_map_to_list.
  - unfold load_documents, try_m, bind, execute, sqlite3_call,
      select_documents, messagebox.
    cbn [faults set_documents_tree].
    by destruct (faults st) as [|[] rest].
Qed.

(** X20: the audit tree lists every entry of the audit log once, and no
    row is followed by one with a greater timestamp. *)
Theorem audit_listing (db : DB) (st : State) :
  audit_rows db ≡ₚ audit_row <$> audit_log db
  ∧ ordered (fun r1 r2 => str_ltb (row_timestamp r1) (row_timestamp r2) = false)
            (audit_rows db)
  ∧ match faults st with
    | true :: _ => audit_tree (load_audit_log st).2 = []
    | _ => audit_tree (load_audit_log st).2 = audit_rows (live st)
    end.
Proof.
  split_and!.
  - unfold audit_rows. by rewrite sort_by_perm.
  - unfold audit_rows. apply ordered_fmap.
    eapply ordered_impl; [|apply sorted_audit_log]. by intros a b _ _ H.
  - unfold load_audit_log, bind, execute, sqlite3_call, select_audit_log.
    cbn [faults set_audit_tree].
    by destruct (faults st) as [|[] rest].
Qed.

End ListingFacts.

(** ** What holds of every store *)

Module InvariantFacts.

Import PyStrFacts DocumentManager Hoare HoareFacts StoreFacts.

Local Open Scope Z_scope.
Local Open Scope method_scope.

(** *** The status of a document, whichever calls fail *)

Lemma pending_kept_refl st : pending_kept st st.
Proof. by intros H. Qed.

Lemma pending_kept_trans st1 st2 st3 :
  pending_kept st1 st2 → pending_kept st2 st3 → pending_kept st1 st3.
Proof. unfold pending_kept. auto. Qed.

Lemma pending_kept_database st st' :
  live st' = live st → durable st' = durable st → pending_kept st st'.
Proof. unfold pending_kept. by intros -> ->. Qed.

Lemma pending_kept_commit st : pending_kept st (set_durable (live st) st).
Proof. by intros [H _]. Qed.

Lemma pending_kept_insert_audit k act ts usr det :
  statement_keeps pending_kept (insert_audit k act ts usr det).
Proof. intros st a db [= _ <-] [Hl Hd]. split; [exact Hl|exact Hd]. Qed.

Lemma pending_kept_insert_document k raw now :
  statement_keeps pending_kept (insert_document k (new_row raw now)).
Proof.
  intros st a db E. unfold insert_document in E.
  destruct (documents (live st) !! k) eqn:Hk; [done|]. injection E as _ <-.
  intros [Hl Hd]. split; [|done]. intros j row. cbn [live set_live documents].
  destruct (decide (j = k)) as [->|Hne].
  - rewrite lookup_insert_eq. by intros [= <-].
  - rewrite lookup_insert_ne by done. apply Hl.
Qed.

Lemma pending_kept_update_document new_text now k :
  statement_keeps pending_kept (update_document new_text now k).
Proof.
  intros st a db [= _ <-] [Hl Hd]. split; [|done]. intros j row.
  cbn [live set_live documents].
  destruct (decide (j = k)) as [->|Hne].
  - rewrite lookup_alter_eq.
    destruct (documents (live st) !! k) as [row0|] eqn:E; [|done].
    intros [= <-]. simpl. by eapply Hl.
  - rewrite lookup_alter_ne by done. apply Hl.
Qed.

Lemma pending_kept_delete_document k :
  statement_keeps pending_kept (delete_document k).
Proof.
  intros st a db [= _ <-] [Hl Hd]. split; [|done]. intros j row.
  cbn [live set_live documents]. intros [_ H]%lookup_delete_Some.
  by eapply Hl.
Qed.

(** *** Runs in which no call fails *)

Lemma audit_ids_dense_logged k act ts det docs db :
  audit_ids_dense db → audit_ids_dense (logged k act ts det (with_documents docs db)).
Proof.
  intros [Hids Hseq]. unfold audit_ids_dense.
  cbn [logged with_documents audit_log audit_seq].
  rewrite length_app, fmap_app, Hids, Hseq. cbn [length].
  rewrite Nat.add_1_r, seq_S, fmap_app. split.
  - simpl. do 2 f_equal. lia.
  - lia.
Qed.

Lemma settled_state db srt dl pr tk :
  audit_ids_dense db → accounted db →
  settled (mkState db db (documents_rows db) (audit_rows db) srt dl pr tk []).
Proof.
  intros Hids Hacc. unfold settled, in_sync. by split_and!.
Qed.

Lemma next_id_positive db : accounted db → 1 ≤ next_id db.
Proof.
  intros Hacc. unfold next_id.
  destruct (max_id (documents db)) as [m|] eqn:E; [|done]. simpl.
  apply max_id_Some in E as [[row Hrow] _]. apply Hacc in Hrow as [? _]. lia.
Qed.

Section Store.

Variable clock : nat → str.

Lemma perform_settled o st : settled st → settled (perform clock o st).2.
Proof.
  intros (Hf & Hsync & Hids & Hacc).
  destruct o as [raw|k new_text|k]; cbn [perform].
  - unfold bind. rewrite save_document_ok by done. cbn [snd ret].
    apply settled_state.
    + by apply audit_ids_dense_logged.
    + intros j row. unfold saved_db. cbn [documents logged with_documents audit_log].
      destruct (decide (j = next_id (live st))) as [->|Hne].
      * intros _. split; [by apply next_id_positive|].
        eexists. split; [apply elem_of_app; right; left|]. done.
      * rewrite lookup_insert_ne by done. intros Hrow.
        destruct (Hacc j row Hrow) as (? & e & ? & ? & ?). split; [done|].
        exists e. split; [apply elem_of_app; by left|done].
  - unfold bind. rewrite edit_selected_document_ok by done.
    destruct (documents (live st) !! k) as [row0|] eqn:Hk.
    + rewrite save_changes_ok by done. cbn [snd].
      apply settled_state.
      * by apply audit_ids_dense_logged.
      * intros j row. unfold edited_db.
        cbn [documents logged with_documents audit_log dialog_doc_id].
        intros Hrow.
        assert (is_Some (documents (live st) !! j)) as [row1 Hrow1].
        { destruct (decide (j = k)) as [->|Hne]; [by eexists|].
          rewrite lookup_alter_ne in Hrow by done. by eexists. }
        destruct (Hacc j row1 Hrow1) as (? & e & ? & ? & ?). split; [done|].
        exists e. split; [apply elem_of_app; by left|done].
    + cbn [snd ret]. destruct Hsync as (? & ? & ?). by split_and!.
  - rewrite delete_selected_document_ok by done. cbn [snd].
    apply settled_state.
    + by apply audit_ids_dense_logged.
    + intros j row. unfold deleted_db.
      cbn [documents logged with_documents audit_log].
      intros [_ Hrow]%lookup_delete_Some.
      destruct (Hacc j row Hrow) as (? & e & ? & ? & ?). split; [done|].
      exists e. split; [apply elem_of_app; by left|done].
Qed.

Lemma init_database_settled : settled init_database.
Proof.
  unfold settled, in_sync. split_and!; done.
Qed.

Lemma run_ops_settled ops st : settled st → settled (run_ops clock ops st).
Proof.
  revert st. induction ops as [|o ops IH]; intros st H; [done|].
  cbn [run_ops]. by apply IH, perform_settled.
Qed.

(** X21: after every sequence of creates, updates and deletes on a new
    database in which no call into [sqlite3] fails, nothing waits for a
    commit and the two trees show the tables: the documents tree is the
    listing of [documents] and the audit tree the listing of
    [audit_log]. *)
Theorem views_follow_the_database ops :
  durable (run_ops clock ops init_database)
  = live (run_ops clock ops init_database)
  ∧ documents_tree (run_ops clock ops init_database)
    = documents_rows (live (run_ops clock ops init_database))
  ∧ audit_tree (run_ops clock ops init_database)
    = audit_rows (live (run_ops clock ops init_database)).
Proof.
  destruct (run_ops_settled ops init_database init_database_settled)
    as (_ & H & _). exact H.
Qed.

(** X22: in such a run the audit entries are numbered 1, 2, ... in the
    order they were written, and every stored document has an id of at
    least 1 and an ADD entry in the audit log. *)
Theorem documents_are_accounted_for ops :
  audit_id <$> audit_log (live (run_ops clock ops init_database))
  = (fun i => Z.of_nat (S i))
    <$> seq 0 (length (audit_log (live (run_ops clock ops init_database))))
  ∧ ∀ k row,
      documents (live (run_ops clock ops init_database)) !! k = Some row →
      1 ≤ k
      ∧ ∃ e, e ∈ audit_log (live (run_ops clock ops init_database))
             ∧ document_id e = k ∧ action e = py "ADD".
Proof.
  destruct (run_ops_settled ops init_database init_database_settled)
    as (_ & _ & [Hids _] & Hacc). split; [exact Hids|exact Hacc].
Qed.

(** X23: the status of a document never leaves PENDING: after every
    sequence of creates, updates and deletes on a new database, whichever
    calls into [sqlite3] fail, every document the cursor sees and every
    document on disk has the status PENDING. *)
Theorem status_stays_pending ops fl :
  all_pending (live (run_ops clock ops (set_faults fl init_database)))
  ∧ all_pending (durable (run_ops clock ops (set_faults fl init_database))).
Proof.
  apply (keeps_run_ops pending_kept pending_kept_refl pending_kept_trans
           pending_kept_database clock pending_kept_commit
           pending_kept_insert_audit ops (set_faults fl init_database)).
  - apply pending_kept_insert_document.
  - apply pending_kept_update_document.
  - apply pending_kept_delete_document.
  - split; intros k row Hrow; cbn in Hrow; by rewrite lookup_empty in Hrow.
Qed.

End Store.

End InvariantFacts.

(** ** The scan tab *)

Module ScanTabFacts.

Import DocumentManager ScanTab CleanerFacts.

Section Scanning.

Variable clock : nat → str.
Variables document result : Type.
Variable from_images : str → outcome document.
Variable model : document → outcome result.
Variable render : result → outcome str.

Local Abbreviation doctr := (doctr document result from_images model render).
Local Abbreviation rendered :=
  (rendered document result from_images model render).
Local Abbreviation process_image :=
  (process_image document result from_images model render).
Local Abbreviation process_images :=
  (process_images document result from_images model render).

Lemma process_image_eq image_path s :
  process_image image_path s =
  (Returns tt,
   match doctr image_path with
   | Returns extracted_text =>
       mkScan (app s) extracted_text (save_buttons s ++ [extracted_text])
   | Raises e =>
       mkScan (set_dialogs
                 (dialogs (app s)
                  ++ [(ShowError, "Error", "An error occurred: " +:+ e.2)])
                 (app s))
              (py ("An error occurred: " +:+ e.2)) (save_buttons s)
   end).
Proof.
  unfold ScanTab.process_image. by destruct (doctr image_path).
Qed.

Lemma process_images_buttons image_paths : ∀ s,
  save_buttons (process_images image_paths s)
  = save_buttons s ++ omap rendered image_paths.
Proof.
  induction image_paths as [|p ps IH]; intros s; cbn [ScanTab.process_images].
  - by rewrite app_nil_r.
  - rewrite IH, process_image_eq. cbn [snd].
    rewrite (omap_cons_eq rendered p ps). unfold ScanTab.rendered at 2.
    destruct (doctr p); cbn [save_buttons]; [|done].
    by rewrite <- app_assoc.
Qed.

Lemma process_images_database image_paths : ∀ s,
  live (app (process_images image_paths s)) = live (app s)
  ∧ durable (app (process_images image_paths s)) = durable (app s).
Proof.
  induction image_paths as [|p ps IH]; intros s; cbn [ScanTab.process_images];
    [done|].
  destruct (IH (process_image p s).2) as [-> ->].
  rewrite process_image_eq. cbn [snd]. by destruct (doctr p).
Qed.

(** X24: every image that DocTR renders adds a "Save Document" button
    for its text and none is ever removed: after a series of images the
    buttons are, in order, the texts of the images that were rendered,
    behind the buttons there were; the result area shows only the last
    outcome; scanning writes nothing to the database; and a click on a
    button saves the text of its own image, also when a later image was
    scanned or failed. *)
Theorem save_buttons_accumulate (image_paths : list str) (s : Scan) :
  save_buttons (process_images image_paths s)
  = save_buttons s ++ omap rendered image_paths
  ∧ (∀ image_path,
       result_text (process_images (image_paths ++ [image_path]) s)
       = match doctr image_path with
         | Returns extracted_text => extracted_text
         | Raises e => py ("An error occurred: " +:+ e.2)
         end)
  ∧ live (app (process_images image_paths s)) = live (app s)
  ∧ durable (app (process_images image_paths s)) = durable (app s)
  ∧ ∀ i extracted_text,
      save_buttons s !! i = Some extracted_text →
      save_buttons (process_images image_paths s) !! i = Some extracted_text
      ∧ app (save_button_click clock i (process_images image_paths s))
        = (save_document clock extracted_text
             (app (process_images image_paths s))).2.
Proof.
  split_and!.
  - apply process_images_buttons.
  - intros p. revert s.
    induction image_paths as [|q qs IH]; intros s.
    + rewrite app_nil_l. cbn [ScanTab.process_images].
      rewrite process_image_eq. cbn [snd].
      by destruct (doctr p).
    + rewrite <- app_comm_cons. cbn [ScanTab.process_images]. apply IH.
  - apply process_images_database.
  - apply process_images_database.
  - intros i t Hi.
    assert (save_buttons (process_images image_paths s) !! i = Some t) as Hi'.
    { rewrite process_images_buttons. by apply lookup_app_l_Some. }
    split; [done|]. unfold save_button_click. by rewrite Hi'.
Qed.

End Scanning.

End ScanTabFacts.

(** ** The shape of the extracted fields *)

Module FieldShapeFacts.

Import Re DocumentManager FieldShapes ExtractorFacts.

Local Open Scope N_scope.

Lemma starts_with_spec (l s : str) :
  starts_with l s = true → s = l ++ drop (length l) s.
Proof.
  revert s. induction l as [|a l IH]; intros [|b s]; simpl; try done.
  intros [Hab Hl]%andb_true_iff. apply N.eqb_eq in Hab as ->.
  f_equal. by apply IH.
Qed.

Lemma rep_rests_sound cls (s : str) : ∀ lo hi rest,
  rest ∈ rep_rests cls lo hi s →
  ∃ m, s = m ++ rest ∧ lang (Rep cls lo hi) m.
Proof.
  induction s as [|c s IH]; intros lo hi rest Hin.
  - exists []. simpl in Hin. destruct lo; [|by apply elem_of_nil in Hin].
    apply list_elem_of_singleton in Hin as ->.
    split; [done|]. split_and!; [constructor|done|simpl; lia].
  - cbn [rep_rests] in Hin.
    assert (rest ∈ match lo with O => [c :: s] | S _ => [] end →
            ∃ m, c :: s = m ++ rest ∧ lang (Rep cls lo hi) m) as Hstop.
    { intros H. destruct lo; [|by apply elem_of_nil in H].
      apply list_elem_of_singleton in H as ->. exists [].
      split; [done|]. split_and!; [constructor|done|simpl; lia]. }
    destruct (cls c && negb (bool_decide (hi = Some 0%nat))) eqn:E;
      [|by apply Hstop].
    apply andb_true_iff in E as [Hc Hhi]. apply negb_true_iff in Hhi.
    apply bool_decide_eq_false in Hhi.
    apply elem_of_app in Hin as [Hin|Hin]; [|by apply Hstop].
    apply IH in Hin as (m & -> & Hm & Hlo & Hmax).
    exists (c :: m). split; [done|]. split_and!.
    + by constructor.
    + simpl. lia.
    + intros h ->. simpl. destruct h as [|h]; [done|].
      specialize (Hmax h eq_refl). lia.
Qed.

(** Every way [run] finds is a match. *)
Lemma run_sound r : ∀ (s : str) g rest,
  (g, rest) ∈ run r s → ∃ m, s = m ++ rest ∧ lang r m.
Proof.
  induction r as [l|cls|cls lo hi|r1 IH1 r2 IH2|r1 IH1 r2 IH2|r1 IH1];
    intros s g rest Hin; cbn [run] in Hin.
  - destruct (starts_with l s) eqn:E; [|by apply elem_of_nil in Hin].
    apply list_elem_of_singleton in Hin as [= -> ->].
    exists l. split; [by apply starts_with_spec|done].
  - destruct s as [|c s]; [by apply elem_of_nil in Hin|].
    destruct (cls c) eqn:E; [|by apply elem_of_nil in Hin].
    apply list_elem_of_singleton in Hin as [= -> ->].
    exists [c]. split; [done|]. by exists c.
  - apply list_elem_of_fmap in Hin as (rest' & [= -> ->] & Hin).
    by apply rep_rests_sound.
  - apply elem_of_app in Hin as [Hin|Hin].
    + apply IH1 in Hin as (m & -> & Hm). exists m. split; [done|by left].
    + apply IH2 in Hin as (m & -> & Hm). exists m. split; [done|by right].
  - apply list_elem_of_bind in Hin as ([g1 rest1] & Hin & H1).
    apply list_elem_of_bind in Hin as ([g2 rest2] & Hin & H2).
    apply list_elem_of_singleton in Hin as [= -> ->].
    apply IH1 in H1 as (m1 & -> & Hm1). apply IH2 in H2 as (m2 & -> & Hm2).
    exists (m1 ++ m2). split; [by rewrite <- app_assoc|]. by exists m1, m2.
  - apply list_elem_of_bind in Hin as ([g1 rest1] & Hin & H1).
    apply list_elem_of_singleton in Hin as [= -> ->].
    apply IH1 in H1 as (m & -> & Hm). by exists m.
Qed.

(** What the group of [(...)] holds. *)
Lemma run_group_sound r (s : str) g rest :
  (g, rest) ∈ run (Group r) s → ∃ m, g = Some m ∧ s = m ++ rest ∧ lang r m.
Proof.
  intros Hin. cbn [run] in Hin.
  apply list_elem_of_bind in Hin as ([g1 rest1] & Hin & H1).
  apply list_elem_of_singleton in Hin as [= -> ->].
  apply run_sound in H1 as (m & -> & Hm). exists m. split; [|done].
  f_equal. rewrite length_app.
  match goal with
  | |- take ?n _ = _ => replace n with (length m) by lia
  end.
  by rewrite take_app_length.
Qed.

Lemma head_bind {A B} (f : A → list B) (l : list A) y :
  head (l ≫= f) = Some y → ∃ x, x ∈ l ∧ head (f x) = Some y.
Proof.
  induction l as [|x l IH]; [done|]. rewrite bind_cons.
  destruct (f x) as [|z zs] eqn:E.
  - intros (x' & ? & ?)%IH. exists x'. split; [by right|done].
  - intros H. exists x. split; [left|]. by rewrite E.
Qed.

Lemma rep_rests_zero_nonempty cls hi (s : str) : rep_rests cls O hi s ≠ [].
Proof.
  destruct s as [|c s]; simpl; [done|].
  destruct (cls c && _); [|done]. intros [_ H]%app_eq_nil. done.
Qed.

(** The first way greedy repetition without an upper bound finds takes
    every code point of the class there is. *)
Lemma rep_rests_head cls (s : str) : ∀ lo rest,
  head (rep_rests cls lo None s) = Some rest → stops cls rest.
Proof.
  induction s as [|c s IH]; intros lo rest H.
  - simpl in H. destruct lo; [|done]. injection H as <-. by intros c.
  - cbn [rep_rests fmap option_fmap option_map] in H.
    rewrite bool_decide_eq_false_2 in H by done.
    rewrite andb_true_r in H.
    destruct (cls c) eqn:E.
    + destruct (rep_rests cls (pred lo) None s) as [|r rs] eqn:Er.
      * destruct lo; [|done]. by apply rep_rests_zero_nonempty in Er.
      * simpl in H. injection H as <-. apply (IH (pred lo)). by rewrite Er.
    + destruct lo; [|done]. injection H as <-. by intros c' [= <-].
Qed.

Lemma head_elem_of {A} (l : list A) x : head l = Some x → x ∈ l.
Proof. destruct l; [done|]. intros [= ->]. left. Qed.

Lemma search_sound r (s : str) m :
  search r s = Some m → ∃ before t, s = before ++ t ∧ head (run r t) = Some m.
Proof.
  induction s as [|c s IH]; rewrite search_unfold.
  - destruct (run r []) as [|m' ms] eqn:E; [done|]. intros [= <-].
    exists [], []. by rewrite E.
  - destruct (run r (c :: s)) as [|m' ms] eqn:E.
    + intros (before & t & -> & H)%IH. by exists (c :: before), t.
    + intros [= <-]. exists [], (c :: s). by rewrite E.
Qed.

(** The first way a sequence finds. *)
Lemma run_seq_head r1 r2 (s : str) g rest :
  head (run (Seq r1 r2) s) = Some (g, rest) →
  ∃ g1 rest1 g2,
    (g1, rest1) ∈ run r1 s ∧ head (run r2 rest1) = Some (g2, rest)
    ∧ g = match g2 with Some _ => g2 | None => g1 end.
Proof.
  cbn [run]. intros ([g1 rest1] & H1 & H)%head_bind.
  exists g1, rest1.
  destruct (run r2 rest1) as [|[g2 rest2] ms] eqn:E; [done|].
  rewrite bind_cons in H. simpl in H. injection H as <- <-.
  by exists g2.
Qed.

Lemma run_group_head r (s : str) g rest :
  head (run (Group r) s) = Some (g, rest) →
  ∃ m g', g = Some m ∧ s = m ++ rest ∧ lang r m
          ∧ head (run r s) = Some (g', rest).
Proof.
  intros H. pose proof (head_elem_of _ _ H) as Hin.
  apply run_group_sound in Hin as (m & -> & -> & Hm).
  cbn [run] in H.
  destruct (run r (m ++ rest)) as [|[g' rest'] ms] eqn:E; [done|].
  rewrite bind_cons in H. simpl in H. injection H as _ <-.
  by exists m, g'.
Qed.

(** What a search for a label, separators and a group finds. *)
Lemma labelled_search a sep c (s g : str) :
  search_group1 (Seq a (Seq (Rep sep 0 None) (Group c))) s = Some g →
  ∃ before label seps after g',
    s = before ++ label ++ seps ++ g ++ after
    ∧ lang a label ∧ Forall (fun x => sep x = true) seps ∧ lang c g
    ∧ head (run c (g ++ after)) = Some (g', after).
Proof.
  unfold search_group1. destruct (search _ s) as [[g0 rest]|] eqn:E; [|done].
  simpl. intros ->. apply search_sound in E as (before & t & -> & H).
  apply run_seq_head in H as (g1 & rest1 & g2 & H1 & H & Hg0).
  apply run_sound in H1 as (label & -> & Hlabel).
  apply run_seq_head in H as (g3 & rest3 & g4 & H3 & H & Hg).
  apply run_sound in H3 as (seps & -> & Hseps & _).
  apply run_group_head in H as (m & g' & -> & -> & Hm & Hhead).
  exists before, label, seps, rest, g'.
  assert (g = m) as -> by (rewrite Hg in Hg0; by injection Hg0).
  by split_and!.
Qed.

Lemma greedy_stops cls lo (g after : str) g' :
  head (run (Rep cls lo None) (g ++ after)) = Some (g', after) →
  stops cls after.
Proof.
  cbn [run]. intros H. apply (rep_rests_head cls (g ++ after) lo).
  destruct (rep_rests cls lo None (g ++ after)) as [|r rs]; [done|].
  simpl in H. by injection H as _ <-.
Qed.

Lemma lang_date_shape digit (m : str) :
  lang (Seq (Rep digit 1 (Some 2%nat))
       (Seq (Cls date_sep)
       (Seq (Rep digit 1 (Some 2%nat))
       (Seq (Cls date_sep) (Rep digit 2 (Some 4%nat)))))) m →
  date_like digit m.
Proof.
  intros (d1 & m1 & -> & (Hd1 & Hlo1 & Hhi1)
          & ? & m2 & -> & (s1 & -> & Hs1)
          & d2 & m3 & -> & (Hd2 & Hlo2 & Hhi2)
          & ? & d3 & -> & (s2 & -> & Hs2) & (Hd3 & Hlo3 & Hhi3)).
  exists d1, s1, d2, s2, d3.
  specialize (Hhi1 _ eq_refl). specialize (Hhi2 _ eq_refl).
  specialize (Hhi3 _ eq_refl). by split_and!.
Qed.

Section Extractor.

Variable uni_upper uni_lower uni_title : N → str.
Variable uni_iscased uni_isdecimal : N → bool.

Local Abbreviation upper := (upper uni_upper).
Local Abbreviation title := (title uni_lower uni_title uni_iscased).
Local Abbreviation title_from := (title_from uni_lower uni_title uni_iscased).
Local Abbreviation digit := (digit uni_isdecimal).
Local Abbreviation parse :=
  (parse_document_info uni_upper uni_lower uni_title uni_iscased
     uni_isdecimal).

Lemma name_char_ascii c :
  name_char c = true →
  is_ascii c = true ∧ ascii_islower c = false
  ∧ letter_or_space c = true
  ∧ letter_or_space (if ascii_isupper c then c + 32 else c) = true.
Proof.
  unfold name_char, letter_or_space, is_ascii, ascii_islower, ascii_isupper,
    between.
  intros [[H1 H2]%andb_true_iff|H]%orb_true_iff.
  - apply N.leb_le in H1, H2.
    repeat (match goal with
            | |- context [?x <=? ?y] =>
                first [ rewrite (proj2 (N.leb_le x y)) by lia
                      | rewrite (proj2 (N.leb_gt x y)) by lia ]
            | |- context [?x <? ?y] =>
                first [ rewrite (proj2 (N.ltb_lt x y)) by lia
                      | rewrite (proj2 (N.ltb_ge x y)) by lia ]
            | |- context [?x =? ?y] =>
                first [ rewrite (proj2 (N.eqb_eq x y)) by lia
                      | rewrite (proj2 (N.eqb_neq x y)) by lia ]
            end; cbn [andb orb]).
    done.
  - apply N.eqb_eq in H as ->. done.
Qed.

Lemma title_from_name (g : str) : ∀ previous_is_cased,
  Forall (fun c => name_char c = true) g →
  length (title_from previous_is_cased g) = length g
  ∧ Forall (fun c => letter_or_space c = true) (title_from previous_is_cased g).
Proof.
  induction g as [|c g IH]; intros b Hg; [by split|].
  apply Forall_cons in Hg as [Hc Hg].
  destruct (name_char_ascii c Hc) as (Ha & Hl & H1 & H2).
  destruct (IH (iscased uni_iscased c) Hg) as [IHl IHf].
  cbn [DocumentManager.title_from]. unfold lower_char, title_char.
  rewrite Ha, Hl. destruct b; simpl; (split; [by rewrite IHl|by constructor]).
Qed.

(** X25: the document number found is empty or a run of at least six
    capital letters, digits and hyphens of the upper-cased text, as long
    as it can be, that stands behind one of the labels ID, DL, NO and
    NUMBER and any number of the separators [.:# ]. *)
Theorem doc_number_shape (text : str) :
  doc_number (parse text) = []
  ∨ ∃ before label seps after,
      upper text
      = before ++ label ++ seps ++ doc_number (parse text) ++ after
      ∧ label ∈ [py "ID"; py "DL"; py "NO"; py "NUMBER"]
      ∧ Forall (fun c => label_sep c = true) seps
      ∧ (6 ≤ length (doc_number (parse text)))%nat
      ∧ Forall (fun c => number_char c = true) (doc_number (parse text))
      ∧ stops number_char after.
Proof.
  unfold parse_document_info. cbn [doc_number].
  destruct (search_group1 number_re (upper text)) as [g|] eqn:E; [|by left].
  right. cbn [field_of id].
  apply labelled_search in E
    as (before & label & seps & after & g' & Hs & Hlabel & Hseps & Hg & Hhead).
  exists before, label, seps, after. destruct Hg as (Hg & Hlen & _).
  split_and!; [done| |done..|by eapply greedy_stops].
  destruct Hlabel as [->|[->|[->| ->]]]; set_solver.
Qed.

(** X26: the name found is empty or the title-cased copy of a non-empty
    run of capital letters and spaces of the upper-cased text, as long as
    it can be, that stands behind the label NAME and any number of
    separators; it is as long as that run and holds ASCII letters and
    spaces only, so a name ends at the first digit, punctuation mark,
    newline or letter outside A-Z. *)
Theorem full_name_shape (text : str) :
  full_name (parse text) = []
  ∨ ∃ before seps g after,
      upper text = before ++ py "NAME" ++ seps ++ g ++ after
      ∧ Forall (fun c => label_sep c = true) seps
      ∧ g ≠ [] ∧ Forall (fun c => name_char c = true) g
      ∧ stops name_char after
      ∧ full_name (parse text) = title g
      ∧ length (full_name (parse text)) = length g
      ∧ Forall (fun c => letter_or_space c = true) (full_name (parse text)).
Proof.
  unfold parse_document_info. cbn [full_name].
  destruct (search_group1 name_re (upper text)) as [g|] eqn:E; [|by left].
  right. cbn [field_of].
  apply labelled_search in E
    as (before & label & seps & after & g' & Hs & -> & Hseps & Hg & Hhead).
  exists before, seps, g, after. destruct Hg as (Hg & Hlen & _).
  destruct (title_from_name g false Hg) as [Hl Hf].
  split_and!; [done|done| |done|by eapply greedy_stops|done..].
  intros ->. simpl in Hlen. lia.
Qed.

(** X27: each of the three dates found is empty or has the shape of
    the pattern: one or two digits, a hyphen or slash, one or two digits,
    a hyphen or slash, two to four digits.  Nothing else is checked: no
    month or day is out of range for the extractor. *)
Theorem dates_shape (text : str) :
  (date_of_birth (parse text) = []
   ∨ date_like digit (date_of_birth (parse text)))
  ∧ (expiry_date (parse text) = []
     ∨ date_like digit (expiry_date (parse text)))
  ∧ (issue_date (parse text) = []
     ∨ date_like digit (issue_date (parse text))).
Proof.
  unfold parse_document_info.
  cbn [date_of_birth expiry_date issue_date].
  split_and!.
  - destruct (search_group1 (dob_re uni_isdecimal) (upper text)) as [g|] eqn:E;
      [|by left].
    right. apply labelled_search in E as (? & ? & ? & ? & ? & _ & _ & _ & Hg & _).
    by apply lang_date_shape.
  - destruct (search_group1 (exp_re uni_isdecimal) (upper text)) as [g|] eqn:E;
      [|by left].
    right. apply labelled_search in E as (? & ? & ? & ? & ? & _ & _ & _ & Hg & _).
    by apply lang_date_shape.
  - destruct (search_group1 (iss_re uni_isdecimal) (upper text)) as [g|] eqn:E;
      [|by left].
    right. apply labelled_search in E as (? & ? & ? & ? & ? & _ & _ & _ & Hg & _).
    by apply lang_date_shape.
Qed.

End Extractor.

End FieldShapeFacts.
